(** * sinyal1.py: indicator engine, signal evaluator and position ledger

    A shallow embedding of [sinyal1.py], the market scanner of the
    repository, and the proofs of its specification.

    - Python floats are IEEE 754 binary64 numbers.  The program text is
      embedded once, over an interface [Number] of the arithmetic it
      uses, and read at two instances: [binary64], Rocq's primitive
      floats, which is what the interpreter runs, and [exact], the
      rationals, which is the arithmetic the specification's formulas
      are written in.
    - A Python exception is a value [Raise e] of the type [result];
      the sentinel [None] is [Ok None].
    - The module [statistics] and the clock are not part of the
      repository: [mean] and [pstdev] are a parameter [Statistics], and
      a model of the CPython functions is given for running examples. *)

From Stdlib Require Import ZArith QArith Qabs Floats Ascii Strings.String List Lia Lra Lqa.
From stdpp Require Import gmap strings list fin_maps.

Open Scope Z_scope.

(** ** Python values *)

Inductive exn : Type :=
| ZeroDivisionError
| IndexError
| StatisticsError
| TypeError.

Inductive result (A : Type) : Type :=
| Ok (a : A)
| Raise (e : exn).

Arguments Ok {A} a.
Arguments Raise {A} e.

#[global] Instance result_ret : MRet result := fun A a => Ok a.

#[global] Instance result_bind : MBind result := fun A B k m =>
  match m with
  | Ok a => k a
  | Raise e => Raise e
  end.

Definition raises {A : Type} (m : result A) : Prop := ∃ e, m = Raise e.

(** [len(l)] *)
Definition len {A : Type} (l : list A) : Z := Z.of_nat (length l).

(** [l[i]]: a negative index counts from the end, and an index outside
    the list raises [IndexError]. *)
Definition py_index {A : Type} (l : list A) (i : Z) : result A :=
  let j := if i <? 0 then i + len l else i in
  if (0 <=? j) && (j <? len l)
  then match nth_error l (Z.to_nat j) with
       | Some x => Ok x
       | None => Raise IndexError
       end
  else Raise IndexError.

(** [l[start:]]: a negative start counts from the end, and the start is
    clamped to the list. *)
Definition py_slice_from {A : Type} (l : list A) (start : Z) : list A :=
  let s := if start <? 0 then Z.max (start + len l) 0 else Z.min start (len l) in
  drop (Z.to_nat s) l.

(** [range(a, b)] *)
Definition py_range (a b : Z) : list Z :=
  map (fun k => a + Z.of_nat k) (seq 0 (Z.to_nat (b - a))).

(** A [for] loop with an accumulator whose body may raise. *)
Fixpoint for_each {A S : Type} (body : S → A → result S) (xs : list A) (s : S) : result S :=
  match xs with
  | [] => Ok s
  | x :: xs' => s' ← body s x; for_each body xs' s'
  end.

(** ** Numbers *)

(** The arithmetic of a Python float, as far as the program uses it.
    [num_quot] is the quotient by a divisor that is not zero;
    [num_fixed d x] is the number read back from the text [f"{x:.df}"],
    which is how the ledger file stores a number. *)
Class Number (F : Type) : Type := {
  of_int : Z → F;
  num_add : F → F → F;
  num_sub : F → F → F;
  num_mul : F → F → F;
  num_quot : F → F → F;
  num_neg : F → F;
  num_abs : F → F;
  num_eqb : F → F → bool;
  num_ltb : F → F → bool;
  num_leb : F → F → bool;
  num_fixed : Z → F → F;
}.

Declare Scope num_scope.
Delimit Scope num_scope with num.
Infix "+" := num_add : num_scope.
Infix "-" := num_sub : num_scope.
Infix "*" := num_mul : num_scope.
Notation "- x" := (num_neg x) : num_scope.
Infix "==" := num_eqb (at level 70, no associativity) : num_scope.
Infix "<" := num_ltb : num_scope.
Infix "<=" := num_leb : num_scope.
Notation "x > y" := (num_ltb y x) : num_scope.
Notation "x >= y" := (num_leb y x) : num_scope.

(** The statistics module of the Python library. *)
Record Statistics (F : Type) : Type := {
  mean : list F → result F;
  pstdev : list F → result F;
}.

Arguments mean {F} _ _.
Arguments pstdev {F} _ _.

Section Program.

Context {F : Type} `{Number F}.
Variable stat : Statistics F.

(** A decimal literal [n/d], such as [1.2] = [lit 12 10], and a whole
    number [n]; the interpreter rounds a literal to the nearest float. *)
Definition lit (n d : Z) : F := num_quot (of_int n) (of_int d).

Definition whole (n : Z) : F := of_int n.

(** [x / y] raises when the divisor is zero. *)
Definition py_div (x y : F) : result F :=
  if (y == whole 0)%num then Raise ZeroDivisionError else Ok (num_quot x y).

(** [max(x, y)] keeps its first argument unless the second is larger. *)
Definition py_max (x y : F) : F := if (x < y)%num then y else x.

Definition py_max3 (x y z : F) : F := py_max (py_max x y) z.

(** [sum(l)] adds from the left, starting from [0]. *)
Definition py_sum (l : list F) : F := fold_left num_add l (whole 0).

(** *** Constants *)

Definition MIN_LONG_PCT : F := lit 15 10.
Definition MIN_SHORT_PCT : F := lit 15 10.
Definition SL_ATR_MULT : F := lit 12 10.
Definition TP_ATR_MULT : F := lit 18 10.
Definition RR_MIN : F := lit 12 10.

(** *** Indicators *)

Definition sma (values : list F) (period : Z) : result (option F) :=
  if len values <? period then Ok None
  else m ← mean stat (py_slice_from values (- period)); Ok (Some m).

(** The loop of [rsi]: one pass appends to [gains] and [losses]. *)
Definition rsi_step (closes : list F) (period : Z) (acc : list F * list F) (i : Z)
  : result (list F * list F) :=
  a ← py_index closes (- (period + 1) + i);
  b ← py_index closes (- (period + 2) + i);
  let change := (a - b)%num in
  Ok (fst acc ++ [py_max change (whole 0)], snd acc ++ [py_max (- change)%num (whole 0)]).

Definition rsi (closes : list F) (period : Z) : result (option F) :=
  if len closes <? period + 1 then Ok None
  else
    acc ← for_each (rsi_step closes period) (py_range 1 (period + 1)) ([], []);
    avg_gain ← py_div (py_sum (fst acc)) (of_int period);
    avg_loss ← py_div (py_sum (snd acc)) (of_int period);
    if (avg_loss == whole 0)%num then Ok (Some (whole 100))
    else
      rs ← py_div avg_gain avg_loss;
      q ← py_div (whole 100) (whole 1 + rs)%num;
      Ok (Some (whole 100 - q)%num).

Definition bollinger (closes : list F) (period : Z) (mult : F)
  : result (option F * option F * option F) :=
  if len closes <? period then Ok (None, None, None)
  else
    mid_opt ← sma closes period;
    let window := py_slice_from closes (- period) in
    std ← (if 2 <=? len window then pstdev stat window else Ok (whole 0));
    match mid_opt with
    | None => Raise TypeError
    | Some mid =>
        let upper := (mid + mult * std)%num in
        let lower := (mid - mult * std)%num in
        Ok (Some lower, Some mid, Some upper)
    end.

Definition atr_step (highs lows closes : list F) (trs : list F) (i : Z) : result (list F) :=
  high ← py_index highs i;
  low ← py_index lows i;
  prev_close ← py_index closes (i - 1);
  let tr := py_max3 (high - low)%num (num_abs (high - prev_close)%num)
                    (num_abs (low - prev_close)%num) in
  Ok (trs ++ [tr]).

Definition atr (highs lows closes : list F) (period : Z) : result (option F) :=
  if len highs <? period + 1 then Ok None
  else
    trs ← for_each (atr_step highs lows closes) (py_range (- period) 0) [];
    a ← py_div (py_sum trs) (of_int (len trs));
    Ok (Some a).

End Program.

(** ** The binary64 instance *)

Module B64.

(** [float(n)] for a Python int, the nearest float to [n]. *)
Definition of_Z (n : Z) : float :=
  match n with
  | Z0 => PrimFloat.zero
  | Zpos p =>
      if n <? 2 ^ 63 then of_uint63 (Uint63.of_Z n)
      else SF2Prim (binary_normalize prec emax n 0 false)
  | Zneg p =>
      if - n <? 2 ^ 63 then PrimFloat.opp (of_uint63 (Uint63.of_Z (- n)))
      else SF2Prim (binary_normalize prec emax n 0 false)
  end.

(** The rational number a finite float stands for. *)
Definition exact_value (x : float) : option Q :=
  match Prim2SF x with
  | S754_zero _ => Some 0%Q
  | S754_finite s m e =>
      let n := if s then Zneg m else Zpos m in
      Some (if 0 <=? e then inject_Z (n * 2 ^ e) else n # Z.to_pos (2 ^ (- e)))
  | _ => None
  end.

(** The float nearest to a rational, ties to even: a quotient of more
    than 64 bits and a sticky bit, rounded as the format prescribes. *)
Definition nearest (q : Q) : float :=
  let n := Qnum q in
  let d := Zpos (Qden q) in
  if n =? 0 then PrimFloat.zero
  else
    let p := Z.abs n in
    let k := 64 - (Z.log2 p - Z.log2 d) in
    let '(a, b) := if 0 <=? k then (p * 2 ^ k, d) else (p, d * 2 ^ (- k)) in
    let loc := if a mod b =? 0 then loc_Exact else loc_Inexact Lt in
    SF2Prim (binary_round_aux prec emax (n <? 0) (a / b) (- k) loc).

(** The float nearest to the square root of a rational that is not
    negative. *)
Definition nearest_sqrt (q : Q) : float :=
  let n := Qnum q in
  let d := Zpos (Qden q) in
  if n <=? 0 then PrimFloat.zero
  else
    let k := 64 - (Z.log2 n - Z.log2 d) / 2 in
    let '(a, b) := if 0 <=? k then (n * 2 ^ (2 * k), d) else (n, d * 2 ^ (- (2 * k))) in
    let r := Z.sqrt (a / b) in
    let loc := if (a mod b =? 0) && (r * r =? a / b) then loc_Exact else loc_Inexact Lt in
    SF2Prim (binary_round_aux prec emax false r (- k) loc).

(** The nearest whole number, ties to even. *)
Definition round_half_even (q : Q) : Z :=
  let n := Qnum q in
  let d := Zpos (Qden q) in
  let f := n / d in
  let r := n mod d in
  if 2 * r <? d then f
  else if d <? 2 * r then f + 1
  else if Z.even f then f else f + 1.

(** [float(f"{x:.df}")] *)
Definition fixed (d : Z) (x : float) : float :=
  match exact_value x with
  | None => x
  | Some v =>
      let n := round_half_even (v * inject_Z (10 ^ d)) in
      if n =? 0 then (if get_sign x then neg_zero else PrimFloat.zero)
      else nearest (n # Z.to_pos (10 ^ d))
  end.

#[global] Instance number : Number float := {|
  of_int := of_Z;
  num_add := PrimFloat.add;
  num_sub := PrimFloat.sub;
  num_mul := PrimFloat.mul;
  num_quot := PrimFloat.div;
  num_neg := PrimFloat.opp;
  num_abs := PrimFloat.abs;
  num_eqb := PrimFloat.eqb;
  num_ltb := PrimFloat.ltb;
  num_leb := PrimFloat.leb;
  num_fixed := fixed;
|}.

(** *** A model of [statistics.mean] and [statistics.pstdev]

    CPython adds the data as exact fractions and rounds once at the
    end: the mean is the float nearest to the exact mean, and (from
    version 3.11 on) the deviation is the float nearest to the square
    root of the exact variance.  Both raise [StatisticsError] on an
    empty list.  A value that is not finite makes the result not
    finite. *)

Fixpoint exact_values (xs : list float) : option (list Q) :=
  match xs with
  | [] => Some []
  | x :: xs' =>
      match exact_value x, exact_values xs' with
      | Some q, Some qs => Some (q :: qs)
      | _, _ => None
      end
  end.

Definition Qsum (qs : list Q) : Q := fold_left Qplus qs 0%Q.

Definition not_finite (x : float) : bool :=
  match exact_value x with Some _ => false | None => true end.

Definition cpython_mean (xs : list float) : result float :=
  match xs with
  | [] => Raise StatisticsError
  | _ =>
      match exact_values xs with
      | Some qs => Ok (nearest (Qred (Qsum qs / inject_Z (len xs))))
      | None => Ok (PrimFloat.div (fold_left PrimFloat.add (filter not_finite xs) PrimFloat.zero)
                                  (of_Z (len xs)))
      end
  end.

Definition cpython_pstdev (xs : list float) : result float :=
  match xs with
  | [] => Raise StatisticsError
  | _ =>
      match exact_values xs with
      | Some qs =>
          let n := inject_Z (len xs) in
          let mu := Qred (Qsum qs / n) in
          let ss := Qsum (map (fun q => Qred ((q - mu) * (q - mu))) qs) in
          Ok (nearest_sqrt (Qred (ss / n)))
      | None => Ok nan
      end
  end.

(** The sign of a spec float, where it has one. *)
Definition signed (s : bool) (x : spec_float) : Prop :=
  match x with
  | S754_infinity s' | S754_finite s' _ _ => s' = s
  | S754_zero _ | S754_nan => True
  end.

Definition nonzero (s : bool) (x : spec_float) : Prop :=
  match x with
  | S754_infinity s' | S754_finite s' _ _ => s' = s
  | _ => False
  end.

(** A float that is not negative (it may be a zero of either sign or
    not a number), one that is positive, one that is a zero, and one
    that is finite. *)
Definition nonneg (x : float) : Prop := signed false (Prim2SF x).

Definition positive (x : float) : Prop := nonzero false (Prim2SF x).

Definition is_zero (x : float) : Prop := ∃ s, Prim2SF x = S754_zero s.

Definition finite (x : float) : Prop :=
  match Prim2SF x with
  | S754_zero _ | S754_finite _ _ _ => True
  | _ => False
  end.

Definition cpython : Statistics float :=
  {| mean := cpython_mean; pstdev := cpython_pstdev |}.

End B64.

(** ** The exact instance: rational arithmetic *)

Module Exact.

Definition round_half_even := B64.round_half_even.

Definition fixed (d : Z) (x : Q) : Q :=
  round_half_even (x * inject_Z (10 ^ d)) # Z.to_pos (10 ^ d).

Definition Qlt_bool (x y : Q) : bool := negb (Qle_bool y x).

#[global] Instance number : Number Q := {|
  of_int := inject_Z;
  num_add := Qplus;
  num_sub := Qminus;
  num_mul := Qmult;
  num_quot := Qdiv;
  num_neg := Qopp;
  num_abs := Qabs;
  num_eqb := Qeq_bool;
  num_ltb := Qlt_bool;
  num_leb := Qle_bool;
  num_fixed := fixed;
|}.

Definition Qsum (qs : list Q) : Q := fold_left Qplus qs 0%Q.

Definition rational_mean (xs : list Q) : result Q :=
  match xs with
  | [] => Raise StatisticsError
  | _ => Ok (Qsum xs / inject_Z (len xs))%Q
  end.

(** The square root of a rational to twelve decimals, rounded down; it
    is the root itself when the rational is the square of a rational
    with a denominator that divides [10^12]. *)
Definition Qsqrt_down (q : Q) : Q :=
  Z.sqrt (Qnum q * Zpos (Qden q) * 10 ^ 24) # (Qden q * Z.to_pos (10 ^ 12)).

Definition rational_pstdev (xs : list Q) : result Q :=
  match xs with
  | [] => Raise StatisticsError
  | _ =>
      let n := inject_Z (len xs) in
      let mu := (Qsum xs / n)%Q in
      Ok (Qsqrt_down (Qred (Qsum (map (fun q => (q - mu) * (q - mu))%Q xs) / n)))
  end.

Definition rational : Statistics Q :=
  {| mean := rational_mean; pstdev := rational_pstdev |}.

End Exact.

(** ** Signals and the ledger *)

(** What [get_klines] returns for a symbol: the series, oldest bar
    first, and the times of the bars in milliseconds. *)
Record klines (F : Type) : Type := {
  k_highs : list F;
  k_lows : list F;
  k_closes : list F;
  k_times : list Z;
}.

Arguments k_highs {F} _.
Arguments k_lows {F} _.
Arguments k_closes {F} _.
Arguments k_times {F} _.

(** The arguments of a call of [long_signal] or [short_signal]. *)
Record signal (F : Type) : Type := {
  sig_symbol : string;
  sig_direction : string;
  sig_price : F;
  sig_sl : F;
  sig_tp1 : F;
  sig_tp2 : F;
  sig_rr : F;
  sig_close_time : Z;
}.

Arguments sig_symbol {F} _.
Arguments sig_direction {F} _.
Arguments sig_price {F} _.
Arguments sig_sl {F} _.
Arguments sig_tp1 {F} _.
Arguments sig_tp2 {F} _.
Arguments sig_rr {F} _.
Arguments sig_close_time {F} _.

(** A row of [positions.csv].  The numeric cells are kept as the
    numbers [float(row[...])] reads from them. *)
Record position (F : Type) : Type := {
  pos_id : string;
  symbol : string;
  direction : string;
  entry : F;
  sl : F;
  tp1 : F;
  tp2 : F;
  signal_time : string;
  rr : F;
  status : string;
  tp1_hit_time : string;
  tp2_hit_time : string;
  sl_hit_time : string;
}.

Arguments pos_id {F} _.
Arguments symbol {F} _.
Arguments direction {F} _.
Arguments entry {F} _.
Arguments sl {F} _.
Arguments tp1 {F} _.
Arguments tp2 {F} _.
Arguments signal_time {F} _.
Arguments rr {F} _.
Arguments status {F} _.
Arguments tp1_hit_time {F} _.
Arguments tp2_hit_time {F} _.
Arguments sl_hit_time {F} _.

Record counters : Type := {
  n_long : Z;
  n_short : Z;
  n_cycles : Z;
}.

(** The state of the process between two statements of [main]: the
    ledger file, the module-level dictionaries and set, and the signal
    panels printed so far. *)
Record bot_state (F : Type) : Type := {
  positions_file : list (position F);
  last_alert_candle : gmap string Z;
  stats : counters;
  new_positions_this_cycle : gset string;
  notifications : list (signal F);
}.

Arguments positions_file {F} _.
Arguments last_alert_candle {F} _.
Arguments stats {F} _.
Arguments new_positions_this_cycle {F} _.
Arguments notifications {F} _.

Definition replace_space (s : string) : string :=
  string_of_list_ascii
    (map (fun c => if Ascii.eqb c " "%char then "_"%char else c) (list_ascii_of_string s)).

Definition is_side (dir : string) : Prop := dir = "LONG" ∨ dir = "SHORT".

Definition is_open (st : string) : bool :=
  String.eqb st "PENDING" || String.eqb st "TP1_HIT".

Section Ledger.

Context {F : Type} `{Number F}.
Variable stat : Statistics F.

(** The local time of a timestamp, as [human_time_ms] formats it. *)
Variable human_time_ms : Z → string.

Definition make_id (symbol direction signal_time_str : string) : string :=
  symbol +:+ "_" +:+ direction +:+ "_" +:+ replace_space signal_time_str.

(** The row [add_position] appends to the file. *)
Definition new_row (symbol direction : string) (entry sl tp1 tp2 : F)
    (signal_time_str : string) (rr : F) : position F :=
  {| pos_id := make_id symbol direction signal_time_str;
     symbol := symbol;
     direction := direction;
     entry := num_fixed 8 entry;
     sl := num_fixed 8 sl;
     tp1 := num_fixed 8 tp1;
     tp2 := num_fixed 8 tp2;
     signal_time := signal_time_str;
     rr := num_fixed 2 rr;
     status := "PENDING";
     tp1_hit_time := "";
     tp2_hit_time := "";
     sl_hit_time := "" |}.

Definition add_position (symbol direction : string) (entry sl tp1 tp2 : F)
    (signal_time_str : string) (rr : F) (file : list (position F))
  : list (position F) * string :=
  let row := new_row symbol direction entry sl tp1 tp2 signal_time_str rr in
  (file ++ [row], pos_id row).

(** *** The signal evaluator *)

(** Lines 503 to 511 of [main]: the levels of a LONG setup, its
    potential in percent and its risk/reward ratio. *)
Definition long_sl (price a : F) : F := (price - SL_ATR_MULT * a)%num.

Definition long_tp2 (price a : F) : F := (price + TP_ATR_MULT * a)%num.

Definition long_tp1 (price a : F) : F :=
  (price + (long_tp2 price a - price) * lit 5 10)%num.

Definition long_pct (price a : F) : result F :=
  q ← py_div (long_tp2 price a - price)%num price; Ok (q * whole 100)%num.

Definition long_rr (price a : F) : result F :=
  let risk := (price - long_sl price a)%num in
  let reward := (long_tp2 price a - price)%num in
  if (risk > whole 0)%num then py_div reward risk else Ok (whole 0).

(** Lines 499 to 513: the LONG block of a symbol, up to the call of
    [long_signal]. *)
Definition long_decision (symbol : string) (price lower r a : F)
    (has_open_long : bool) (last : option Z) (close_time : Z)
  : result (option (signal F)) :=
  let long_cond := (price < lower)%num && (r < whole 30)%num in
  if long_cond && negb has_open_long then
    if negb (bool_decide (last = Some close_time)) then
      pct ← long_pct price a;
      if (pct >= MIN_LONG_PCT)%num then
        rr ← long_rr price a;
        if (rr >= RR_MIN)%num then
          Ok (Some {| sig_symbol := symbol; sig_direction := "LONG"; sig_price := price;
                      sig_sl := long_sl price a; sig_tp1 := long_tp1 price a;
                      sig_tp2 := long_tp2 price a; sig_rr := rr;
                      sig_close_time := close_time |})
        else Ok None
      else Ok None
    else Ok None
  else Ok None.

(** Lines 523 to 531: the levels of a SHORT setup. *)
Definition short_sl (price a : F) : F := (price + SL_ATR_MULT * a)%num.

Definition short_tp2 (price a : F) : F := (price - TP_ATR_MULT * a)%num.

Definition short_tp1 (price a : F) : F :=
  (price - (price - short_tp2 price a) * lit 5 10)%num.

Definition short_pct (price a : F) : result F :=
  q ← py_div (price - short_tp2 price a)%num price; Ok (q * whole 100)%num.

Definition short_rr (price a : F) : result F :=
  let risk := (short_sl price a - price)%num in
  let reward := (price - short_tp2 price a)%num in
  if (risk > whole 0)%num then py_div reward risk else Ok (whole 0).

(** Lines 519 to 533: the SHORT block. *)
Definition short_decision (symbol : string) (price upper r a : F)
    (has_open_short : bool) (last : option Z) (close_time : Z)
  : result (option (signal F)) :=
  let short_cond := (price > upper)%num && (r > whole 70)%num in
  if short_cond && negb has_open_short then
    if negb (bool_decide (last = Some close_time)) then
      pct ← short_pct price a;
      if (pct >= MIN_SHORT_PCT)%num then
        rr ← short_rr price a;
        if (rr >= RR_MIN)%num then
          Ok (Some {| sig_symbol := symbol; sig_direction := "SHORT"; sig_price := price;
                      sig_sl := short_sl price a; sig_tp1 := short_tp1 price a;
                      sig_tp2 := short_tp2 price a; sig_rr := rr;
                      sig_close_time := close_time |})
        else Ok None
      else Ok None
    else Ok None
  else Ok None.

(** [long_signal] and [short_signal]: the panel, the new row of the
    ledger and its id in the set of this cycle's positions. *)
Definition emit_signal (s : signal F) (st : bot_state F) : bot_state F :=
  let signal_time_str := human_time_ms (sig_close_time s) in
  let '(file, pos_id) :=
    add_position (sig_symbol s) (sig_direction s) (sig_price s) (sig_sl s) (sig_tp1 s)
                 (sig_tp2 s) signal_time_str (sig_rr s) (positions_file st) in
  {| positions_file := file;
     last_alert_candle := last_alert_candle st;
     stats := stats st;
     new_positions_this_cycle := {[pos_id]} ∪ new_positions_this_cycle st;
     notifications := notifications st ++ [s] |}.

Definition count_long (c : counters) : counters :=
  {| n_long := n_long c + 1; n_short := n_short c; n_cycles := n_cycles c |}.

Definition count_short (c : counters) : counters :=
  {| n_long := n_long c; n_short := n_short c + 1; n_cycles := n_cycles c |}.

Definition count_cycle (c : counters) : counters :=
  {| n_long := n_long c; n_short := n_short c; n_cycles := n_cycles c + 1 |}.

(** The three statements run when a decision is a signal: the call of
    [long_signal] or [short_signal], the counter and the alert
    memory. *)
Definition fire (s : signal F) (st : bot_state F) : bot_state F :=
  let st1 := emit_signal s st in
  {| positions_file := positions_file st1;
     last_alert_candle :=
       <[sig_symbol s +:+ "_" +:+ sig_direction s := sig_close_time s]> (last_alert_candle st1);
     stats := if String.eqb (sig_direction s) "LONG" then count_long (stats st1)
              else count_short (stats st1);
     new_positions_this_cycle := new_positions_this_cycle st1;
     notifications := notifications st1 |}.

Definition fire_if (d : option (signal F)) (st : bot_state F) : bot_state F :=
  match d with
  | Some s => fire s st
  | None => st
  end.

Definition has_open (open_positions : list (position F)) (sym dir : string) : bool :=
  existsb (fun row => String.eqb (symbol row) sym && String.eqb (direction row) dir
                      && is_open (status row)) open_positions.

End Ledger.

(** ** The position ledger *)

Section UpdatePositions.

Context {F : Type} `{Number F}.

Definition set_stopped (now_str : string) (row : position F) : position F :=
  {| pos_id := pos_id row; symbol := symbol row; direction := direction row;
     entry := entry row; sl := sl row; tp1 := tp1 row; tp2 := tp2 row;
     signal_time := signal_time row; rr := rr row;
     status := "STOPPED";
     tp1_hit_time := tp1_hit_time row;
     tp2_hit_time := tp2_hit_time row;
     sl_hit_time := now_str |}.

Definition set_closed_tp2 (now_str : string) (row : position F) : position F :=
  {| pos_id := pos_id row; symbol := symbol row; direction := direction row;
     entry := entry row; sl := sl row; tp1 := tp1 row; tp2 := tp2 row;
     signal_time := signal_time row; rr := rr row;
     status := "CLOSED_TP2";
     tp1_hit_time := if String.eqb (tp1_hit_time row) "" then now_str else tp1_hit_time row;
     tp2_hit_time := now_str;
     sl_hit_time := sl_hit_time row |}.

Definition set_tp1_hit (now_str : string) (row : position F) : position F :=
  {| pos_id := pos_id row; symbol := symbol row; direction := direction row;
     entry := entry row; sl := sl row; tp1 := tp1 row; tp2 := tp2 row;
     signal_time := signal_time row; rr := rr row;
     status := "TP1_HIT";
     tp1_hit_time := now_str;
     tp2_hit_time := tp2_hit_time row;
     sl_hit_time := sl_hit_time row |}.

(** The body of the loop of [update_positions] for one row: the row
    as the loop leaves it, and whether the loop set [modified]. *)
Definition update_row (new_ids : gset string) (latest_ohlc : gmap string (F * F * F))
    (now_str : string) (row : position F) : position F * bool :=
  if bool_decide (pos_id row ∈ new_ids) then (row, false)
  else if negb (is_open (status row)) then (row, false)
  else
    match latest_ohlc !! symbol row with
    | None => (row, false)
    | Some (close_price, high_price, low_price) =>
        if String.eqb (direction row) "LONG" then
          if (low_price <= sl row)%num && String.eqb (sl_hit_time row) "" then
            (set_stopped now_str row, true)
          else if (high_price >= tp2 row)%num && String.eqb (tp2_hit_time row) "" then
            (set_closed_tp2 now_str row, true)
          else if (high_price >= tp1 row)%num && String.eqb (tp1_hit_time row) "" then
            (set_tp1_hit now_str row, true)
          else (row, false)
        else if String.eqb (direction row) "SHORT" then
          if (high_price >= sl row)%num && String.eqb (sl_hit_time row) "" then
            (set_stopped now_str row, true)
          else if (low_price <= tp2 row)%num && String.eqb (tp2_hit_time row) "" then
            (set_closed_tp2 now_str row, true)
          else if (low_price <= tp1 row)%num && String.eqb (tp1_hit_time row) "" then
            (set_tp1_hit now_str row, true)
          else (row, false)
        else (row, false)
    end.

(** [update_positions(latest_ohlc)], run at the local time [now_str]:
    the rows are loaded, each is passed through the loop body, the file
    is rewritten when a row changed, and the set of this cycle's
    positions is emptied. *)
Definition update_positions (latest_ohlc : gmap string (F * F * F)) (now_str : string)
    (st : bot_state F) : bot_state F :=
  let rows := positions_file st in
  let results := map (update_row (new_positions_this_cycle st) latest_ohlc now_str) rows in
  let modified := existsb snd results in
  {| positions_file := if modified then map fst results else positions_file st;
     last_alert_candle := last_alert_candle st;
     stats := stats st;
     new_positions_this_cycle := ∅;
     notifications := notifications st |}.

End UpdatePositions.

(** ** The scan loop *)

Section ScanLoop.

Context {F : Type} `{Number F}.
Variable stat : Statistics F.
Variable human_time_ms : Z → string.

(** The last bar of the series of a symbol. *)
Definition last_bar (k : klines F) : result (F * F * F * Z) :=
  price ← py_index (k_closes k) (-1);
  high_last ← py_index (k_highs k) (-1);
  low_last ← py_index (k_lows k) (-1);
  close_time ← py_index (k_times k) (-1);
  Ok (price, high_last, low_last, close_time).

(** The indicators of a symbol, with the default periods. *)
Definition indicators (k : klines F)
  : result (option F * option F * option F * option F) :=
  '(lower, mid, upper) ← bollinger stat (k_closes k) 20 (whole 2);
  r ← rsi (k_closes k) 14;
  a ← atr (k_highs k) (k_lows k) (k_closes k) 14;
  Ok (lower, upper, r, a).

(** The LONG and the SHORT block of the loop body, run on a state: an
    exception in a decision leaves the block, and the [except] clause
    of the loop body goes on with the next symbol. *)
Definition long_block (open_positions : list (position F)) (sym : string)
    (price lower r a : F) (close_time : Z) (st : bot_state F) : result (bot_state F) :=
  d ← long_decision sym price lower r a (has_open open_positions sym "LONG")
        (last_alert_candle st !! (sym +:+ "_LONG")) close_time;
  Ok (fire_if human_time_ms d st).

Definition short_block (open_positions : list (position F)) (sym : string)
    (price upper r a : F) (close_time : Z) (st : bot_state F) : result (bot_state F) :=
  d ← short_decision sym price upper r a (has_open open_positions sym "SHORT")
        (last_alert_candle st !! (sym +:+ "_SHORT")) close_time;
  Ok (fire_if human_time_ms d st).

(** The body of [for symbol in symbols] with its [try] and [except]:
    [fetched] is what [get_klines(symbol)] returned or raised. *)
Definition scan_symbol (open_positions : list (position F)) (sym : string)
    (fetched : result (klines F))
    (cs : bot_state F * gmap string (F * F * F)) : bot_state F * gmap string (F * F * F) :=
  let '(st, latest_ohlc) := cs in
  match fetched with
  | Raise _ => cs
  | Ok k =>
      match k_closes k with
      | [] => cs
      | _ =>
          match last_bar k with
          | Raise _ => cs
          | Ok (price, high_last, low_last, close_time) =>
              let latest_ohlc := <[sym := (price, high_last, low_last)]> latest_ohlc in
              match indicators k with
              | Ok (Some lower, Some upper, Some r, Some a) =>
                  match long_block open_positions sym price lower r a close_time st with
                  | Raise _ => (st, latest_ohlc)
                  | Ok st1 =>
                      match short_block open_positions sym price upper r a close_time st1 with
                      | Raise _ => (st1, latest_ohlc)
                      | Ok st2 => (st2, latest_ohlc)
                      end
                  end
              | _ => (st, latest_ohlc)
              end
          end
      end
  end.

Definition scan_symbols (open_positions : list (position F))
    (feed : list (string * result (klines F)))
    (cs : bot_state F * gmap string (F * F * F)) : bot_state F * gmap string (F * F * F) :=
  fold_left (fun cs sf => scan_symbol open_positions (fst sf) (snd sf) cs) feed cs.

Definition begin_cycle (st : bot_state F) : bot_state F :=
  {| positions_file := positions_file st;
     last_alert_candle := last_alert_candle st;
     stats := count_cycle (stats st);
     new_positions_this_cycle := new_positions_this_cycle st;
     notifications := notifications st |}.

(** One turn of [while True]: [feed] lists the symbols in scan order
    with what [get_klines] gives for each, and [now_str] is the local
    time at which [update_positions] runs. *)
Definition scan_cycle (feed : list (string * result (klines F))) (now_str : string)
    (st : bot_state F) : bot_state F :=
  let st0 := begin_cycle st in
  let open_positions := positions_file st0 in
  let '(st1, latest_ohlc) := scan_symbols open_positions feed (st0, ∅) in
  update_positions latest_ohlc now_str st1.

(** The state and the bars of a cycle when its scan is over and
    [update_positions] is about to run. *)
Definition cycle_scan (feed : list (string * result (klines F))) (st : bot_state F)
  : bot_state F * gmap string (F * F * F) :=
  scan_symbols (positions_file (begin_cycle st)) feed (begin_cycle st, ∅).

(** The process from its start: the ledger file as found on disk, empty
    dictionaries, and one cycle per element of [run]. *)
Definition initial_state (file : list (position F)) : bot_state F :=
  {| positions_file := file;
     last_alert_candle := ∅;
     stats := {| n_long := 0; n_short := 0; n_cycles := 0 |};
     new_positions_this_cycle := ∅;
     notifications := [] |}.

Definition run_cycles (run : list (list (string * result (klines F)) * string))
    (st : bot_state F) : bot_state F :=
  fold_left (fun st c => scan_cycle (fst c) (snd c) st) run st.

End ScanLoop.

(** ** Vocabulary of the specification *)

Section Vocabulary.

Context {F : Type} `{Number F}.

(** The element [l[i]] of a list at an index inside it. *)
Definition item (l : list F) (i : Z) : F :=
  match py_index l i with
  | Ok x => x
  | Raise _ => whole 0
  end.

(** The last [period] changes of a series of closes, oldest first, and
    the gain and the loss of a change. *)
Definition change_at (closes : list F) (period i : Z) : F :=
  (item closes (- (period + 1) + i) - item closes (- (period + 2) + i))%num.

Definition rsi_changes (closes : list F) (period : Z) : list F :=
  map (change_at closes period) (py_range 1 (period + 1)).

(** The last [period + 1] closes rise strictly. *)
Definition rising (closes : list F) (period : Z) : Prop :=
  ∀ i, 1 <= i <= period →
    (item closes (- (period + 2) + i) < item closes (- (period + 1) + i))%num = true.

Definition gain (change : F) : F := py_max change (whole 0).

Definition loss (change : F) : F := py_max (- change)%num (whole 0).

(** The true range of the bar at the index [i], and the true ranges of
    the last [period] bars. *)
Definition true_range (highs lows closes : list F) (i : Z) : F :=
  py_max3 (item highs i - item lows i)%num
          (num_abs (item highs i - item closes (i - 1))%num)
          (num_abs (item lows i - item closes (i - 1))%num).

Definition true_ranges (highs lows closes : list F) (period : Z) : list F :=
  map (true_range highs lows closes) (py_range (- period) 0).

(** A Python list has fewer than [2^63] elements. *)
Definition list_sized {A : Type} (l : list A) : Prop := len l < 2 ^ 63.

Definition terminal (row : position F) : Prop :=
  status row = "STOPPED" ∨ status row = "CLOSED_TP2".

(** No stop and no second target is recorded on a position that is
    still open: the data model's reading of "non-terminal". *)
Definition consistent (row : position F) : Prop :=
  is_open (status row) = true → sl_hit_time row = "" ∧ tp2_hit_time row = "".

Definition non_terminal (row : position F) : Prop :=
  is_open (status row) = true ∧ consistent row.

(** A signal that a scan may fire in the state [st]: its side has no
    open position for the symbol at the start of the cycle, and its bar
    is not the last one alerted for the symbol and side. *)
Definition fireable (open_positions : list (position F)) (st : bot_state F)
    (s : signal F) : Prop :=
  is_side (sig_direction s)
  ∧ has_open open_positions (sig_symbol s) (sig_direction s) = false
  ∧ last_alert_candle st !! (sig_symbol s +:+ "_" +:+ sig_direction s)
    ≠ Some (sig_close_time s).

Variable human_time_ms : Z → string.

(** The states a scan goes through: it fires a list of signals. *)
Inductive fires (open_positions : list (position F))
  : bot_state F → list (signal F) → bot_state F → Prop :=
| fires_nil st : fires open_positions st [] st
| fires_cons st s sigs st' :
    fireable open_positions st s →
    fires open_positions (fire human_time_ms s st) sigs st' →
    fires open_positions st (s :: sigs) st'.

(** The ledger row of a signal. *)
Definition row_of_signal (s : signal F) : position F :=
  new_row (sig_symbol s) (sig_direction s) (sig_price s) (sig_sl s) (sig_tp1 s)
          (sig_tp2 s) (human_time_ms (sig_close_time s)) (sig_rr s).

(** A row has the identity the program gives to the rows it writes. *)
Definition made_by_bot (row : position F) : Prop :=
  is_side (direction row)
  ∧ ∃ t, pos_id row = make_id (symbol row) (direction row) (human_time_ms t).

Definition matches (sym dir : string) (s : signal F) : bool :=
  String.eqb (sig_symbol s) sym && String.eqb (sig_direction s) dir.

(** The bar of the last signal of a log for a symbol and side. *)
Definition last_time (log : list (signal F)) (sym dir : string) : option Z :=
  fold_left (fun acc s => if matches sym dir s then Some (sig_close_time s) else acc)
            log None.

(** Two signals for one symbol, side and bar. *)
Definition same_bar (s1 s2 : signal F) : Prop :=
  sig_symbol s1 = sig_symbol s2 ∧ sig_direction s1 = sig_direction s2
  ∧ sig_close_time s1 = sig_close_time s2.

(** A log in which every signal is for a bar other than the last one
    alerted before it for its symbol and side. *)
Inductive alerted : list (signal F) → Prop :=
| alerted_nil : alerted []
| alerted_snoc log s :
    alerted log →
    last_time log (sig_symbol s) (sig_direction s) ≠ Some (sig_close_time s) →
    alerted (log ++ [s]).

(** The alert memory holds, for every symbol and side, the bar of the
    last signal of the log. *)
Definition memory_follows_log (st : bot_state F) : Prop :=
  ∀ sym dir, is_side dir →
    last_alert_candle st !! (sym +:+ "_" +:+ dir) = last_time (notifications st) sym dir.

(** No bar is alerted twice for a symbol and side. *)
Definition never_twice_for_a_bar (log : list (signal F)) : Prop :=
  ∀ l1 s1 l2 s2 l3, log = l1 ++ s1 :: l2 ++ s2 :: l3 → ¬ same_bar s1 s2.

End Vocabulary.

(** ** Sample data *)

(** A clock for the examples: the time of a timestamp in UTC, in the
    format [%Y-%m-%d %H:%M:%S] of [human_time_ms], the year written
    with its last four digits. *)
Module Clock.

Definition digit (n : Z) : ascii := ascii_of_nat (48 + Z.to_nat (n mod 10)).

Definition civil_from_days (days : Z) : Z * Z * Z :=
  let z := days + 719468 in
  let era := z / 146097 in
  let doe := z - era * 146097 in
  let yoe := (doe - doe / 1460 + doe / 36524 - doe / 146096) / 365 in
  let doy := doe - (365 * yoe + yoe / 4 - yoe / 100) in
  let mp := (5 * doy + 2) / 153 in
  let d := doy - (153 * mp + 2) / 5 + 1 in
  let m := if mp <? 10 then mp + 3 else mp - 9 in
  let y := yoe + era * 400 + (if m <=? 2 then 1 else 0) in
  (y, m, d).

Definition utc (ms : Z) : string :=
  let secs := ms / 1000 in
  let '(y, m, d) := civil_from_days (secs / 86400) in
  let t := secs mod 86400 in
  let hh := t / 3600 in
  let mm := t / 60 mod 60 in
  let ss := t mod 60 in
  String (digit (y / 1000)) (String (digit (y / 100)) (String (digit (y / 10))
  (String (digit y) (String "-" (String (digit (m / 10)) (String (digit m)
  (String "-" (String (digit (d / 10)) (String (digit d) (String " "
  (String (digit (hh / 10)) (String (digit hh) (String ":"
  (String (digit (mm / 10)) (String (digit mm) (String ":"
  (String (digit (ss / 10)) (String (digit ss) EmptyString)))))))))))))))))).

End Clock.

Module Sample.

Local Open Scope float_scope.

(** Bars around a series of closes: each high two above and each low
    two below its close, a quarter of an hour apart, the last one at
    the time [t]. *)
Definition bars (closes : list float) (t : Z) : klines float :=
  {| k_highs := map (fun c => c + 2) closes;
     k_lows := map (fun c => c - 2) closes;
     k_closes := closes;
     k_times := map (fun k => (t - 900000 * (len closes - 1 - Z.of_nat k))%Z)
                    (seq 0 (length closes)) |}.

Definition t1 : Z := 1700000100000.
Definition t2 : Z := 1700001000000.

(** Twenty closes at 100 and a fall to 90, and the next bar at 80. *)
Definition fall : klines float := bars (repeat 100 20 ++ [90]) t1.

Definition fall_further : klines float := bars (repeat 100 19 ++ [90; 80]) t2.

(** A lone bar down to 60, too short a series for the indicators. *)
Definition crash (t : Z) : klines float :=
  {| k_highs := [70]; k_lows := [60]; k_closes := [70]; k_times := [t] |}.

(** Five cycles on one symbol: a signal on the bar [t1], its stop, a
    signal on the bar [t2], its stop, and the series of the bar [t1]
    once more. *)
Definition five_cycles : list (list (string * result (klines float)) * string) :=
  [ ([("XYZ_USDT", Ok fall)], "2023-11-14 22:15:10");
    ([("XYZ_USDT", Ok (crash t1))], "2023-11-14 22:15:20");
    ([("XYZ_USDT", Ok fall_further)], "2023-11-14 22:30:10");
    ([("XYZ_USDT", Ok (crash t2))], "2023-11-14 22:30:20");
    ([("XYZ_USDT", Ok fall)], "2023-11-14 22:30:30") ].

(** The position of the scenario of the specification: a LONG at 100
    with an average true range of 2. *)
Definition open_long : position float :=
  {| pos_id := "XYZ_USDT_LONG_2023-11-14_22:15:00";
     symbol := "XYZ_USDT"; direction := "LONG";
     entry := 100; sl := 97.6; tp1 := 101.8; tp2 := 103.6;
     signal_time := "2023-11-14 22:15:00"; rr := 1.5;
     status := "PENDING";
     tp1_hit_time := ""; tp2_hit_time := ""; sl_hit_time := "" |}.

Definition stopped_long : position float := set_stopped "2023-11-14 22:30:20" open_long.

Definition ledger_of (rows : list (position float)) : bot_state float :=
  initial_state rows.

(** Closes that alternate between 1.45 and 1.95. *)
Definition zigzag : list float := concat (repeat [1.45; 1.95] 10).

(** Fifteen closes that rise by one. *)
Definition climb : list float := map (fun k => 100 + B64.of_Z (Z.of_nat k)) (seq 0 15).

End Sample.

From Stdlib Require OrderedTypeEx Permutation.
From Stdlib Require Import Sorted.

(** ** Vocabulary of the ledger's invariants *)

Section LedgerVocabulary.

Context {F : Type}.

(** How far a position has come: pending, first target hit, closed. *)
Definition status_rank (st : string) : nat :=
  if String.eqb st "PENDING" then 0 else if String.eqb st "TP1_HIT" then 1 else 2.

(** The cells of a row that [add_position] writes and no later
    statement assigns. *)
Definition same_position (row row' : position F) : Prop :=
  pos_id row' = pos_id row ∧ symbol row' = symbol row ∧ direction row' = direction row
  ∧ entry row' = entry row ∧ sl row' = sl row ∧ tp1 row' = tp1 row ∧ tp2 row' = tp2 row
  ∧ signal_time row' = signal_time row ∧ rr row' = rr row.

(** The times a row records agree with its status. *)
Definition well_timed (row : position F) : Prop :=
  (status row = "PENDING"
   ∧ tp1_hit_time row = "" ∧ tp2_hit_time row = "" ∧ sl_hit_time row = "")
  ∨ (status row = "TP1_HIT"
     ∧ tp1_hit_time row ≠ "" ∧ tp2_hit_time row = "" ∧ sl_hit_time row = "")
  ∨ (status row = "STOPPED" ∧ sl_hit_time row ≠ "" ∧ tp2_hit_time row = "")
  ∨ (status row = "CLOSED_TP2"
     ∧ tp1_hit_time row ≠ "" ∧ tp2_hit_time row ≠ "" ∧ sl_hit_time row = "").

(** The number of signals of a side in a log. *)
Definition count_side (dir : string) (log : list (signal F)) : Z :=
  len (List.filter (fun s => String.eqb (sig_direction s) dir) log).

(** The counters agree with the log. *)
Definition counted (st : bot_state F) : Prop :=
  n_long (stats st) = count_side "LONG" (notifications st)
  ∧ n_short (stats st) = count_side "SHORT" (notifications st).

(** A row is an open position of a symbol and side, and the number of
    such rows in a ledger. *)
Definition open_for (sym dir : string) (row : position F) : bool :=
  String.eqb (symbol row) sym && String.eqb (direction row) dir && is_open (status row).

Definition count_open (sym dir : string) (file : list (position F)) : nat :=
  length (List.filter (open_for sym dir) file).

(** No symbol has two open positions on one side. *)
Definition one_open_each (file : list (position F)) : Prop :=
  ∀ sym dir, (count_open sym dir file ≤ 1)%nat.

End LedgerVocabulary.

(** ** The exchange interface

    The functions that talk to the exchange, from the answer of the
    HTTP request on.  The fields of an answer are typed as the
    exchange sends them: symbols and coins are strings, states are
    integers, prices and volumes are numbers, times are integers; a
    field that is absent or null is [None]. *)

(** [l[:stop]] *)
Definition py_slice_to {A : Type} (l : list A) (stop : Z) : list A :=
  let e := if stop <? 0 then Z.max (stop + len l) 0 else Z.min stop (len l) in
  take (Z.to_nat e) l.

(** [d.get(key, default)] on a dictionary written as a literal. *)
Fixpoint dict_get {A : Type} (d : list (string * A)) (key : string) (default : A) : A :=
  match d with
  | [] => default
  | (k, v) :: d' => if String.eqb k key then v else dict_get d' key default
  end.

Definition INTERVAL : string := "15m".
Definition LOOKBACK : Z := 200.
Definition TOP_N_VOLUME : Z := 100.

Definition interval_names : list (string * string) :=
  [ ("1m", "Min1"); ("5m", "Min5"); ("15m", "Min15"); ("30m", "Min30"); ("60m", "Min60");
    ("1h", "Min60"); ("4h", "Hour4"); ("1d", "Day1"); ("1D", "Day1") ].

Definition mexc_interval (interval_str : string) : string :=
  dict_get interval_names interval_str "Min15".

(** An entry of the contract list. *)
Record contract : Type := {
  c_symbol : option string;
  c_quoteCoin : option string;
  c_settleCoin : option string;
  c_state : option Z;
}.

(** [sorted(set(l))] on strings: the elements of [l] in increasing
    order, each once. *)
Fixpoint insert_sorted (x : string) (l : list string) : list string :=
  match l with
  | [] => [x]
  | y :: l' =>
      match String.compare x y with
      | Lt => x :: l
      | Eq => l
      | Gt => y :: insert_sorted x l'
      end
  end.

Definition sorted_set (l : list string) : list string := fold_right insert_sorted [] l.

(** The body of the loop of [get_all_usdt_contracts]: the symbol it
    appends for an entry, if any. *)
Definition usdt_symbol (c : contract) : option string :=
  if negb (bool_decide (c_quoteCoin c = Some "USDT")) then None
  else if negb (bool_decide (c_settleCoin c = Some "USDT")) then None
  else if negb (bool_decide (c_state c = Some 0) || bool_decide (c_state c = None)) then None
  else match c_symbol c with
       | None => None
       | Some sym => if String.eqb sym "" then None else Some sym
       end.

Definition get_all_usdt_contracts (data : list contract) : list string :=
  sorted_set (omap usdt_symbol data).

Section Exchange.

Context {F : Type} `{Number F}.

(** An entry of the ticker list. *)
Record ticker : Type := {
  t_symbol : option string;
  t_volume24 : option F;
  t_amount24 : option F;
  t_turnover24h : option F;
}.

(** [x or y] on a number that may be absent: [None] and zero are
    false. *)
Definition truthy (x : option F) : bool :=
  match x with
  | None => false
  | Some v => negb (v == whole 0)%num
  end.

(** [float(vol_raw)], with [vol_raw] the first of the three volumes
    that is true, or [0]. *)
Definition volume_of (item : ticker) : F :=
  let vol_raw :=
    if truthy (t_volume24 item) then t_volume24 item
    else if truthy (t_amount24 item) then t_amount24 item
    else if truthy (t_turnover24h item) then t_turnover24h item
    else None in
  match vol_raw with
  | Some v => v
  | None => whole 0
  end.

(** [vols.sort(key=lambda x: x[1], reverse=True)]: a stable sort by
    decreasing volume, which compares with [<] only. *)
Fixpoint insert_by_volume (x : string * F) (l : list (string * F)) : list (string * F) :=
  match l with
  | [] => [x]
  | y :: l' => if (snd x < snd y)%num then y :: insert_by_volume x l' else x :: l
  end.

Definition sort_by_volume (l : list (string * F)) : list (string * F) :=
  fold_right insert_by_volume [] l.

(** The loop of [get_top_volume_contracts]. *)
Definition volumes (allowed_symbols : list string) (data : list ticker)
  : list (string * F) :=
  omap (fun item =>
          match t_symbol item with
          | Some sym =>
              if existsb (String.eqb sym) allowed_symbols then Some (sym, volume_of item)
              else None
          | None => None
          end) data.

Definition get_top_volume_contracts (allowed_symbols : list string) (data : list ticker)
    (top_n : Z) : list string :=
  map fst (py_slice_to (sort_by_volume (volumes allowed_symbols data)) top_n).

(** Lines 447 to 453 of [main]: the symbols to scan, given the
    contracts and what the ticker request gave or raised. *)
Definition scanned_symbols (all_symbols : list string) (tickers : result (list ticker))
  : list string :=
  let top_symbols :=
    match tickers with
    | Ok data => get_top_volume_contracts all_symbols data TOP_N_VOLUME
    | Raise _ => all_symbols
    end in
  match top_symbols with
  | [] => all_symbols
  | _ => top_symbols
  end.

(** Lines 207 to 220 of [get_klines]: the series of the answer, cut to
    the last [LOOKBACK] bars, with the times in milliseconds. *)
Definition klines_of (times : list Z) (closes highs lows : list F) : klines F :=
  let n := Z.min LOOKBACK (len closes) in
  {| k_highs := py_slice_from highs (- n);
     k_lows := py_slice_from lows (- n);
     k_closes := py_slice_from closes (- n);
     k_times := py_slice_from (map (fun t => t * 1000) times) (- n) |}.

(** The series as the exchange sent them, without the cut. *)
Definition klines_sent (times : list Z) (closes highs lows : list F) : klines F :=
  {| k_highs := highs; k_lows := lows; k_closes := closes;
     k_times := map (fun t => t * 1000) times |}.

End Exchange.

Arguments ticker F : clear implicits.

(** * Proofs *)

(** ** The ledger pass *)

Section LedgerFacts.

Context {F : Type} `{Number F}.
Variable stat : Statistics F.
Variable human_time_ms : Z → string.

Lemma terminal_not_open (row : position F) : terminal row → is_open (status row) = false.
Proof. intros [-> | ->]; reflexivity. Qed.

Lemma update_row_terminal new_ids ohlc now (row : position F) :
  terminal row → update_row new_ids ohlc now row = (row, false).
Proof.
  intros Ht. unfold update_row.
  rewrite (terminal_not_open row Ht). simpl.
  destruct (bool_decide _); reflexivity.
Qed.

Ltac split_update_row :=
  unfold update_row;
  repeat (match goal with
          | |- context [if ?b then _ else _] => destruct b eqn:?
          | |- context [match ?o with Some _ => _ | None => _ end] =>
              destruct o as [[[? ?] ?]|] eqn:?
          end; simpl).

Lemma update_row_unmodified new_ids ohlc now (row : position F) :
  snd (update_row new_ids ohlc now row) = false →
  fst (update_row new_ids ohlc now row) = row.
Proof. split_update_row; intros; try discriminate; reflexivity. Qed.

Lemma update_row_grace new_ids ohlc now (row : position F) :
  pos_id row ∈ new_ids → update_row new_ids ohlc now row = (row, false).
Proof.
  intros Hin. unfold update_row. rewrite (bool_decide_eq_true_2 _ Hin). reflexivity.
Qed.

(** The pass never touches the identity of a row, and it keeps a first
    target that is already recorded. *)
Lemma update_row_keeps new_ids ohlc now (row : position F) :
  let row' := fst (update_row new_ids ohlc now row) in
  pos_id row' = pos_id row ∧ symbol row' = symbol row ∧ direction row' = direction row
  ∧ (tp1_hit_time row ≠ "" → tp1_hit_time row' = tp1_hit_time row).
Proof.
  split_update_row; repeat split; try reflexivity; intros Hne;
    repeat match goal with
           | Hb : (_ && _)%bool = true |- _ => apply andb_true_iff in Hb; destruct Hb
           | Hs : String.eqb _ _ = true |- _ => apply String.eqb_eq in Hs
           | Hs : String.eqb _ _ = false |- _ => apply String.eqb_neq in Hs
           end; try congruence; try contradiction.
Qed.

Lemma update_row_consistent new_ids ohlc now (row : position F) :
  consistent row → consistent (fst (update_row new_ids ohlc now row)).
Proof.
  unfold consistent. split_update_row; intros Hc Ho; try (apply Hc; assumption);
    try discriminate Ho.
  all: simpl in *; apply Hc.
  all: repeat match goal with
           | Hb : negb _ = false |- _ => apply negb_false_iff in Hb
           end; assumption.
Qed.

Lemma map_lookup_list {A B : Type} (f : A → B) (l : list A) (i : nat) :
  map f l !! i = f <$> (l !! i).
Proof.
  revert i. induction l as [|a l IH]; intros [|i]; simpl; try reflexivity. apply IH.
Qed.

Lemma existsb_snd_false {A : Type} (f : A → A * bool) (l : list A) :
  (∀ a, snd (f a) = false → fst (f a) = a) →
  existsb snd (map f l) = false → map fst (map f l) = l.
Proof.
  intros Hf. induction l as [|a l IH]; simpl; intros He.
  - reflexivity.
  - apply orb_false_iff in He as [Ha Hl]. rewrite (Hf a Ha), (IH Hl). reflexivity.
Qed.

Lemma update_positions_file ohlc now (st : bot_state F) :
  positions_file (update_positions ohlc now st)
  = map (fun row => fst (update_row (new_positions_this_cycle st) ohlc now row))
        (positions_file st).
Proof.
  unfold update_positions. simpl.
  destruct (existsb snd _) eqn:He.
  - apply map_map.
  - rewrite <- map_map. symmetry.
    apply existsb_snd_false; [apply update_row_unmodified | exact He].
Qed.

Lemma update_positions_lookup ohlc now (st : bot_state F) (i : nat) :
  positions_file (update_positions ohlc now st) !! i
  = (fun row => fst (update_row (new_positions_this_cycle st) ohlc now row))
      <$> (positions_file st !! i).
Proof. rewrite update_positions_file. apply map_lookup_list. Qed.

End LedgerFacts.

(** ** The scan of one symbol *)

Lemma string_length_app (a b : string) :
  String.length (a +:+ b) = (String.length a + String.length b)%nat.
Proof.
  induction a as [|x a IH]; [reflexivity |].
  change (S (String.length (a +:+ b)) = S (String.length a + String.length b)).
  rewrite IH. reflexivity.
Qed.

(** Two strings that end in suffixes of one length agree part by part. *)
Lemma string_app_inj_suffix (a b c d : string) :
  String.length c = String.length d → a +:+ c = b +:+ d → a = b ∧ c = d.
Proof.
  revert b. induction a as [|x a IH]; intros [|y b] Hlen Heq.
  - split; [reflexivity | exact Heq].
  - apply (f_equal String.length) in Heq.
    rewrite !string_length_app in Heq. simpl in Heq. lia.
  - apply (f_equal String.length) in Heq.
    rewrite !string_length_app in Heq. simpl in Heq. lia.
  - simpl in Heq. injection Heq as -> Heq. destruct (IH b Hlen Heq) as [-> ->]. split; reflexivity.
Qed.

Lemma replace_space_length (s : string) :
  String.length (replace_space s) = String.length s.
Proof.
  unfold replace_space. induction s as [|c s IH]; simpl; [reflexivity | rewrite IH; reflexivity].
Qed.

Lemma string_app_assoc (a b c : string) : (a +:+ b) +:+ c = a +:+ b +:+ c.
Proof.
  induction a as [|x a IH]; [reflexivity |].
  change (String x ((a +:+ b) +:+ c) = String x (a +:+ b +:+ c)). rewrite IH. reflexivity.
Qed.

Lemma side_suffix_neq (a b : string) : a +:+ "_LONG" ≠ b +:+ "_SHORT".
Proof.
  intros Heq. change "_SHORT" with ("_" +:+ "SHORT") in Heq.
  rewrite <- string_app_assoc in Heq.
  apply string_app_inj_suffix in Heq as [_ Hd]; [discriminate | reflexivity].
Qed.

(** The key of the alert memory determines the symbol and the side. *)
Lemma alert_key_inj (sym sym' dir dir' : string) :
  is_side dir → is_side dir' →
  sym +:+ "_" +:+ dir = sym' +:+ "_" +:+ dir' → sym = sym' ∧ dir = dir'.
Proof.
  intros [-> | ->] [-> | ->] Heq.
  - apply string_app_inj_suffix in Heq as [-> _]; [split|]; reflexivity.
  - exfalso. exact (side_suffix_neq _ _ Heq).
  - exfalso. symmetry in Heq. exact (side_suffix_neq _ _ Heq).
  - apply string_app_inj_suffix in Heq as [-> _]; [split|]; reflexivity.
Qed.

Section ScanFacts.

Context {F : Type} `{Number F}.
Variable stat : Statistics F.
Variable human_time_ms : Z → string.

Local Abbreviation fires := (fires human_time_ms).
Local Abbreviation row_of_signal := (row_of_signal human_time_ms).
Local Abbreviation made_by_bot := (made_by_bot human_time_ms).

(** What a LONG decision that fires says about its inputs. *)
Lemma long_decision_fires sym (price lower r a : F) ho last ct s :
  long_decision sym price lower r a ho last ct = Ok (Some s) →
  sig_symbol s = sym ∧ sig_direction s = "LONG" ∧ sig_close_time s = ct
  ∧ ho = false ∧ last ≠ Some ct.
Proof.
  unfold long_decision. intros Hd.
  destruct (_ && negb ho) eqn:Hc; [|discriminate].
  apply andb_true_iff in Hc as [_ Hho]. apply negb_true_iff in Hho.
  destruct (negb (bool_decide (last = Some ct))) eqn:Hl; [|discriminate].
  apply negb_true_iff, bool_decide_eq_false in Hl.
  destruct (long_pct price a) as [pct|]; simpl in Hd; [|discriminate].
  destruct (num_leb _ pct); [|discriminate].
  destruct (long_rr price a) as [rr0|]; simpl in Hd; [|discriminate].
  destruct (num_leb _ rr0); [|discriminate].
  injection Hd as <-. simpl. auto.
Qed.

Lemma short_decision_fires sym (price upper r a : F) ho last ct s :
  short_decision sym price upper r a ho last ct = Ok (Some s) →
  sig_symbol s = sym ∧ sig_direction s = "SHORT" ∧ sig_close_time s = ct
  ∧ ho = false ∧ last ≠ Some ct.
Proof.
  unfold short_decision. intros Hd.
  destruct (_ && negb ho) eqn:Hc; [|discriminate].
  apply andb_true_iff in Hc as [_ Hho]. apply negb_true_iff in Hho.
  destruct (negb (bool_decide (last = Some ct))) eqn:Hl; [|discriminate].
  apply negb_true_iff, bool_decide_eq_false in Hl.
  destruct (short_pct price a) as [pct|]; simpl in Hd; [|discriminate].
  destruct (num_leb _ pct); [|discriminate].
  destruct (short_rr price a) as [rr0|]; simpl in Hd; [|discriminate].
  destruct (num_leb _ rr0); [|discriminate].
  injection Hd as <-. simpl. auto.
Qed.

Lemma fires_app ops (st1 st2 st3 : bot_state F) l1 l2 :
  fires ops st1 l1 st2 → fires ops st2 l2 st3 → fires ops st1 (l1 ++ l2) st3.
Proof.
  induction 1 as [st|st s sigs st' Hf Hfs IH]; intros H23; simpl.
  - exact H23.
  - apply fires_cons; [exact Hf | apply IH; exact H23].
Qed.

Lemma fires_one ops (st : bot_state F) s :
  fireable ops st s → fires ops st [s] (fire human_time_ms s st).
Proof. intros Hf. apply fires_cons; [exact Hf | apply fires_nil]. Qed.

(** The scan of a symbol fires at most a LONG and then at most a SHORT
    signal, and does nothing else to the state. *)
Lemma scan_symbol_fires ops sym fetched (st : bot_state F) ohlc :
  ∃ sigs, fires ops st sigs (fst (scan_symbol stat human_time_ms ops sym fetched (st, ohlc))).
Proof.
  assert (Hnone : ∃ sigs, fires ops st sigs st) by (exists []; apply fires_nil).
  unfold scan_symbol.
  destruct fetched as [k|]; [|exact Hnone].
  destruct (k_closes k); [exact Hnone|].
  destruct (last_bar k) as [[[[price high_last] low_last] close_time]|]; [|exact Hnone].
  destruct (indicators stat k) as [[[[[lower|] [upper|]] [r|]] [a|]]|]; try exact Hnone.
  unfold long_block, short_block.
  destruct (long_decision sym price lower r a _ _ close_time) as [d1|] eqn:Hd1;
    simpl; [|exact Hnone].
  assert (Hf1 : ∃ l1, fires ops st l1 (fire_if human_time_ms d1 st)).
  { destruct d1 as [s|]; [|exists []; apply fires_nil].
    apply long_decision_fires in Hd1 as (Hs & Hdir & Hct & Hho & Hl).
    exists [s]. apply fires_one. unfold fireable. rewrite Hs, Hdir, Hct.
    repeat split; try assumption. left; reflexivity. }
  destruct Hf1 as [l1 Hf1].
  destruct (short_decision sym price upper r a _ _ close_time) as [d2|] eqn:Hd2; simpl.
  - destruct d2 as [s|]; [|exists l1; exact Hf1].
    apply short_decision_fires in Hd2 as (Hs & Hdir & Hct & Hho & Hl).
    exists (l1 ++ [s]). eapply fires_app; [exact Hf1|]. apply fires_one.
    unfold fireable. rewrite Hs, Hdir, Hct. repeat split; try assumption.
    right; reflexivity.
  - exists l1. exact Hf1.
Qed.

Lemma scan_symbols_fires ops feed (st : bot_state F) ohlc :
  ∃ sigs, fires ops st sigs (fst (scan_symbols stat human_time_ms ops feed (st, ohlc))).
Proof.
  unfold scan_symbols. revert st ohlc.
  induction feed as [|[sym fetched] feed IH]; intros st ohlc; cbn [fold_left fst snd].
  - exists []. apply fires_nil.
  - destruct (scan_symbol_fires ops sym fetched st ohlc) as [l1 H1].
    destruct (scan_symbol stat human_time_ms ops sym fetched (st, ohlc)) as [st1 ohlc1] eqn:Hs.
    simpl in H1. destruct (IH st1 ohlc1) as [l2 H2].
    exists (l1 ++ l2). eapply fires_app; eassumption.
Qed.

(** What firing a list of signals does to the state. *)
Lemma fires_state ops (st st' : bot_state F) sigs :
  fires ops st sigs st' →
  positions_file st' = positions_file st ++ map row_of_signal sigs
  ∧ notifications st' = notifications st ++ sigs
  ∧ new_positions_this_cycle st'
    = list_to_set (map (fun s => pos_id (row_of_signal s)) sigs) ∪ new_positions_this_cycle st
  ∧ Forall (fun s => is_side (sig_direction s)
                     ∧ has_open ops (sig_symbol s) (sig_direction s) = false) sigs.
Proof.
  induction 1 as [st|st s sigs st' Hf Hfs IH]; simpl.
  - rewrite !app_nil_r. split; [reflexivity|]. split; [reflexivity|].
    split; [set_solver | constructor].
  - destruct IH as (Hp & Hn & Hnew & Hall). simpl in *.
    rewrite Hp, Hn, Hnew. rewrite <- !app_assoc. simpl.
    split; [reflexivity|]. split; [reflexivity|]. split; [set_solver |].
    constructor; [|exact Hall]. destruct Hf as (? & ? & ?). split; assumption.
Qed.

End ScanFacts.

(** ** A cycle *)

Section CycleFacts.

Context {F : Type} `{Number F}.
Variable stat : Statistics F.
Variable human_time_ms : Z → string.

Local Abbreviation fires := (fires human_time_ms).
Local Abbreviation row_of_signal := (row_of_signal human_time_ms).
Local Abbreviation made_by_bot := (made_by_bot human_time_ms).
Local Abbreviation cycle := (scan_cycle stat human_time_ms).
Local Abbreviation scanned := (cycle_scan stat human_time_ms).

Lemma scan_cycle_eq feed now (st : bot_state F) :
  cycle feed now st
  = update_positions (snd (scanned feed st)) now (fst (scanned feed st)).
Proof.
  unfold scan_cycle, cycle_scan.
  destruct (scan_symbols _ _ _ _ _) as [st1 ohlc]. reflexivity.
Qed.

Lemma cycle_scan_fires feed (st : bot_state F) :
  ∃ sigs, fires (positions_file st) (begin_cycle st) sigs (fst (scanned feed st)).
Proof. apply (scan_symbols_fires stat human_time_ms (positions_file st) feed). Qed.

(** The file when the scan of a cycle is over: the rows of the start
    of the cycle, then one fresh row per signal. *)
Lemma cycle_scan_file feed (st : bot_state F) :
  ∃ sigs,
    positions_file (fst (scanned feed st)) = positions_file st ++ map row_of_signal sigs
    ∧ notifications (fst (scanned feed st)) = notifications st ++ sigs
    ∧ new_positions_this_cycle (fst (scanned feed st))
      = list_to_set (map (fun s => pos_id (row_of_signal s)) sigs)
        ∪ new_positions_this_cycle st
    ∧ Forall (fun s => is_side (sig_direction s)
                ∧ has_open (positions_file st) (sig_symbol s) (sig_direction s) = false) sigs.
Proof.
  destruct (cycle_scan_fires feed st) as [sigs Hf]. exists sigs.
  apply (fires_state human_time_ms) in Hf. exact Hf.
Qed.

Lemma update_row_no_grace new_ids ohlc now (row : position F) :
  pos_id row ∉ new_ids → update_row new_ids ohlc now row = update_row ∅ ohlc now row.
Proof.
  intros Hn. unfold update_row.
  rewrite (bool_decide_eq_false_2 _ Hn).
  rewrite (bool_decide_eq_false_2 (pos_id row ∈ (∅ : gset string))); [reflexivity | set_solver].
Qed.

(** A row of the start of a cycle is at its place after the cycle, as
    the pass of the cycle left it. *)
Lemma scan_cycle_old_row feed now (st : bot_state F) i row :
  positions_file st !! i = Some row →
  positions_file (cycle feed now st) !! i
  = Some (fst (update_row (new_positions_this_cycle (fst (scanned feed st)))
                          (snd (scanned feed st)) now row)).
Proof.
  intros Hi. rewrite scan_cycle_eq, update_positions_lookup.
  destruct (cycle_scan_file feed st) as (sigs & Hp & _).
  rewrite Hp, (lookup_app_l_Some _ _ _ _ Hi). reflexivity.
Qed.

End CycleFacts.

(** ** The state machine of a position *)

Section StateMachine.

Context {F : Type} `{Number F}.
Variable stat : Statistics F.
Variable human_time_ms : Z → string.

(** Every row the program writes is consistent: a stop or a second
    target is recorded only together with a terminal status. *)
Lemma new_row_consistent sym dir (e s t1 t2 : F) time r :
  consistent (new_row sym dir e s t1 t2 time r).
Proof. intros _. split; reflexivity. Qed.

Lemma scan_cycle_consistent feed now (st : bot_state F) :
  Forall consistent (positions_file st) →
  Forall consistent (positions_file (scan_cycle stat human_time_ms feed now st)).
Proof.
  intros Hall. rewrite scan_cycle_eq, update_positions_file.
  destruct (cycle_scan_file stat human_time_ms feed st) as (sigs & Hp & _).
  rewrite Hp. apply List.Forall_forall. intros row' Hin.
  apply in_map_iff in Hin as (row & <- & Hin).
  apply update_row_consistent.
  apply in_app_iff in Hin as [Hin | Hin].
  - rewrite List.Forall_forall in Hall. apply Hall. exact Hin.
  - apply in_map_iff in Hin as (s & <- & _). apply new_row_consistent.
Qed.

Lemma run_cycles_consistent run (st : bot_state F) :
  Forall consistent (positions_file st) →
  Forall consistent (positions_file (run_cycles stat human_time_ms run st)).
Proof.
  unfold run_cycles. revert st. induction run as [|[feed now] run IH]; intros st Hall.
  - exact Hall.
  - cbn [fold_left fst snd]. apply IH. apply scan_cycle_consistent. exact Hall.
Qed.

(** C2.  In one pass of [update_positions], a LONG position that is
    evaluated and not terminal, and whose bar has [low <= sl] and
    [high >= tp2], becomes [STOPPED] with the time of the pass as its
    stop time; it does not become [CLOSED_TP2] and no target time is
    recorded.  For every evaluated open position the pass takes the
    first of the stop, the second target and the first target that
    applies, and makes that one transition only. *)
Theorem stop_precedes_targets (ohlc : gmap string (F * F * F)) (now : string)
    (st : bot_state F) (i : nat) (row : position F) (c h l : F) :
  positions_file st !! i = Some row →
  pos_id row ∉ new_positions_this_cycle st →
  non_terminal row →
  ohlc !! symbol row = Some (c, h, l) →
  (direction row = "LONG" → (l <= sl row)%num = true → (h >= tp2 row)%num = true →
     ∃ row', positions_file (update_positions ohlc now st) !! i = Some row'
       ∧ status row' = "STOPPED" ∧ sl_hit_time row' = now
       ∧ tp1_hit_time row' = tp1_hit_time row ∧ tp2_hit_time row' = tp2_hit_time row)
  ∧ (direction row = "LONG" →
     positions_file (update_positions ohlc now st) !! i
     = Some (if (l <= sl row)%num then set_stopped now row
             else if (h >= tp2 row)%num then set_closed_tp2 now row
             else if (h >= tp1 row)%num && String.eqb (tp1_hit_time row) ""
                  then set_tp1_hit now row
             else row))
  ∧ (direction row = "SHORT" →
     positions_file (update_positions ohlc now st) !! i
     = Some (if (h >= sl row)%num then set_stopped now row
             else if (l <= tp2 row)%num then set_closed_tp2 now row
             else if (l <= tp1 row)%num && String.eqb (tp1_hit_time row) ""
                  then set_tp1_hit now row
             else row)).
Proof.
  intros Hi Hgrace [Hopen Hcons] Hbar.
  destruct (Hcons Hopen) as [Hsl Htp2].
  assert (Hlong : direction row = "LONG" →
     positions_file (update_positions ohlc now st) !! i
     = Some (if (l <= sl row)%num then set_stopped now row
             else if (h >= tp2 row)%num then set_closed_tp2 now row
             else if (h >= tp1 row)%num && String.eqb (tp1_hit_time row) ""
                  then set_tp1_hit now row
             else row)).
  { intros Hdir. rewrite update_positions_lookup, Hi. simpl. f_equal.
    unfold update_row. rewrite (bool_decide_eq_false_2 _ Hgrace), Hopen, Hbar, Hdir, Hsl, Htp2.
    simpl. rewrite !andb_true_r.
    destruct (l <= sl row)%num; [reflexivity|].
    destruct (h >= tp2 row)%num; [reflexivity|].
    destruct (_ && _); reflexivity. }
  split; [|split; [exact Hlong|]].
  - intros Hdir Hl Hh. exists (set_stopped now row).
    rewrite (Hlong Hdir), Hl. repeat split; reflexivity.
  - intros Hdir. rewrite update_positions_lookup, Hi. simpl. f_equal.
    unfold update_row. rewrite (bool_decide_eq_false_2 _ Hgrace), Hopen, Hbar, Hdir, Hsl, Htp2.
    simpl. rewrite !andb_true_r.
    destruct (h >= sl row)%num; [reflexivity|].
    destruct (l <= tp2 row)%num; [reflexivity|].
    destruct ((l <= tp1 row)%num && _); reflexivity.
Qed.

(** C3.  A position whose status is [STOPPED] or [CLOSED_TP2] is left
    as it is, field by field, by every pass of [update_positions] on
    any bars and by every run of cycles; and a first-target time that
    is recorded stays as it is through every pass and every run. *)
Theorem terminal_positions_are_final
    (run : list (list (string * result (klines F)) * string))
    (st : bot_state F) (i : nat) (row : position F) :
  positions_file st !! i = Some row →
  (terminal row →
     (∀ ohlc now, positions_file (update_positions ohlc now st) !! i = Some row)
     ∧ positions_file (run_cycles stat human_time_ms run st) !! i = Some row)
  ∧ (tp1_hit_time row ≠ "" →
     (∀ ohlc now, ∃ row', positions_file (update_positions ohlc now st) !! i = Some row'
                          ∧ tp1_hit_time row' = tp1_hit_time row)
     ∧ ∃ row', positions_file (run_cycles stat human_time_ms run st) !! i = Some row'
               ∧ tp1_hit_time row' = tp1_hit_time row).
Proof.
  intros Hi. split.
  - intros Hterm. split.
    + intros ohlc now. rewrite update_positions_lookup, Hi. simpl.
      rewrite update_row_terminal by exact Hterm. reflexivity.
    + unfold run_cycles. revert st Hi.
      induction run as [|[feed now] run IH]; intros st Hi; [exact Hi|].
      cbn [fold_left fst snd]. apply IH.
      rewrite (scan_cycle_old_row stat human_time_ms feed now st i row Hi).
      rewrite update_row_terminal by exact Hterm. reflexivity.
  - intros Htp1. split.
    + intros ohlc now. rewrite update_positions_lookup, Hi. simpl.
      eexists. split; [reflexivity|].
      apply (update_row_keeps (new_positions_this_cycle st) ohlc now row). exact Htp1.
    + unfold run_cycles. revert st row Hi Htp1.
      induction run as [|[feed now] run IH]; intros st row Hi Htp1.
      * exists row. split; [exact Hi | reflexivity].
      * cbn [fold_left fst snd].
        pose proof (scan_cycle_old_row stat human_time_ms feed now st i row Hi) as Hnext.
        pose proof (update_row_keeps
                      (new_positions_this_cycle (fst (cycle_scan stat human_time_ms feed st)))
                      (snd (cycle_scan stat human_time_ms feed st)) now row) as (_ & _ & _ & Hk).
        specialize (Hk Htp1).
        destruct (IH _ _ Hnext) as (row' & Hrow' & Heq').
        { rewrite Hk. exact Htp1. }
        exists row'. split; [exact Hrow'|]. rewrite Heq'. exact Hk.
Qed.

End StateMachine.

(** ** The grace cycle *)

Section GraceCycle.

Context {F : Type} `{Number F}.
Variable stat : Statistics F.
Variable human_time_ms : Z → string.

(** The format of [human_time_ms] gives every time the same number of
    characters. *)
Hypothesis human_time_ms_length :
  ∀ t t', String.length (human_time_ms t) = String.length (human_time_ms t').

(** The id of a row determines its symbol and side. *)
Lemma make_id_inj sym sym' dir dir' t t' :
  is_side dir → is_side dir' →
  make_id sym dir (human_time_ms t) = make_id sym' dir' (human_time_ms t') →
  sym = sym' ∧ dir = dir'.
Proof.
  intros Hd Hd' Heq. unfold make_id in Heq.
  rewrite <- (string_app_assoc "_" dir), <- (string_app_assoc sym) in Heq.
  rewrite <- (string_app_assoc "_" dir'), <- (string_app_assoc sym') in Heq.
  apply string_app_inj_suffix in Heq as [Heq _].
  - apply alert_key_inj; assumption.
  - rewrite !string_length_app, !replace_space_length.
    rewrite (human_time_ms_length t t'). reflexivity.
Qed.

Lemma has_open_row (ops : list (position F)) i row :
  ops !! i = Some row → is_open (status row) = true →
  has_open ops (symbol row) (direction row) = true.
Proof.
  intros Hi Ho. unfold has_open. apply existsb_exists. exists row. split.
  - apply list_elem_of_In, list_elem_of_lookup. exists i. exact Hi.
  - rewrite !String.eqb_refl, Ho. reflexivity.
Qed.

Lemma update_row_closed new_ids ohlc now (row : position F) :
  is_open (status row) = false → update_row new_ids ohlc now row = (row, false).
Proof.
  intros Ho. unfold update_row. rewrite Ho. destruct (bool_decide _); reflexivity.
Qed.

Lemma scan_cycle_new_empty feed now (st : bot_state F) :
  new_positions_this_cycle (scan_cycle stat human_time_ms feed now st) = ∅.
Proof. rewrite scan_cycle_eq. reflexivity. Qed.

(** A row of the start of a cycle is evaluated by the pass of the
    cycle as if there were no grace set. *)
Lemma old_row_evaluated feed now (st : bot_state F) i row :
  new_positions_this_cycle st = ∅ →
  positions_file st !! i = Some row →
  made_by_bot human_time_ms row →
  positions_file (scan_cycle stat human_time_ms feed now st) !! i
  = Some (fst (update_row ∅ (snd (cycle_scan stat human_time_ms feed st)) now row)).
Proof.
  intros Hnew Hi [Hside [t Hid]].
  rewrite (scan_cycle_old_row stat human_time_ms feed now st i row Hi).
  destruct (is_open (status row)) eqn:Ho.
  - rewrite update_row_no_grace; [reflexivity|].
    destruct (cycle_scan_file stat human_time_ms feed st) as (sigs & _ & _ & Hn & Hall).
    rewrite Hn, Hnew. intros Hin.
    apply elem_of_union in Hin as [Hin | Hin]; [|set_solver].
    apply elem_of_list_to_set, list_elem_of_In, in_map_iff in Hin as (s & Hs & Hin).
    rewrite List.Forall_forall in Hall. destruct (Hall s Hin) as [Hside' Hno].
    simpl in Hs. rewrite Hid in Hs.
    apply make_id_inj in Hs as [Hsym Hdir]; [|assumption..].
    rewrite Hsym, Hdir, (has_open_row _ i row Hi Ho) in Hno. discriminate.
  - rewrite !update_row_closed by exact Ho. reflexivity.
Qed.

Lemma old_row_made_by_bot feed now (st : bot_state F) i row :
  positions_file st !! i = Some row → made_by_bot human_time_ms row →
  ∃ row', positions_file (scan_cycle stat human_time_ms feed now st) !! i = Some row'
          ∧ made_by_bot human_time_ms row'.
Proof.
  intros Hi [Hside [t Hid]].
  rewrite (scan_cycle_old_row stat human_time_ms feed now st i row Hi).
  eexists. split; [reflexivity|].
  pose proof (update_row_keeps
                (new_positions_this_cycle (fst (cycle_scan stat human_time_ms feed st)))
                (snd (cycle_scan stat human_time_ms feed st)) now row) as (Hk1 & Hk2 & Hk3 & _).
  unfold made_by_bot. rewrite Hk1, Hk2, Hk3. split; [exact Hside | exists t; exact Hid].
Qed.

Lemma run_cycles_made_by_bot run (st : bot_state F) i row :
  new_positions_this_cycle st = ∅ →
  positions_file st !! i = Some row → made_by_bot human_time_ms row →
  new_positions_this_cycle (run_cycles stat human_time_ms run st) = ∅
  ∧ ∃ row', positions_file (run_cycles stat human_time_ms run st) !! i = Some row'
            ∧ made_by_bot human_time_ms row'.
Proof.
  unfold run_cycles. revert st row.
  induction run as [|[feed now] run IH]; intros st row Hnew Hi Hm.
  - split; [exact Hnew | exists row; split; assumption].
  - cbn [fold_left fst snd].
    destruct (old_row_made_by_bot feed now st i row Hi Hm) as (row' & Hi' & Hm').
    apply (IH _ row'); [apply scan_cycle_new_empty | exact Hi' | exact Hm'].
Qed.


End GraceCycle.

(** ** One alert per bar *)

Section AlertMemory.

Context {F : Type} `{Number F}.
Variable stat : Statistics F.
Variable human_time_ms : Z → string.

Lemma matches_true sym dir (s : signal F) :
  matches sym dir s = true ↔ sig_symbol s = sym ∧ sig_direction s = dir.
Proof.
  unfold matches. rewrite andb_true_iff, !String.eqb_eq. reflexivity.
Qed.

Lemma last_time_snoc (log : list (signal F)) s sym dir :
  last_time (log ++ [s]) sym dir
  = if matches sym dir s then Some (sig_close_time s) else last_time log sym dir.
Proof. unfold last_time. rewrite fold_left_app. reflexivity. Qed.

(** After a signal for a symbol and side, the last bar alerted is its
    bar or the bar of a later signal for the symbol and side. *)
Lemma last_time_after (l1 l2 : list (signal F)) s1 sym dir :
  matches sym dir s1 = true →
  ∃ t, last_time (l1 ++ s1 :: l2) sym dir = Some t
       ∧ (t = sig_close_time s1
          ∨ ∃ s, In s l2 ∧ matches sym dir s = true ∧ sig_close_time s = t).
Proof.
  intros Hm. induction l2 as [|s l2 IH] using rev_ind.
  - exists (sig_close_time s1). split; [|left; reflexivity].
    change (l1 ++ [s1]) with (l1 ++ [s1]). rewrite last_time_snoc, Hm. reflexivity.
  - destruct IH as (t & Ht & Hor).
    change (l1 ++ s1 :: l2 ++ [s]) with (l1 ++ (s1 :: l2) ++ [s]).
    rewrite app_assoc, last_time_snoc.
    destruct (matches sym dir s) eqn:Hs.
    + exists (sig_close_time s). split; [reflexivity|]. right.
      exists s. split; [apply in_or_app; right; left; reflexivity | split; [exact Hs | reflexivity]].
    + exists t. split; [exact Ht|].
      destruct Hor as [-> | (s' & Hin & Hm' & Ht')]; [left; reflexivity|].
      right. exists s'. split; [apply in_or_app; left; exact Hin | split; assumption].
Qed.

Lemma snoc_split {A : Type} (log l rest : list A) (s x : A) :
  log ++ [s] = l ++ x :: rest →
  (rest = [] ∧ l = log ∧ x = s) ∨ ∃ rest', rest = rest' ++ [s] ∧ log = l ++ x :: rest'.
Proof.
  intros Heq. destruct rest as [|y rest] using rev_ind.
  - left. apply app_inj_tail in Heq as [-> ->]. auto.
  - right. exists rest.
    change (l ++ x :: rest ++ [y]) with (l ++ (x :: rest) ++ [y]) in Heq.
    rewrite app_assoc in Heq. apply app_inj_tail in Heq as [-> ->].
    split; reflexivity.
Qed.

(** In such a log a bar comes back for a symbol and side only after a
    signal for another bar. *)
Lemma alerted_no_repeat (log : list (signal F)) :
  alerted log →
  ∀ l1 s1 l2 s2 l3, log = l1 ++ s1 :: l2 ++ s2 :: l3 → same_bar s1 s2 →
    ∃ s, In s l2 ∧ sig_symbol s = sig_symbol s1 ∧ sig_direction s = sig_direction s1
         ∧ sig_close_time s ≠ sig_close_time s1.
Proof.
  induction 1 as [|log s Hal IH Hne]; intros l1 s1 l2 s2 l3 Heq Hsame.
  - destruct l1; discriminate.
  - change (l1 ++ s1 :: l2 ++ s2 :: l3) with (l1 ++ (s1 :: l2) ++ s2 :: l3) in Heq.
    rewrite app_assoc in Heq.
    apply snoc_split in Heq as [(E1 & E2 & E3) | (l3' & E1 & E2)]; subst.
    + destruct Hsame as (Hsym & Hdir & Hct).
      assert (Hm : matches (sig_symbol s) (sig_direction s) s1 = true).
      { apply matches_true. split; assumption. }
      destruct (last_time_after l1 l2 s1 _ _ Hm) as (t & Ht & Hor).
      simpl in Hne. rewrite Ht in Hne.
      destruct Hor as [-> | (s' & Hin & Hm' & <-)]; [congruence|].
      exists s'. apply matches_true in Hm' as [Hs Hd].
      repeat split; [exact Hin | congruence | congruence | congruence].
    + apply (IH l1 s1 l2 s2 l3'); [|exact Hsame].
      rewrite <- app_assoc. reflexivity.
Qed.

Lemma fire_keeps_memory ops (st : bot_state F) s :
  fireable ops st s → memory_follows_log st →
  memory_follows_log (fire human_time_ms s st)
  ∧ (alerted (notifications st) → alerted (notifications (fire human_time_ms s st))).
Proof.
  intros (Hside & _ & Hlast) Hmem. split.
  - intros sym dir Hd. simpl. rewrite last_time_snoc.
    destruct (matches sym dir s) eqn:Hm.
    + apply matches_true in Hm as [<- <-]. apply lookup_insert_eq.
    + rewrite lookup_insert_ne; [apply Hmem; exact Hd|].
      intros Hk. apply alert_key_inj in Hk as [Hs Hdir]; [|assumption..].
      assert (matches sym dir s = true) by (apply matches_true; split; assumption).
      congruence.
  - intros Hal. simpl. apply alerted_snoc; [exact Hal|].
    rewrite <- (Hmem _ _ Hside). exact Hlast.
Qed.

Lemma fires_keep_memory ops (st st' : bot_state F) sigs :
  fires human_time_ms ops st sigs st' →
  memory_follows_log st → alerted (notifications st) →
  memory_follows_log st' ∧ alerted (notifications st').
Proof.
  induction 1 as [st|st s sigs st' Hf Hfs IH]; intros Hmem Hal.
  - split; assumption.
  - destruct (fire_keeps_memory ops st s Hf Hmem) as [Hmem' Hal'].
    apply IH; [exact Hmem' | apply Hal'; exact Hal].
Qed.

Lemma scan_cycle_keeps_memory feed now (st : bot_state F) :
  memory_follows_log st → alerted (notifications st) →
  memory_follows_log (scan_cycle stat human_time_ms feed now st)
  ∧ alerted (notifications (scan_cycle stat human_time_ms feed now st)).
Proof.
  intros Hmem Hal. rewrite scan_cycle_eq.
  destruct (cycle_scan_fires stat human_time_ms feed st) as [sigs Hf].
  apply fires_keep_memory in Hf as [Hmem' Hal']; [|exact Hmem | exact Hal].
  split; [exact Hmem' | exact Hal'].
Qed.

Lemma run_cycles_keep_memory run (st : bot_state F) :
  memory_follows_log st → alerted (notifications st) →
  memory_follows_log (run_cycles stat human_time_ms run st)
  ∧ alerted (notifications (run_cycles stat human_time_ms run st)).
Proof.
  unfold run_cycles. revert st.
  induction run as [|[feed now] run IH]; intros st Hmem Hal.
  - split; assumption.
  - cbn [fold_left fst snd].
    destruct (scan_cycle_keeps_memory feed now st Hmem Hal) as [Hmem' Hal'].
    apply IH; assumption.
Qed.

(** C5, as the program has it.  On a bar that is the last one alerted
    for a symbol and side, neither decision fires, whatever the prices
    and the indicators.  In the signals of a process, from its start
    through any run of cycles, a second signal for the symbol, side and
    bar of an earlier one comes only after a signal for the same symbol
    and side on another bar. *)
Theorem one_alert_per_bar (run : list (list (string * result (klines F)) * string))
    (file : list (position F)) :
  (∀ sym price band r a ho ct,
      long_decision sym price band r a ho (Some ct) ct = Ok None
      ∧ short_decision sym price band r a ho (Some ct) ct = Ok None)
  ∧ ∀ l1 s1 l2 s2 l3,
      notifications (run_cycles stat human_time_ms run (initial_state file))
      = l1 ++ s1 :: l2 ++ s2 :: l3 →
      same_bar s1 s2 →
      ∃ s, In s l2 ∧ sig_symbol s = sig_symbol s1 ∧ sig_direction s = sig_direction s1
           ∧ sig_close_time s ≠ sig_close_time s1.
Proof.
  split.
  - intros sym price band r a ho ct. unfold long_decision, short_decision.
    rewrite (bool_decide_eq_true_2 (Some ct = Some ct) eq_refl). simpl.
    split; [destruct (_ && negb ho) | destruct (_ && negb ho)]; reflexivity.
  - apply alerted_no_repeat.
    apply run_cycles_keep_memory.
    + intros sym dir _. simpl. rewrite lookup_empty. reflexivity.
    + simpl. apply alerted_nil.
Qed.

End AlertMemory.

(** ** Binary64 arithmetic *)

(** The facts about the primitive floats the proofs below rest on, read
    off the specification of the format in the standard library. *)

Section Rounding.

Lemma digits2_size (p : positive) : digits2_pos p = Pos.size p.
Proof. induction p as [p IH|p IH|]; simpl; [rewrite IH | rewrite IH |]; reflexivity. Qed.

Lemma digits2_log2 (p : positive) : Zpos (digits2_pos p) = Z.log2 (Zpos p) + 1.
Proof.
  rewrite digits2_size. destruct p as [p|p|]; simpl; try reflexivity; lia.
Qed.

Lemma iter_pos_nat {A : Type} (f : A → A) (p : positive) (x : A) :
  SpecFloat.iter_pos f p x = Nat.iter (Pos.to_nat p) f x.
Proof.
  revert x. induction p as [p IH|p IH|]; intros x; cbn [SpecFloat.iter_pos].
  - rewrite !IH, Pos2Nat.inj_xI.
    replace (2 * Pos.to_nat p)%nat with (Pos.to_nat p + Pos.to_nat p)%nat by lia.
    rewrite Nat.iter_succ_r, Nat.iter_add. reflexivity.
  - rewrite !IH, Pos2Nat.inj_xO.
    replace (2 * Pos.to_nat p)%nat with (Pos.to_nat p + Pos.to_nat p)%nat by lia.
    rewrite Nat.iter_add. reflexivity.
  - reflexivity.
Qed.

Lemma shr_1_m (mrs : shr_record) :
  0 <= shr_m mrs → shr_m (shr_1 mrs) = Z.div2 (shr_m mrs).
Proof.
  destruct mrs as [m r s]. simpl. intros Hm.
  destruct m as [|[p|p|]|p]; try reflexivity. lia.
Qed.

Lemma shr_iter_m (n : nat) (mrs : shr_record) :
  0 <= shr_m mrs → shr_m (Nat.iter n shr_1 mrs) = Z.shiftr (shr_m mrs) (Z.of_nat n).
Proof.
  intros Hm. induction n as [|n IH].
  - simpl. rewrite Z.shiftr_0_r. reflexivity.
  - simpl Nat.iter. rewrite shr_1_m.
    + rewrite IH, Z.div2_spec, Z.shiftr_shiftr by lia. f_equal. lia.
    + rewrite IH. apply Z.shiftr_nonneg. exact Hm.
Qed.

(** Shifting a positive mantissa right by fewer places than it has
    digits leaves a positive mantissa, with that many digits less. *)
Lemma shr_positive (m : positive) (r s : bool) (e n : Z) :
  n < Zpos (digits2_pos m) →
  ∃ m', shr_m (fst (shr {| shr_m := Zpos m; shr_r := r; shr_s := s |} e n)) = Zpos m'
        ∧ snd (shr {| shr_m := Zpos m; shr_r := r; shr_s := s |} e n) = e + Z.max n 0
        ∧ Zpos (digits2_pos m') = Zpos (digits2_pos m) - Z.max n 0.
Proof.
  intros Hn. unfold shr. destruct n as [|p|p].
  - exists m. simpl. split; [reflexivity|]. split; lia.
  - cbn [fst snd]. rewrite iter_pos_nat, shr_iter_m by (simpl; lia).
    cbn [shr_m]. rewrite positive_nat_Z.
    rewrite digits2_log2 in Hn.
    assert (Hpos : 0 < Z.shiftr (Zpos m) (Zpos p)).
    { apply Z.le_neq. split; [apply Z.shiftr_nonneg; lia|].
      intros Hz. symmetry in Hz. apply Z.shiftr_eq_0_iff in Hz as [Hz | [_ Hz]]; lia. }
    destruct (Z.shiftr (Zpos m) (Zpos p)) as [|m'|m'] eqn:Hs; try lia.
    exists m'. split; [reflexivity|]. split; [lia|].
    rewrite !digits2_log2, <- Hs, Z.log2_shiftr by lia. lia.
  - exists m. simpl. split; [reflexivity|]. split; lia.
Qed.

Lemma shr_record_of_loc_m (m : Z) (l : location) : shr_m (shr_record_of_loc m l) = m.
Proof. destruct l as [|[| |]]; reflexivity. Qed.

Lemma shr_fexp_positive (m : positive) (e : Z) (l : location) :
  emin < Zpos (digits2_pos m) + e →
  ∃ m', shr_m (fst (shr_fexp prec emax (Zpos m) e l)) = Zpos m'
        ∧ Zpos (digits2_pos m') + snd (shr_fexp prec emax (Zpos m) e l)
          = Zpos (digits2_pos m) + e.
Proof.
  intros He. unfold shr_fexp.
  set (n := fexp prec emax (Zdigits2 (Zpos m) + e) - e).
  assert (Hn : n < Zpos (digits2_pos m)).
  { unfold n, fexp, SpecFloat.emin in *. simpl Zdigits2. unfold prec, emax in *. lia. }
  destruct (shr_record_of_loc (Zpos m) l) as [m0 r s] eqn:Hrec.
  assert (Hm0 : m0 = Zpos m).
  { pose proof (shr_record_of_loc_m (Zpos m) l) as Hm. rewrite Hrec in Hm. exact Hm. }
  subst m0.
  destruct (shr_positive m r s e n Hn) as (m' & Hm' & He' & Hd').
  exists m'. split; [exact Hm'|]. rewrite He', Hd'. lia.
Qed.

Lemma round_nearest_even_positive (m : positive) (l : location) :
  ∃ m', round_nearest_even (Zpos m) l = Zpos m'
        ∧ Zpos (digits2_pos m) <= Zpos (digits2_pos m').
Proof.
  assert (Hsucc : Zpos (digits2_pos m) <= Zpos (digits2_pos (m + 1))).
  { rewrite !digits2_log2. apply Z.add_le_mono_r, Z.log2_le_mono. lia. }
  unfold round_nearest_even. destruct l as [|[| |]].
  - exists m. split; [reflexivity | lia].
  - destruct (Z.even (Zpos m)).
    + exists m. split; [reflexivity | lia].
    + exists (m + 1)%positive. split; [reflexivity | exact Hsucc].
  - exists m. split; [reflexivity | lia].
  - exists (m + 1)%positive. split; [reflexivity | exact Hsucc].
Qed.

(** Rounding keeps the sign it is given. *)
Lemma round_aux_signed (s : bool) (m e : Z) (l : location) :
  B64.signed s (binary_round_aux prec emax s m e l).
Proof.
  unfold binary_round_aux.
  destruct (shr_fexp prec emax m e l) as [mrs' e'].
  destruct (shr_fexp prec emax _ e' loc_Exact) as [mrs'' e''].
  destruct (shr_m mrs''); simpl; try reflexivity.
  destruct (_ <=? _); reflexivity.
Qed.

(** Rounding a positive mantissa above the smallest exponent gives a
    number that is not zero. *)
Lemma round_aux_nonzero (s : bool) (m : positive) (e : Z) (l : location) :
  emin < Zpos (digits2_pos m) + e →
  B64.nonzero s (binary_round_aux prec emax s (Zpos m) e l).
Proof.
  intros He. unfold binary_round_aux.
  destruct (shr_fexp_positive m e l He) as (m1 & Hm1 & Hd1).
  destruct (shr_fexp prec emax (Zpos m) e l) as [mrs' e'].
  cbn [fst snd] in Hm1, Hd1. rewrite Hm1.
  destruct (round_nearest_even_positive m1 (loc_of_shr_record mrs')) as (m2 & Hm2 & Hd2).
  rewrite Hm2.
  assert (He2 : emin < Zpos (digits2_pos m2) + e') by lia.
  destruct (shr_fexp_positive m2 e' loc_Exact He2) as (m3 & Hm3 & _).
  destruct (shr_fexp prec emax (Zpos m2) e' loc_Exact) as [mrs'' e''].
  cbn [fst] in Hm3. rewrite Hm3.
  destruct (_ <=? _); reflexivity.
Qed.

Lemma digits2_iter_xO (m d : positive) :
  Zpos (digits2_pos (Pos.iter xO m d)) = Zpos (digits2_pos m) + Zpos d.
Proof.
  induction d as [|d IH] using Pos.peano_ind.
  - simpl. lia.
  - rewrite Pos.iter_succ. simpl digits2_pos. lia.
Qed.

Lemma shl_align_digits (m : positive) (e e' : Z) :
  Zpos (digits2_pos (fst (shl_align m e e'))) + snd (shl_align m e e')
  = Zpos (digits2_pos m) + e.
Proof.
  unfold shl_align. destruct (e' - e) as [|d|d] eqn:Hd; cbn [fst snd]; try reflexivity.
  rewrite digits2_iter_xO. lia.
Qed.

(** Rounding an integer with a positive mantissa above the smallest
    exponent gives a number that is not zero. *)
Lemma round_nonzero (s : bool) (m : positive) (e : Z) :
  emin < Zpos (digits2_pos m) + e →
  B64.nonzero s (binary_round prec emax s m e).
Proof.
  intros He. unfold binary_round.
  pose proof (shl_align_digits m e (fexp prec emax (Zpos (digits2_pos m) + e))) as Hd.
  destruct (shl_align m e _) as [mz ez]. cbn [fst snd] in Hd.
  apply round_aux_nonzero. lia.
Qed.

Lemma round_signed (s : bool) (m : positive) (e : Z) :
  B64.signed s (binary_round prec emax s m e).
Proof.
  unfold binary_round. destruct (shl_align m e _) as [mz ez]. apply round_aux_signed.
Qed.

Lemma shl_align_snd (m : positive) (e e' : Z) :
  e' <= e → snd (shl_align m e e') = e'.
Proof.
  intros He. unfold shl_align. destruct (e' - e) as [|d|d] eqn:Hd; cbn [snd]; lia.
Qed.

Lemma digits2_add_le (a b : positive) :
  Zpos (digits2_pos a) <= Zpos (digits2_pos (a + b)).
Proof. rewrite !digits2_log2. apply Z.add_le_mono_r, Z.log2_le_mono. lia. Qed.

End Rounding.

Section Binary64.

Local Open Scope float_scope.

Lemma SFadd_signed (x y : spec_float) :
  B64.signed false x → B64.signed false y → B64.signed false (SF64add x y).
Proof.
  destruct x as [sx|sx| |sx mx ex], y as [sy|sy| |sy my ey];
    intros Hx Hy; simpl in Hx, Hy; subst; try exact I; try reflexivity.
  - destruct sx, sy; exact I.
  - unfold SF64add, SFadd. cbn [cond_Zopp Z.add binary_normalize]. apply round_signed.
Qed.

Lemma SFdiv_signed (x y : spec_float) :
  B64.signed false x → B64.signed false y → (∀ s, y ≠ S754_zero s) →
  B64.signed false (SF64div x y).
Proof.
  destruct x as [sx|sx| |sx mx ex], y as [sy|sy| |sy my ey];
    intros Hx Hy Hz; simpl in Hx, Hy; subst; try exact I; try reflexivity;
    try (exfalso; apply (Hz sy); reflexivity).
  unfold SF64div, SFdiv.
  destruct (SFdiv_core_binary prec emax (Zpos mx) ex (Zpos my) ey) as [[mz ez] lz].
  apply round_aux_signed.
Qed.

Lemma eqb_zero_false (y : float) :
  (y =? 0) = false → ∀ s, Prim2SF y ≠ S754_zero s.
Proof.
  intros He s Hs. rewrite FloatAxioms.eqb_spec, Hs in He. discriminate.
Qed.

Lemma add_nonneg (x y : float) : B64.nonneg x → B64.nonneg y → B64.nonneg (x + y).
Proof. unfold B64.nonneg. intros Hx Hy. rewrite FloatAxioms.add_spec. apply SFadd_signed; assumption. Qed.

Lemma div_nonneg (x y : float) :
  B64.nonneg x → B64.nonneg y → (y =? 0) = false → B64.nonneg (x / y).
Proof.
  unfold B64.nonneg. intros Hx Hy Hz. rewrite FloatAxioms.div_spec.
  apply SFdiv_signed; [exact Hx | exact Hy | apply eqb_zero_false; exact Hz].
Qed.

Lemma positive_nonneg (x : float) : B64.positive x → B64.nonneg x.
Proof.
  unfold B64.positive, B64.nonneg. destruct (Prim2SF x); simpl; intros Hx;
    try contradiction; try exact I; exact Hx.
Qed.

Lemma positive_not_zero (x : float) : B64.positive x → (x =? 0) = false.
Proof.
  unfold B64.positive. intros Hx. rewrite FloatAxioms.eqb_spec.
  destruct (Prim2SF x) as [s|s| |s m e]; simpl in Hx; try contradiction;
    subst; reflexivity.
Qed.

Lemma zero_nonneg (x : float) : B64.is_zero x → B64.nonneg x.
Proof. intros [s Hs]. unfold B64.nonneg. rewrite Hs. exact I. Qed.

(** A float that is not below zero is not negative. *)
Lemma not_ltb_zero_nonneg (x : float) : (x <? 0) = false → B64.nonneg x.
Proof.
  unfold B64.nonneg. intros Hx. rewrite FloatAxioms.ltb_spec in Hx.
  destruct (Prim2SF x) as [s|[|]| |[|] m e]; simpl in *;
    try exact I; try reflexivity; discriminate.
Qed.

(** [float(n)] is positive for a positive [n] a list can have as its
    length. *)
Lemma of_Z_positive (n : Z) : 1 <= n < 2 ^ 63 → B64.positive (B64.of_Z n).
Proof.
  intros Hn. unfold B64.of_Z, B64.positive.
  destruct n as [|p|p]; try lia.
  destruct (Z.ltb_spec (Zpos p) (2 ^ 63)) as [_|Hge]; [|lia].
  rewrite FloatAxioms.of_uint63_spec.
  assert (Hto : Uint63.to_Z (Uint63.of_Z (Zpos p)) = Zpos p).
  { rewrite Uint63.of_Z_spec. apply Z.mod_small. 
    change Uint63.wB with (2 ^ 63). lia. }
  rewrite Hto. cbn [binary_normalize].
  apply round_nonzero. unfold SpecFloat.emin, emax, prec. lia.
Qed.

Lemma Prim2SF_one : Prim2SF 1 = S754_finite false 4503599627370496 (-52)%Z.
Proof. reflexivity. Qed.

Lemma Prim2SF_zero : Prim2SF 0 = S754_zero false.
Proof. reflexivity. Qed.

(** One plus a number that is not negative is not zero. *)
Lemma one_plus_nonneg (x : float) : B64.nonneg x → (1 + x =? 0) = false.
Proof.
  unfold B64.nonneg. intros Hx.
  rewrite FloatAxioms.eqb_spec, FloatAxioms.add_spec, Prim2SF_one, Prim2SF_zero.
  destruct (Prim2SF x) as [s|s| |s m e]; simpl in Hx; subst; try reflexivity.
  unfold SF64add, SFadd. cbn [cond_Zopp].
  rewrite <- Pos2Z.inj_add. unfold binary_normalize.
  set (ez := Z.min (-52)%Z e).
  pose proof (shl_align_digits 4503599627370496 (-52)%Z ez) as Hd.
  rewrite (shl_align_snd _ _ ez) in Hd by (unfold ez; lia).
  pose proof (digits2_add_le (fst (shl_align 4503599627370496 (-52)%Z ez))
                             (fst (shl_align m e ez))) as Hle.
  assert (Hnz : B64.nonzero false
                  (binary_round prec emax false
                     (fst (shl_align 4503599627370496 (-52)%Z ez) + fst (shl_align m e ez))%positive
                     ez)).
  { apply round_nonzero. unfold SpecFloat.emin, emax, prec.
    change (Zpos (digits2_pos 4503599627370496)) with 53%Z in Hd. lia. }
  destruct (binary_round _ _ _ _ _) as [s'|s'| |s' m' e']; simpl in Hnz;
    try contradiction; subst; reflexivity.
Qed.

(** A finite number minus itself is zero. *)
Lemma sub_diag (c : float) : B64.finite c → c - c = 0.
Proof.
  unfold B64.finite. intros Hc. apply Prim2SF_inj.
  rewrite FloatAxioms.sub_spec, Prim2SF_zero.
  destruct (Prim2SF c) as [s|s| |s m e]; try contradiction.
  - destruct s; reflexivity.
  - unfold SF64sub, SFsub. rewrite Z.min_id.
    unfold shl_align. rewrite Z.sub_diag. cbn [fst]. reflexivity.
Qed.

Lemma zero_add_zero (z : float) : B64.is_zero z → 0 + z = 0.
Proof.
  intros [s Hs]. apply Prim2SF_inj.
  rewrite FloatAxioms.add_spec, Hs, Prim2SF_zero. destruct s; reflexivity.
Qed.

Lemma zero_div_positive (y : float) : B64.positive y → 0 / y = 0.
Proof.
  unfold B64.positive. intros Hy. apply Prim2SF_inj.
  rewrite FloatAxioms.div_spec, Prim2SF_zero.
  destruct (Prim2SF y) as [s|s| |s m e]; simpl in Hy; try contradiction; subst; reflexivity.
Qed.

Lemma is_zero_zero : B64.is_zero 0.
Proof. exists false. reflexivity. Qed.

(** The loss of a change that is not negative is a zero. *)
Lemma loss_of_gain (ch : float) :
  (0 <=? ch) = true → B64.is_zero (if (- ch <? 0) then 0 else - ch).
Proof.
  intros Hch. rewrite FloatAxioms.leb_spec, Prim2SF_zero in Hch.
  rewrite FloatAxioms.ltb_spec, FloatAxioms.opp_spec, Prim2SF_zero.
  destruct (Prim2SF ch) as [s|[|]| |[|] m e] eqn:Hc; simpl in *; try discriminate;
    try apply is_zero_zero.
  exists (negb s). rewrite FloatAxioms.opp_spec, Hc. reflexivity.
Qed.

Lemma sum_of_zeros (l : list float) :
  Forall B64.is_zero l → fold_left PrimFloat.add l 0 = 0.
Proof.
  induction 1 as [|z l Hz _ IH]; simpl; [reflexivity|].
  rewrite (zero_add_zero z Hz). exact IH.
Qed.

Lemma sum_nonneg (l : list float) (acc : float) :
  B64.nonneg acc → Forall B64.nonneg l → B64.nonneg (fold_left PrimFloat.add l acc).
Proof.
  intros Hacc Hl. revert acc Hacc.
  induction Hl as [|x l Hx _ IH]; intros acc Hacc; simpl; [exact Hacc|].
  apply IH, add_nonneg; assumption.
Qed.

End Binary64.

Section Subtraction.

Lemma iter_xO_value (m d : positive) : Zpos (Pos.iter xO m d) = Zpos m * 2 ^ Zpos d.
Proof.
  induction d as [|d IH] using Pos.peano_ind.
  - simpl. lia.
  - rewrite Pos.iter_succ, Pos2Z.inj_succ, Z.pow_succ_r by lia.
    rewrite Pos2Z.inj_xO, IH. lia.
Qed.

Lemma shl_align_value (m : positive) (e e' : Z) :
  e' <= e → Zpos (fst (shl_align m e e')) = Zpos m * 2 ^ (e - e').
Proof.
  intros He. unfold shl_align. destruct (e' - e) as [|d|d] eqn:Hd; cbn [fst].
  - replace (e - e') with 0 by lia. lia.
  - lia.
  - rewrite iter_xO_value. replace (e - e') with (Zpos d) by lia. reflexivity.
Qed.

Lemma digits2_bounds (m : positive) :
  2 ^ (Zpos (digits2_pos m) - 1) <= Zpos m < 2 ^ Zpos (digits2_pos m).
Proof.
  rewrite digits2_log2. replace (Z.log2 (Zpos m) + 1 - 1) with (Z.log2 (Zpos m)) by lia.
  replace (Z.log2 (Zpos m) + 1) with (Z.succ (Z.log2 (Zpos m))) by lia.
  apply Z.log2_spec. lia.
Qed.

(** The mantissa of a float has at most 53 digits, and exactly 53
    above the smallest exponent. *)
Lemma valid_finite (s : bool) (m : positive) (e : Z) :
  valid_binary (S754_finite s m e) = true →
  Zpos m < 2 ^ 53 ∧ (emin < e → 2 ^ 52 <= Zpos m) ∧ emin <= e.
Proof.
  unfold SpecFloat.valid_binary, bounded, canonical_mantissa, fexp, SpecFloat.emin, emax, prec.
  intros Hv. apply andb_true_iff in Hv as [Hc _]. apply Z.eqb_eq in Hc.
  pose proof (digits2_bounds m) as [Hlo Hhi].
  assert (Hd : Zpos (digits2_pos m) <= 53) by lia.
  split; [|split].
  - eapply Z.lt_le_trans; [exact Hhi|]. apply Z.pow_le_mono_r; lia.
  - intros He. assert (Hd' : Zpos (digits2_pos m) = 53) by lia.
    rewrite Hd' in Hlo. exact Hlo.
  - lia.
Qed.

(** Of two floats with the same sign the one with the larger exponent,
    or with the larger mantissa at the same exponent, has the larger
    aligned mantissa. *)
Lemma aligned_lt (s1 s2 : bool) (m1 m2 : positive) (e1 e2 : Z) :
  valid_binary (S754_finite s1 m1 e1) = true →
  valid_binary (S754_finite s2 m2 e2) = true →
  match e1 ?= e2 with
  | Lt => True
  | Gt => False
  | Eq => (m1 < m2)%positive
  end →
  Zpos (fst (shl_align m1 e1 (Z.min e2 e1))) < Zpos (fst (shl_align m2 e2 (Z.min e2 e1))).
Proof.
  intros Hv1 Hv2 Hcmp.
  apply valid_finite in Hv1 as (H1 & _ & Hmin1).
  apply valid_finite in Hv2 as (_ & H2 & _).
  rewrite !shl_align_value by lia.
  destruct (Z.compare_spec e1 e2) as [->|Hlt|Hgt]; try contradiction.
  - rewrite Z.min_id, Z.sub_diag. simpl. lia.
  - rewrite Z.min_r by lia. rewrite Z.sub_diag.
    assert (Hp : 2 ^ 1 <= 2 ^ (e2 - e1)) by (apply Z.pow_le_mono_r; lia).
    specialize (H2 ltac:(unfold SpecFloat.emin, emax, prec in *; lia)).
    change (2 ^ 0) with 1. change (2 ^ 1) with 2 in Hp. nia.
Qed.

Lemma nonzero_leb (x : spec_float) :
  B64.nonzero false x → SFleb (S754_zero false) x = true.
Proof. destruct x as [s|s| |s m e]; simpl; intros Hx; try contradiction; subst; reflexivity. Qed.

(** The difference of a float and a smaller one is not negative. *)
Lemma sub_of_less (a b : float) : (a <? b)%float = true → (0 <=? b - a)%float = true.
Proof.
  intros Hlt. rewrite FloatAxioms.ltb_spec in Hlt.
  rewrite FloatAxioms.leb_spec, FloatAxioms.sub_spec, Prim2SF_zero.
  pose proof (Prim2SF_valid a) as Hva. pose proof (Prim2SF_valid b) as Hvb.
  destruct (Prim2SF a) as [sa|sa| |sa ma ea], (Prim2SF b) as [sb|sb| |sb mb eb];
    try discriminate Hlt;
    try (destruct sa, sb; try discriminate Hlt; reflexivity);
    try (destruct sa; try discriminate Hlt; reflexivity);
    try (destruct sb; try discriminate Hlt; reflexivity).
  unfold SF64sub, SFsub. apply nonzero_leb.
  assert (Hmin : emin <= Z.min eb ea).
  { apply valid_finite in Hva as (_ & _ & ?). apply valid_finite in Hvb as (_ & _ & ?). lia. }
  assert (Hround : ∀ d : positive,
             B64.nonzero false (binary_normalize prec emax (Zpos d) (Z.min eb ea) false)).
  { intros d. cbn [binary_normalize]. apply round_nonzero.
    pose proof (Pos2Z.is_pos (digits2_pos d)). lia. }
  unfold SFltb, SFcompare in Hlt.
  destruct sa, sb; cbn [cond_Zopp]; try discriminate Hlt.
  - (* both negative *)
    assert (Hal : Zpos (fst (shl_align mb eb (Z.min ea eb)))
                  < Zpos (fst (shl_align ma ea (Z.min ea eb)))).
    { apply (aligned_lt true true mb ma eb ea Hvb Hva).
      rewrite Z.compare_antisym. destruct (ea ?= eb); simpl in *; try discriminate; try exact I.
      change (Pos.compare_cont Eq ma mb) with (ma ?= mb)%positive in Hlt.
      rewrite Pos.compare_antisym in Hlt.
      destruct (mb ?= ma)%positive eqn:Hc; try discriminate.
      apply Pos.compare_lt_iff. exact Hc. }
    rewrite (Z.min_comm ea eb) in Hal.
    destruct (- Zpos (fst (shl_align mb eb (Z.min eb ea)))
              - - Zpos (fst (shl_align ma ea (Z.min eb ea)))) as [|d|d] eqn:Hd; try lia.
    apply Hround.
  - (* a negative, b positive *)
    destruct (Zpos (fst (shl_align mb eb (Z.min eb ea)))
              - - Zpos (fst (shl_align ma ea (Z.min eb ea)))) as [|d|d] eqn:Hd; try lia.
    apply Hround.
  - (* both positive *)
    assert (Hal : Zpos (fst (shl_align ma ea (Z.min eb ea)))
                  < Zpos (fst (shl_align mb eb (Z.min eb ea)))).
    { apply (aligned_lt false false ma mb ea eb Hva Hvb).
      destruct (ea ?= eb); simpl in *; try discriminate; try exact I.
      change (Pos.compare_cont Eq ma mb) with (ma ?= mb)%positive in Hlt.
      destruct (ma ?= mb)%positive eqn:Hc; try discriminate.
      apply Pos.compare_lt_iff. exact Hc. }
    destruct (Zpos (fst (shl_align mb eb (Z.min eb ea)))
              - Zpos (fst (shl_align ma ea (Z.min eb ea)))) as [|d|d] eqn:Hd; try lia.
    apply Hround.
Qed.

End Subtraction.

(** ** The loops of the indicators *)

Section Loops.

Context {F : Type} `{Number F}.

Lemma py_index_negative (l : list F) (i : Z) :
  - len l <= i < 0 → py_index l i = Ok (item l i).
Proof.
  intros Hi. unfold item, py_index, len in *.
  destruct (Z.ltb_spec i 0) as [_|]; [|lia].
  destruct (Z.leb_spec 0 (i + Z.of_nat (length l))) as [_|]; [|lia].
  destruct (Z.ltb_spec (i + Z.of_nat (length l)) (Z.of_nat (length l))) as [_|]; [|lia].
  simpl. destruct (nth_error l _) as [x|] eqn:Hn; [reflexivity|].
  apply nth_error_None in Hn. lia.
Qed.

Lemma in_py_range (a b i : Z) : In i (py_range a b) → a <= i < b.
Proof.
  unfold py_range. intros Hin. apply in_map_iff in Hin as (k & <- & Hk).
  apply in_seq in Hk. lia.
Qed.

Lemma py_range_length (a b : Z) : a <= b → len (py_range a b) = b - a.
Proof.
  intros Hab. unfold len, py_range. rewrite length_map, length_seq. lia.
Qed.

Lemma rsi_step_ok (closes : list F) (period i : Z) (acc : list F * list F) :
  period + 1 <= len closes → 1 <= i <= period →
  rsi_step closes period acc i
  = Ok (fst acc ++ [gain (change_at closes period i)],
        snd acc ++ [loss (change_at closes period i)]).
Proof.
  intros Hlen Hi. unfold rsi_step.
  rewrite !py_index_negative by lia. reflexivity.
Qed.

Lemma atr_step_ok (highs lows closes : list F) (period i : Z) (trs : list F) :
  period <= len highs → period <= len lows → period + 1 <= len closes →
  - period <= i < 0 →
  atr_step highs lows closes trs i = Ok (trs ++ [true_range highs lows closes i]).
Proof.
  intros Hh Hl Hc Hi. unfold atr_step.
  rewrite !py_index_negative by lia. reflexivity.
Qed.

Lemma rsi_loop (closes : list F) (period : Z) (xs : list Z) (acc : list F * list F) :
  period + 1 <= len closes →
  (∀ i, In i xs → 1 <= i <= period) →
  for_each (rsi_step closes period) xs acc
  = Ok (fst acc ++ map (fun i => gain (change_at closes period i)) xs,
        snd acc ++ map (fun i => loss (change_at closes period i)) xs).
Proof.
  intros Hlen. revert acc. induction xs as [|i xs IH]; intros acc Hxs.
  - simpl. rewrite !app_nil_r. destruct acc; reflexivity.
  - assert (Hi : 1 <= i <= period) by (apply Hxs; left; reflexivity).
    cbn [for_each]. rewrite (rsi_step_ok closes period i acc Hlen Hi).
    cbn [mbind result_bind].
    rewrite IH by (intros j Hj; apply Hxs; right; exact Hj).
    cbn [fst snd map]. rewrite <- !app_assoc. reflexivity.
Qed.

Lemma atr_loop (highs lows closes : list F) (period : Z) (xs : list Z) (trs : list F) :
  period <= len highs → period <= len lows → period + 1 <= len closes →
  (∀ i, In i xs → - period <= i < 0) →
  for_each (atr_step highs lows closes) xs trs
  = Ok (trs ++ map (true_range highs lows closes) xs).
Proof.
  intros Hh Hl Hc. revert trs. induction xs as [|i xs IH]; intros trs Hxs.
  - simpl. rewrite app_nil_r. reflexivity.
  - assert (Hi : - period <= i < 0) by (apply Hxs; left; reflexivity).
    cbn [for_each]. rewrite (atr_step_ok highs lows closes period i trs Hh Hl Hc Hi).
    cbn [mbind result_bind].
    rewrite IH by (intros j Hj; apply Hxs; right; exact Hj).
    cbn [map]. rewrite <- app_assoc. reflexivity.
Qed.

(** The loops of [rsi] and [atr] on series that are long enough. *)
Lemma rsi_loop_full (closes : list F) (period : Z) :
  period + 1 <= len closes →
  for_each (rsi_step closes period) (py_range 1 (period + 1)) ([], [])
  = Ok (map gain (rsi_changes closes period), map loss (rsi_changes closes period)).
Proof.
  intros Hlen. rewrite rsi_loop; [|exact Hlen|].
  - unfold rsi_changes. rewrite !map_map. reflexivity.
  - intros i Hi. apply in_py_range in Hi. lia.
Qed.

Lemma atr_loop_full (highs lows closes : list F) (period : Z) :
  period <= len highs → period <= len lows → period + 1 <= len closes →
  for_each (atr_step highs lows closes) (py_range (- period) 0) []
  = Ok (true_ranges highs lows closes period).
Proof.
  intros Hh Hl Hc. rewrite (atr_loop highs lows closes period); try assumption.
  - reflexivity.
  - intros i Hi. apply in_py_range in Hi. lia.
Qed.

End Loops.

(** ** The indicators on binary64 *)

Section IndicatorsBinary64.

Local Open Scope float_scope.

Lemma whole_0 : @whole float _ 0 = 0.
Proof. reflexivity. Qed.

Lemma whole_1 : @whole float _ 1 = 1.
Proof. reflexivity. Qed.

Lemma whole_100 : @whole float _ 100 = 100.
Proof. reflexivity. Qed.

Lemma py_div_ok (x y : float) : (y =? 0) = false → py_div x y = Ok (x / y).
Proof. intros Hy. unfold py_div. rewrite whole_0. cbn. rewrite Hy. reflexivity. Qed.

Lemma py_div_positive (x y : float) : B64.positive y → py_div x y = Ok (x / y).
Proof. intros Hy. apply py_div_ok, positive_not_zero, Hy. Qed.

Lemma gain_nonneg (ch : float) : B64.nonneg (gain ch).
Proof.
  unfold gain, py_max. rewrite whole_0. cbn.
  destruct (ch <? 0) eqn:Hlt.
  - apply zero_nonneg, is_zero_zero.
  - apply not_ltb_zero_nonneg, Hlt.
Qed.

Lemma loss_nonneg (ch : float) : B64.nonneg (loss ch).
Proof.
  unfold loss, py_max. rewrite whole_0. cbn.
  destruct (- ch <? 0) eqn:Hlt.
  - apply zero_nonneg, is_zero_zero.
  - apply not_ltb_zero_nonneg, Hlt.
Qed.

Lemma loss_zero (ch : float) : (0 <=? ch) = true → B64.is_zero (loss ch).
Proof. intros Hch. unfold loss, py_max. rewrite whole_0. cbn. apply loss_of_gain, Hch. Qed.

Lemma py_sum_nonneg (l : list float) : Forall B64.nonneg l → B64.nonneg (py_sum l).
Proof.
  intros Hl. unfold py_sum. rewrite whole_0. cbn.
  apply sum_nonneg; [apply zero_nonneg, is_zero_zero | exact Hl].
Qed.

Lemma py_sum_zeros (l : list float) : Forall B64.is_zero l → py_sum l = 0.
Proof. intros Hl. unfold py_sum. rewrite whole_0. cbn. apply sum_of_zeros, Hl. Qed.

(** What [rsi] returns on a series that is long enough: [100.0] when
    the average loss is zero, and [100 - 100 / (1 + RS)] otherwise. *)
Lemma rsi_value (closes : list float) (period : Z) :
  (1 <= period)%Z → (period + 1 <= len closes)%Z → list_sized closes →
  let avg_gain := py_sum (map gain (rsi_changes closes period)) / B64.of_Z period in
  let avg_loss := py_sum (map loss (rsi_changes closes period)) / B64.of_Z period in
  rsi closes period
  = Ok (Some (if avg_loss =? 0 then 100 else 100 - 100 / (1 + avg_gain / avg_loss))).
Proof.
  intros Hp Hlen Hsize avg_gain avg_loss. unfold rsi.
  destruct (Z.ltb_spec (len closes) (period + 1)) as [|_]; [lia|].
  rewrite rsi_loop_full by exact Hlen. cbn [mbind result_bind fst snd].
  assert (Hpos : B64.positive (B64.of_Z period)).
  { apply of_Z_positive. unfold list_sized in Hsize. lia. }
  change (@of_int float _ period) with (B64.of_Z period).
  rewrite !py_div_positive by exact Hpos. cbn [mbind result_bind].
  fold avg_gain avg_loss. rewrite whole_0, whole_1, whole_100.
  change (num_eqb avg_loss 0) with (avg_loss =? 0).
  destruct (avg_loss =? 0) eqn:Hz; [reflexivity|].
  rewrite (py_div_ok avg_gain avg_loss Hz). cbn [mbind result_bind].
  rewrite py_div_ok; [reflexivity|].
  apply one_plus_nonneg, div_nonneg; [| |exact Hz].
  - apply div_nonneg; [|apply positive_nonneg, Hpos | apply positive_not_zero, Hpos].
    apply py_sum_nonneg, Forall_map, Forall_forall. intros ch _. apply gain_nonneg.
  - apply div_nonneg; [|apply positive_nonneg, Hpos | apply positive_not_zero, Hpos].
    apply py_sum_nonneg, Forall_map, Forall_forall. intros ch _. apply loss_nonneg.
Qed.

Lemma rising_changes (closes : list float) (period : Z) :
  rising closes period →
  Forall (fun change => (0 <=? change) = true) (rsi_changes closes period).
Proof.
  intros Hr. unfold rsi_changes. apply Forall_map, Forall_forall.
  intros i Hi. apply list_elem_of_In, in_py_range in Hi.
  unfold change_at. apply sub_of_less. apply Hr. lia.
Qed.

(** C7.  On a series of at least [period + 1] closes whose last
    [period] changes are all zero or gains, [rsi] returns [100.0], for
    the average loss is then exactly zero; so it does on a series
    whose last [period + 1] closes rise strictly.  Whenever the average
    loss is not zero, [rsi] returns [100 - 100 / (1 + RS)], with [RS]
    the average gain over the average loss. *)
Theorem rsi_without_losses (closes : list float) (period : Z) :
  (1 <= period)%Z → (period + 1 <= len closes)%Z → list_sized closes →
  let avg_gain := py_sum (map gain (rsi_changes closes period)) / B64.of_Z period in
  let avg_loss := py_sum (map loss (rsi_changes closes period)) / B64.of_Z period in
  (Forall (fun change => (0 <=? change) = true) (rsi_changes closes period) →
     avg_loss = 0 ∧ rsi closes period = Ok (Some 100))
  ∧ (rising closes period → rsi closes period = Ok (Some 100))
  ∧ ((avg_loss =? 0) = false →
     rsi closes period = Ok (Some (100 - 100 / (1 + avg_gain / avg_loss)))).
Proof.
  intros Hp Hlen Hsize avg_gain avg_loss.
  pose proof (rsi_value closes period Hp Hlen Hsize) as Hv. cbv zeta in Hv.
  fold avg_gain avg_loss in Hv.
  assert (Hflat : Forall (fun change => (0 <=? change) = true) (rsi_changes closes period) →
                  avg_loss = 0 ∧ rsi closes period = Ok (Some 100)).
  2: { split; [exact Hflat|]. split.
       - intros Hr. apply Hflat, rising_changes, Hr.
       - intros Hnz. rewrite Hv, Hnz. reflexivity. }
  { intros Hall.
    assert (Hz : avg_loss = 0).
    { unfold avg_loss. rewrite py_sum_zeros.
      - apply zero_div_positive, of_Z_positive. unfold list_sized in Hsize. lia.
      - apply Forall_map. eapply Forall_impl; [exact Hall|].
        intros ch Hch. apply loss_zero, Hch. }
    split; [exact Hz|]. rewrite Hv, Hz. reflexivity. }
Qed.

End IndicatorsBinary64.

Section Windows.

Context {F : Type} `{Number F}.

Lemma slice_length (l : list F) (period : Z) :
  1 <= period → period <= len l → len (py_slice_from l (- period)) = period.
Proof.
  intros Hp Hl. unfold py_slice_from, len in *.
  destruct (Z.ltb_spec (- period) 0) as [_|]; [|lia].
  rewrite length_drop. lia.
Qed.

Lemma slice_nonempty (l : list F) (period : Z) :
  1 <= period → period <= len l → py_slice_from l (- period) ≠ [].
Proof.
  intros Hp Hl Hnil. pose proof (slice_length l period Hp Hl) as Hlen.
  rewrite Hnil in Hlen. unfold len in Hlen. simpl in Hlen. lia.
Qed.

Lemma true_ranges_length (highs lows closes : list F) (period : Z) :
  0 <= period → len (true_ranges highs lows closes period) = period.
Proof.
  intros Hp. unfold true_ranges, len. rewrite length_map.
  pose proof (py_range_length (- period) 0) as Hr. unfold len in Hr. lia.
Qed.

Lemma item_repeat (c : F) (n : nat) (i : Z) :
  - Z.of_nat n <= i < 0 → item (repeat c n) i = c.
Proof.
  intros Hi. unfold item, py_index, len. rewrite repeat_length.
  destruct (Z.ltb_spec i 0) as [_|]; [|lia].
  destruct (Z.leb_spec 0 (i + Z.of_nat n)) as [_|]; [|lia].
  destruct (Z.ltb_spec (i + Z.of_nat n) (Z.of_nat n)) as [_|]; [|lia].
  simpl. rewrite nth_error_repeat by lia. reflexivity.
Qed.

(** The shape of what [sma] and [bollinger] return, for a statistics
    module that raises on empty data only. *)
Lemma sma_defined (stat : Statistics F) (values : list F) (period : Z) :
  (∀ xs, xs ≠ [] → ∃ m, mean stat xs = Ok m) →
  1 <= period → period <= len values →
  ∃ m, mean stat (py_slice_from values (- period)) = Ok m
       ∧ sma stat values period = Ok (Some m).
Proof.
  intros Hmean Hp Hl. unfold sma.
  destruct (Z.ltb_spec (len values) period) as [|_]; [lia|].
  destruct (Hmean _ (slice_nonempty values period Hp Hl)) as [m Hm].
  exists m. rewrite Hm. split; reflexivity.
Qed.

Lemma bollinger_defined (stat : Statistics F) (closes : list F) (period : Z) (mult : F) :
  (∀ xs, xs ≠ [] → ∃ m, mean stat xs = Ok m) →
  (∀ xs, xs ≠ [] → ∃ s, pstdev stat xs = Ok s) →
  1 <= period → period <= len closes →
  ∃ mid std,
    mean stat (py_slice_from closes (- period)) = Ok mid
    ∧ (if 2 <=? period then pstdev stat (py_slice_from closes (- period)) else Ok (whole 0))
      = Ok std
    ∧ bollinger stat closes period mult
      = Ok (Some (mid - mult * std)%num, Some mid, Some (mid + mult * std)%num).
Proof.
  intros Hmean Hdev Hp Hl.
  destruct (sma_defined stat closes period Hmean Hp Hl) as (mid & Hmid & Hsma).
  unfold bollinger.
  destruct (Z.ltb_spec (len closes) period) as [|_]; [lia|].
  rewrite Hsma. cbn [mbind result_bind].
  rewrite (slice_length closes period Hp Hl).
  destruct (2 <=? period).
  - destruct (Hdev _ (slice_nonempty closes period Hp Hl)) as [std Hstd].
    exists mid, std. rewrite Hstd. repeat split; try assumption; reflexivity.
  - exists mid, (whole 0). repeat split; try assumption; reflexivity.
Qed.

End Windows.

Section TotalBinary64.

Local Open Scope float_scope.

Lemma atr_value (highs lows closes : list float) (period : Z) :
  (1 <= period)%Z → (period + 1 <= len highs)%Z → list_sized highs →
  (period <= len lows)%Z → (period + 1 <= len closes)%Z →
  atr highs lows closes period
  = Ok (Some (py_sum (true_ranges highs lows closes period) / B64.of_Z period)).
Proof.
  intros Hp Hh Hsize Hl Hc. unfold atr.
  destruct (Z.ltb_spec (len highs) (period + 1)) as [|_]; [lia|].
  rewrite atr_loop_full by lia. cbn [mbind result_bind].
  rewrite true_ranges_length by lia.
  change (@of_int float _ period) with (B64.of_Z period).
  rewrite py_div_positive; [reflexivity|].
  apply of_Z_positive. unfold list_sized in Hsize. lia.
Qed.

(** C9.  On a series of at least [period + 1] bars whose high, low and
    close all are one finite price, [atr] returns exactly zero. *)
Theorem atr_of_constant_price (c : float) (n : nat) (period : Z) :
  B64.finite c → (1 <= period)%Z → (period + 1 <= Z.of_nat n)%Z →
  list_sized (repeat c n) →
  atr (repeat c n) (repeat c n) (repeat c n) period = Ok (Some 0).
Proof.
  intros Hc Hp Hn Hsize.
  assert (Hlen : len (repeat c n) = Z.of_nat n) by (unfold len; rewrite repeat_length; reflexivity).
  rewrite atr_value; try assumption; try (rewrite Hlen; lia).
  assert (Hz : Forall B64.is_zero (true_ranges (repeat c n) (repeat c n) (repeat c n) period)).
  { unfold true_ranges. apply Forall_map, Forall_forall.
    intros i Hi. apply list_elem_of_In, in_py_range in Hi.
    unfold true_range. rewrite !item_repeat by lia.
    change (num_sub c c) with (c - c). rewrite (sub_diag c Hc).
    exists false. reflexivity. }
  rewrite (py_sum_zeros _ Hz), zero_div_positive; [reflexivity|].
  apply of_Z_positive. unfold list_sized in Hsize. rewrite Hlen in Hsize. lia.
Qed.


End TotalBinary64.

(** ** Exact arithmetic *)

Section ExactArithmetic.

Local Open Scope Q_scope.

Lemma Qlt_bool_iff (x y : Q) : Exact.Qlt_bool x y = true ↔ x < y.
Proof.
  unfold Exact.Qlt_bool. rewrite negb_true_iff. split.
  - intros Hb. apply Qnot_le_lt. intros Hle. apply Qle_bool_iff in Hle. congruence.
  - intros Hlt. destruct (Qle_bool y x) eqn:Hb; [|reflexivity].
    apply Qle_bool_iff in Hb. apply Qlt_not_le in Hlt. contradiction.
Qed.

Lemma py_max_exact_ge (x y : Q) : y <= @py_max Q _ x y.
Proof.
  unfold py_max. cbn. destruct (Exact.Qlt_bool x y) eqn:Hb.
  - apply Qle_refl.
  - apply Qnot_lt_le. intros Hlt. apply Qlt_bool_iff in Hlt. congruence.
Qed.

Lemma true_range_exact_nonneg (high low prev_close : Q) :
  0 <= @py_max3 Q _ (high - low) (Qabs (high - prev_close)) (Qabs (low - prev_close)).
Proof.
  unfold py_max3. eapply Qle_trans; [apply Qabs_nonneg | apply py_max_exact_ge].
Qed.

Lemma atr_loop_exact_nonneg (highs lows closes : list Q) (xs : list Z) (trs trs' : list Q) :
  for_each (atr_step highs lows closes) xs trs = Ok trs' →
  List.Forall (fun tr => 0 <= tr) trs → List.Forall (fun tr => 0 <= tr) trs'.
Proof.
  revert trs. induction xs as [|i xs IH]; intros trs Hloop Hall.
  - simpl in Hloop. assert (trs = trs') by congruence. subst trs'. exact Hall.
  - cbn [for_each] in Hloop.
    destruct (atr_step highs lows closes trs i) as [trs1|] eqn:Hstep; [|discriminate Hloop].
    cbn [mbind result_bind] in Hloop. apply (IH _ Hloop).
    unfold atr_step in Hstep.
    destruct (py_index highs i) as [high|]; [|discriminate Hstep].
    destruct (py_index lows i) as [low|]; [|discriminate Hstep].
    destruct (py_index closes (i - 1)) as [prev_close|]; [|discriminate Hstep].
    cbn [mbind result_bind] in Hstep.
    injection Hstep as <-. apply List.Forall_app. split; [exact Hall|].
    constructor; [|constructor]. apply true_range_exact_nonneg.
Qed.

Lemma sum_exact_nonneg (l : list Q) (acc : Q) :
  0 <= acc → List.Forall (fun x => 0 <= x) l → 0 <= fold_left Qplus l acc.
Proof.
  intros Hacc Hl. revert acc Hacc.
  induction Hl as [|x l Hx _ IH]; intros acc Hacc; simpl; [exact Hacc|].
  apply IH. lra.
Qed.

(** In exact arithmetic an average true range is never negative. *)
Lemma atr_exact_nonneg (highs lows closes : list Q) (period : Z) (a : Q) :
  atr highs lows closes period = Ok (Some a) → 0 <= a.
Proof.
  unfold atr. intros Ha. destruct (len highs <? period + 1)%Z; [discriminate Ha|].
  destruct (for_each _ _ _) as [trs|] eqn:Hloop; [|discriminate Ha].
  cbn [mbind result_bind] in Ha. unfold py_div in Ha. cbn in Ha.
  destruct (Qeq_bool (inject_Z (len trs)) (inject_Z 0)) eqn:Hz; [discriminate Ha|].
  cbn [mbind result_bind] in Ha. injection Ha as <-.
  apply atr_loop_exact_nonneg in Hloop; [|constructor].
  assert (Hsum : 0 <= py_sum trs).
  { unfold py_sum. apply sum_exact_nonneg; [apply Qle_refl | exact Hloop]. }
  assert (Hlen : 0 < inject_Z (len trs)).
  { apply Qeq_bool_neq in Hz. unfold len in *.
    assert (Hle : inject_Z 0 <= inject_Z (Z.of_nat (length trs))).
    { rewrite <- Zle_Qle. lia. }
    apply Qle_lt_or_eq in Hle as [Hlt | Heq]; [exact Hlt | symmetry in Heq; contradiction]. }
  apply Qle_shift_div_l; [exact Hlen|]. rewrite Qmult_0_l. exact Hsum.
Qed.

Lemma pct_gate_exact (price a d m t h : Q) :
  m == 3 # 2 → t == 9 # 5 → h == 100 # 1 →
  ¬ price == 0 → 0 <= a →
  m <= (d / price) * h → d == t * a →
  0 < a ∧ 0 < price.
Proof.
  intros Hm Ht Hh Hp Ha Hpct Hd.
  assert (Hmul : (d / price) * price == d) by (field; exact Hp).
  set (x := d / price) in *.
  assert (Hx : 0 < x) by nra.
  assert (Hd0 : 0 <= d) by nra.
  destruct (Qlt_le_dec 0 price) as [Hpos | Hneg].
  - split; [|exact Hpos].
    assert (0 < d).
    { rewrite <- Hmul. apply Qmult_lt_0_compat; assumption. }
    nra.
  - exfalso. assert (Hlt : price < 0).
    { apply Qle_lt_or_eq in Hneg as [? | ?]; [assumption | contradiction]. }
    assert (Hmm : 0 < x * (- price)) by (apply Qmult_lt_0_compat; lra).
    lra.
Qed.

Lemma rr_exact (a t s : Q) : t == 9 # 5 → s == 6 # 5 → 0 < a → (t * a) / (s * a) == 3 # 2.
Proof. intros Ht Hs Ha. rewrite Ht, Hs. field. lra. Qed.

Lemma TP_exact : @TP_ATR_MULT Q _ == 9 # 5.
Proof. reflexivity. Qed.

Lemma SL_exact : @SL_ATR_MULT Q _ == 6 # 5.
Proof. reflexivity. Qed.

Lemma MIN_exact : @MIN_LONG_PCT Q _ == 3 # 2.
Proof. reflexivity. Qed.

Lemma MIN_SHORT_exact : @MIN_SHORT_PCT Q _ == 3 # 2.
Proof. reflexivity. Qed.

Lemma RR_MIN_exact : @RR_MIN Q _ == 6 # 5.
Proof. reflexivity. Qed.

Lemma hundred_exact : @whole Q _ 100 == 100 # 1.
Proof. reflexivity. Qed.

Lemma long_risk_exact (price a s : Q) : s == 6 # 5 → 0 < a → 0 < price - (price - s * a).
Proof. intros Hs Ha. rewrite Hs. lra. Qed.

Lemma short_risk_exact (price a s : Q) : s == 6 # 5 → 0 < a → 0 < price + s * a - price.
Proof. intros Hs Ha. rewrite Hs. lra. Qed.

Lemma long_rr_exact (price a t s : Q) :
  t == 9 # 5 → s == 6 # 5 → 0 < a →
  (price + t * a - price) / (price - (price - s * a)) == 3 # 2.
Proof. intros Ht Hs Ha. rewrite Ht, Hs. field. lra. Qed.

Lemma short_rr_exact (price a t s : Q) :
  t == 9 # 5 → s == 6 # 5 → 0 < a →
  (price - (price - t * a)) / (price + s * a - price) == 3 # 2.
Proof. intros Ht Hs Ha. rewrite Ht, Hs. field. lra. Qed.

Lemma ratio_exact : @TP_ATR_MULT Q _ / @SL_ATR_MULT Q _ == 3 # 2.
Proof. reflexivity. Qed.

Lemma ratio_gate_exact (rr : Q) : rr == 3 # 2 → (rr >= RR_MIN)%num = true.
Proof. intros H. apply Qle_bool_iff. rewrite H. discriminate. Qed.

(** A LONG setup that passes the percentage gate, in exact
    arithmetic. *)
Lemma long_setup_exact (price a pct : Q) :
  0 <= a → long_pct price a = Ok pct → (pct >= MIN_LONG_PCT)%num = true →
  0 < a ∧ 0 < price
  ∧ (price - long_sl price a > whole 0)%num = true
  ∧ ∃ rr, long_rr price a = Ok rr
          ∧ rr == TP_ATR_MULT / SL_ATR_MULT ∧ rr == 3 # 2
          ∧ (rr >= RR_MIN)%num = true.
Proof.
  intros Ha Hpct Hgate.
  unfold long_pct, py_div in Hpct.
  destruct (price == whole 0)%num eqn:Hz; [discriminate Hpct|].
  cbn [mbind result_bind] in Hpct. injection Hpct as <-.
  apply Qeq_bool_neq in Hz. apply Qle_bool_iff in Hgate.
  pose proof (pct_gate_exact price a (long_tp2 price a - price) MIN_LONG_PCT TP_ATR_MULT
                (whole 100) MIN_exact TP_exact hundred_exact Hz Ha) as Hpos.
  specialize (Hpos Hgate).
  destruct Hpos as [Hapos Hppos]; [unfold long_tp2; cbn; ring|].
  pose proof (long_risk_exact price a SL_ATR_MULT SL_exact Hapos) as Hrisk.
  pose proof (long_rr_exact price a TP_ATR_MULT SL_ATR_MULT TP_exact SL_exact Hapos) as Hq.
  assert (Hb : (price - long_sl price a > whole 0)%num = true) by (apply Qlt_bool_iff; exact Hrisk).
  assert (Hnz : (price - long_sl price a == whole 0)%num = false).
  { destruct (price - long_sl price a == whole 0)%num eqn:He; [|reflexivity].
    apply Qeq_bool_iff in He. apply Qlt_not_eq in Hrisk. symmetry in He. contradiction. }
  split; [exact Hapos|]. split; [exact Hppos|]. split; [exact Hb|].
  unfold long_rr. cbn zeta. rewrite Hb. unfold py_div. rewrite Hnz.
  eexists. split; [reflexivity|].
  split; [|split; [exact Hq | apply ratio_gate_exact; exact Hq]].
  rewrite ratio_exact. exact Hq.
Qed.

(** A SHORT setup that passes the percentage gate, in exact
    arithmetic. *)
Lemma short_setup_exact (price a pct : Q) :
  0 <= a → short_pct price a = Ok pct → (pct >= MIN_SHORT_PCT)%num = true →
  0 < a ∧ 0 < price
  ∧ (short_sl price a - price > whole 0)%num = true
  ∧ ∃ rr, short_rr price a = Ok rr
          ∧ rr == TP_ATR_MULT / SL_ATR_MULT ∧ rr == 3 # 2
          ∧ (rr >= RR_MIN)%num = true.
Proof.
  intros Ha Hpct Hgate.
  unfold short_pct, py_div in Hpct.
  destruct (price == whole 0)%num eqn:Hz; [discriminate Hpct|].
  cbn [mbind result_bind] in Hpct. injection Hpct as <-.
  apply Qeq_bool_neq in Hz. apply Qle_bool_iff in Hgate.
  pose proof (pct_gate_exact price a (price - short_tp2 price a) MIN_SHORT_PCT TP_ATR_MULT
                (whole 100) MIN_SHORT_exact TP_exact hundred_exact Hz Ha) as Hpos.
  specialize (Hpos Hgate).
  destruct Hpos as [Hapos Hppos]; [unfold short_tp2; cbn; ring|].
  pose proof (short_risk_exact price a SL_ATR_MULT SL_exact Hapos) as Hrisk.
  pose proof (short_rr_exact price a TP_ATR_MULT SL_ATR_MULT TP_exact SL_exact Hapos) as Hq.
  assert (Hb : (short_sl price a - price > whole 0)%num = true) by (apply Qlt_bool_iff; exact Hrisk).
  assert (Hnz : (short_sl price a - price == whole 0)%num = false).
  { destruct (short_sl price a - price == whole 0)%num eqn:He; [|reflexivity].
    apply Qeq_bool_iff in He. apply Qlt_not_eq in Hrisk. symmetry in He. contradiction. }
  split; [exact Hapos|]. split; [exact Hppos|]. split; [exact Hb|].
  unfold short_rr. cbn zeta. rewrite Hb. unfold py_div. rewrite Hnz.
  eexists. split; [reflexivity|].
  split; [|split; [exact Hq | apply ratio_gate_exact; exact Hq]].
  rewrite ratio_exact. exact Hq.
Qed.

End ExactArithmetic.

(** ** The signal evaluator *)

Section Evaluator.

Context {F : Type} `{Number F}.

(** When the LONG block fires, and with which signal. *)
Lemma long_decision_iff sym (price lower r a : F) ho last ct s :
  long_decision sym price lower r a ho last ct = Ok (Some s) ↔
  (price < lower)%num = true ∧ (r < whole 30)%num = true ∧ ho = false ∧ last ≠ Some ct
  ∧ ∃ pct rr,
      long_pct price a = Ok pct ∧ (pct >= MIN_LONG_PCT)%num = true
      ∧ long_rr price a = Ok rr ∧ (rr >= RR_MIN)%num = true
      ∧ s = {| sig_symbol := sym; sig_direction := "LONG"; sig_price := price;
               sig_sl := long_sl price a; sig_tp1 := long_tp1 price a;
               sig_tp2 := long_tp2 price a; sig_rr := rr; sig_close_time := ct |}.
Proof.
  unfold long_decision. split.
  - intros Hd.
    destruct (price < lower)%num; [|discriminate Hd].
    destruct (r < whole 30)%num; [|discriminate Hd].
    destruct ho; [discriminate Hd|]. simpl in Hd.
    destruct (bool_decide (last = Some ct)) eqn:Hl; [discriminate Hd|].
    apply bool_decide_eq_false in Hl. simpl in Hd.
    destruct (long_pct price a) as [pct|]; [|discriminate Hd]. simpl in Hd.
    destruct (pct >= MIN_LONG_PCT)%num eqn:Hp; [|discriminate Hd].
    destruct (long_rr price a) as [rr0|]; [|discriminate Hd]. simpl in Hd.
    destruct (rr0 >= RR_MIN)%num eqn:Hr; [|discriminate Hd].
    injection Hd as <-. repeat split; try assumption.
    exists pct, rr0. repeat split; assumption.
  - intros (-> & -> & -> & Hl & pct & rr0 & -> & Hp & -> & Hr & ->). simpl.
    rewrite (bool_decide_eq_false_2 _ Hl). simpl. rewrite Hp, Hr. reflexivity.
Qed.

(** When the SHORT block fires, and with which signal. *)
Lemma short_decision_iff sym (price upper r a : F) ho last ct s :
  short_decision sym price upper r a ho last ct = Ok (Some s) ↔
  (price > upper)%num = true ∧ (r > whole 70)%num = true ∧ ho = false ∧ last ≠ Some ct
  ∧ ∃ pct rr,
      short_pct price a = Ok pct ∧ (pct >= MIN_SHORT_PCT)%num = true
      ∧ short_rr price a = Ok rr ∧ (rr >= RR_MIN)%num = true
      ∧ s = {| sig_symbol := sym; sig_direction := "SHORT"; sig_price := price;
               sig_sl := short_sl price a; sig_tp1 := short_tp1 price a;
               sig_tp2 := short_tp2 price a; sig_rr := rr; sig_close_time := ct |}.
Proof.
  unfold short_decision. split.
  - intros Hd.
    destruct (price > upper)%num; [|discriminate Hd].
    destruct (r > whole 70)%num; [|discriminate Hd].
    destruct ho; [discriminate Hd|]. simpl in Hd.
    destruct (bool_decide (last = Some ct)) eqn:Hl; [discriminate Hd|].
    apply bool_decide_eq_false in Hl. simpl in Hd.
    destruct (short_pct price a) as [pct|]; [|discriminate Hd]. simpl in Hd.
    destruct (pct >= MIN_SHORT_PCT)%num eqn:Hp; [|discriminate Hd].
    destruct (short_rr price a) as [rr0|]; [|discriminate Hd]. simpl in Hd.
    destruct (rr0 >= RR_MIN)%num eqn:Hr; [|discriminate Hd].
    injection Hd as <-. repeat split; try assumption.
    exists pct, rr0. repeat split; assumption.
  - intros (-> & -> & -> & Hl & pct & rr0 & -> & Hp & -> & Hr & ->). simpl.
    rewrite (bool_decide_eq_false_2 _ Hl). simpl. rewrite Hp, Hr. reflexivity.
Qed.

End Evaluator.

Section EvaluatorBinary64.

Local Open Scope float_scope.

Lemma positive_float_not_zero (x : float) : (0 <? x) = true → (x =? 0) = false.
Proof.
  intros Hx. rewrite FloatAxioms.ltb_spec, Prim2SF_zero in Hx.
  rewrite FloatAxioms.eqb_spec, Prim2SF_zero.
  destruct (Prim2SF x) as [s|[|]| |[|] m e]; simpl in *; try discriminate; reflexivity.
Qed.

(** The ratio of a LONG signal that passes the last gate is the
    quotient of the reward by the risk. *)
Lemma long_rr_emitted (price a rr : float) :
  long_rr price a = Ok rr → (rr >= RR_MIN)%num = true →
  rr = (long_tp2 price a - price) / (price - long_sl price a).
Proof.
  unfold long_rr. cbn zeta. rewrite whole_0.
  change (num_ltb 0 ?x) with (0 <? x).
  destruct (0 <? _) eqn:Hrisk.
  - rewrite py_div_ok by (apply positive_float_not_zero; exact Hrisk).
    intros Hrr _. injection Hrr as <-. reflexivity.
  - intros Hrr Hgate. injection Hrr as <-. vm_compute in Hgate. discriminate Hgate.
Qed.

End EvaluatorBinary64.

(** ** The claims on the arithmetic of a signal *)

Section SignalArithmetic.

Local Open Scope float_scope.

Lemma SL_binary64 : @SL_ATR_MULT float _ = 1.2.
Proof. vm_compute. reflexivity. Qed.

Lemma TP_binary64 : @TP_ATR_MULT float _ = 1.8.
Proof. vm_compute. reflexivity. Qed.

Lemma half_binary64 : @lit float _ 5 10 = 0.5.
Proof. vm_compute. reflexivity. Qed.

Lemma thirty_binary64 : @whole float _ 30 = 30.
Proof. vm_compute. reflexivity. Qed.

Lemma MIN_LONG_binary64 : @MIN_LONG_PCT float _ = 1.5.
Proof. vm_compute. reflexivity. Qed.

Lemma RR_MIN_binary64 : @RR_MIN float _ = 1.2.
Proof. vm_compute. reflexivity. Qed.

Lemma hundred_binary64 : @whole float _ 100 = 100.
Proof. vm_compute. reflexivity. Qed.

(** C1, as the program has it.  The LONG block fires exactly when the
    price is below the lower band, the RSI below 30, no LONG is open,
    the bar is not the last one alerted, the price is not zero, the
    potential is at least 1.5 percent and the ratio at least 1.2.  The
    signal then has [stop = price - 1.2 * atr], [tp2 = price + 1.8 *
    atr], [tp1 = price + (tp2 - price) * 0.5] and [rr = (tp2 - price) /
    (price - stop)], each operation rounded to binary64.  For a price
    of 100 and an ATR of 2 the signal has stop 97.6, tp2 103.6, tp1
    101.8 and rr 1.499999999999994; its ledger row stores rr to two
    decimals, as 1.5; in exact arithmetic rr is 3/2. *)
Theorem long_signal_levels :
  (∀ sym (price lower r a : float) ho last ct s,
      long_decision sym price lower r a ho last ct = Ok (Some s) ↔
      (price <? lower) = true ∧ (r <? 30) = true ∧ ho = false ∧ last ≠ Some ct
      ∧ ∃ pct rr,
          long_pct price a = Ok pct ∧ (1.5 <=? pct) = true
          ∧ long_rr price a = Ok rr ∧ (1.2 <=? rr) = true
          ∧ s = {| sig_symbol := sym; sig_direction := "LONG"; sig_price := price;
                   sig_sl := long_sl price a; sig_tp1 := long_tp1 price a;
                   sig_tp2 := long_tp2 price a; sig_rr := rr; sig_close_time := ct |})
  ∧ (∀ sym (price lower r a : float) ho last ct s,
      long_decision sym price lower r a ho last ct = Ok (Some s) →
      sig_sl s = price - 1.2 * a
      ∧ sig_tp2 s = price + 1.8 * a
      ∧ sig_tp1 s = price + (sig_tp2 s - price) * 0.5
      ∧ sig_rr s = (sig_tp2 s - price) / (price - sig_sl s)
      ∧ long_pct price a = Ok ((sig_tp2 s - price) / price * 100))
  ∧ long_decision "XYZ_USDT" 100 105 20 2 false None Sample.t1
    = Ok (Some {| sig_symbol := "XYZ_USDT"; sig_direction := "LONG"; sig_price := 100;
                  sig_sl := 97.6; sig_tp1 := 101.8; sig_tp2 := 103.6;
                  sig_rr := 1.499999999999994; sig_close_time := Sample.t1 |})
  ∧ (rr (row_of_signal Clock.utc
           {| sig_symbol := "XYZ_USDT"; sig_direction := "LONG"; sig_price := 100;
              sig_sl := 97.6; sig_tp1 := 101.8; sig_tp2 := 103.6;
              sig_rr := 1.499999999999994; sig_close_time := Sample.t1 |}) = 1.5)
  ∧ ∃ s : signal Q,
      long_decision "XYZ_USDT" (100 # 1) (105 # 1) (20 # 1) (2 # 1) false None Sample.t1
      = Ok (Some s)
      ∧ (sig_sl s == 976 # 10)%Q ∧ (sig_tp2 s == 1036 # 10)%Q
      ∧ (sig_tp1 s == 1018 # 10)%Q ∧ (sig_rr s == 3 # 2)%Q.
Proof.
  split; [|split; [|split; [|split]]].
  - intros sym price lower r a ho last ct s.
    pose proof (long_decision_iff sym price lower r a ho last ct s) as Hiff.
    rewrite thirty_binary64, MIN_LONG_binary64, RR_MIN_binary64 in Hiff. exact Hiff.
  - intros sym price lower r a ho last ct s Hd.
    apply long_decision_iff in Hd
      as (_ & _ & _ & _ & pct & rr0 & Hpct & _ & Hrr & Hgate & ->).
    cbn [sig_sl sig_tp1 sig_tp2 sig_rr].
    unfold long_tp1, long_tp2, long_sl in *. rewrite SL_binary64, TP_binary64, half_binary64 in *.
    repeat split.
    + apply long_rr_emitted in Hrr; [|exact Hgate].
      unfold long_tp2, long_sl in Hrr. rewrite SL_binary64, TP_binary64 in Hrr. exact Hrr.
    + unfold long_pct, long_tp2, py_div in *. rewrite TP_binary64 in *.
      destruct (price == whole 0)%num; [discriminate Hpct|].
      rewrite hundred_binary64. reflexivity.
  - vm_compute. reflexivity.
  - vm_compute. reflexivity.
  - eexists. split; [vm_compute; reflexivity|]. repeat split; reflexivity.
Qed.

End SignalArithmetic.

Section RiskReward.

Local Open Scope Q_scope.


End RiskReward.

Section Bands.


End Bands.

(** ** The claims on concrete runs *)

Section Runs.

Local Open Scope float_scope.

Lemma cpython_mean_total (xs : list float) : xs ≠ [] → ∃ m, mean B64.cpython xs = Ok m.
Proof.
  intros Hxs. destruct xs as [|x xs]; [contradiction|].
  cbn [mean B64.cpython]. unfold B64.cpython_mean.
  destruct (B64.exact_values (x :: xs)); eexists; reflexivity.
Qed.

Lemma cpython_pstdev_total (xs : list float) : xs ≠ [] → ∃ s, pstdev B64.cpython xs = Ok s.
Proof.
  intros Hxs. destruct xs as [|x xs]; [contradiction|].
  cbn [pstdev B64.cpython]. unfold B64.cpython_pstdev.
  destruct (B64.exact_values (x :: xs)); eexists; reflexivity.
Qed.

Lemma utc_length (t t' : Z) : String.length (Clock.utc t) = String.length (Clock.utc t').
Proof.
  unfold Clock.utc.
  destruct (Clock.civil_from_days (t / 1000 / 86400)) as [[y m] d].
  destruct (Clock.civil_from_days (t' / 1000 / 86400)) as [[y' m'] d'].
  reflexivity.
Qed.

Lemma float_neq (x y : float) : (x =? y) = false → (y =? y) = true → x ≠ y.
Proof. intros Hxy Hyy Heq. rewrite Heq, Hyy in Hxy. discriminate Hxy. Qed.


(** Where the bare claims fail *)

Lemma long_signal_ratio_is_rounded :
  ∃ s, long_decision "XYZ_USDT" 100 105 20 2 false None Sample.t1 = Ok (Some s)
       ∧ sig_rr s ≠ 1.5 ∧ (sig_rr s <? 1.5) = true.
Proof.
  eexists. split; [vm_compute; reflexivity|]. cbn [sig_rr]. split.
  - apply float_neq; vm_compute; reflexivity.
  - vm_compute. reflexivity.
Qed.

Lemma alert_repeats_for_a_bar :
  ¬ never_twice_for_a_bar
      (notifications (run_cycles B64.cpython Clock.utc Sample.five_cycles (initial_state []))).
Proof.
  intros Hnever.
  remember (notifications (run_cycles B64.cpython Clock.utc Sample.five_cycles
                             (initial_state []))) as log eqn:Hlog.
  vm_compute in Hlog. subst log.
  eapply (Hnever [] _ [_] _ []); [reflexivity|].
  repeat split; reflexivity.
Qed.




(** The theorems at the sample inputs *)

Lemma long_signal_levels_witness :
  sig_sl {| sig_symbol := "XYZ_USDT"; sig_direction := "LONG"; sig_price := 100;
            sig_sl := 97.6; sig_tp1 := 101.8; sig_tp2 := 103.6;
            sig_rr := 1.499999999999994; sig_close_time := Sample.t1 |} = 100 - 1.2 * 2.
Proof.
  destruct long_signal_levels as (_ & Hlevels & Hsample & _).
  apply (Hlevels "XYZ_USDT" 100 105 20 2 false None Sample.t1 _ Hsample).
Defined.

Lemma stop_precedes_targets_witness :
  ∃ row',
    positions_file (update_positions {[ "XYZ_USDT" := (96, 104, 96) ]} "2023-11-14 22:30:20"
                      (initial_state [Sample.open_long])) !! 0%nat = Some row'
    ∧ status row' = "STOPPED" ∧ sl_hit_time row' = "2023-11-14 22:30:20"
    ∧ tp1_hit_time row' = tp1_hit_time Sample.open_long
    ∧ tp2_hit_time row' = tp2_hit_time Sample.open_long.
Proof.
  apply (stop_precedes_targets {[ "XYZ_USDT" := (96, 104, 96) ]} "2023-11-14 22:30:20"
           (initial_state [Sample.open_long]) 0 Sample.open_long 96 104 96).
  - reflexivity.
  - apply not_elem_of_empty.
  - split; [reflexivity | intros _; split; reflexivity].
  - vm_compute. reflexivity.
  - reflexivity.
  - vm_compute. reflexivity.
  - vm_compute. reflexivity.
Defined.

Lemma terminal_positions_are_final_witness :
  positions_file (run_cycles B64.cpython Clock.utc Sample.five_cycles
                    (initial_state [Sample.stopped_long])) !! 0%nat
  = Some Sample.stopped_long.
Proof.
  apply (terminal_positions_are_final B64.cpython Clock.utc Sample.five_cycles
           (initial_state [Sample.stopped_long]) 0 Sample.stopped_long).
  - reflexivity.
  - left. reflexivity.
Defined.


Lemma one_alert_per_bar_witness :
  long_decision "XYZ_USDT" 90 95 0 4 false (Some Sample.t1) Sample.t1 = Ok None.
Proof.
  apply (one_alert_per_bar B64.cpython Clock.utc Sample.five_cycles []).
Defined.


Lemma rsi_without_losses_witness : rsi Sample.climb 14 = Ok (Some 100).
Proof.
  destruct (rsi_without_losses Sample.climb 14) as (_ & Hrising & _).
  - lia.
  - vm_compute. discriminate.
  - reflexivity.
  - apply Hrising. intros i Hi.
    assert (Hcases : Forall (fun k => (item Sample.climb (- (14 + 1) + k)
                                       > item Sample.climb (- (14 + 2) + k))%num = true)
                       (map Z.of_nat (seq 1 14))).
    { vm_compute. repeat constructor. }
    rewrite List.Forall_forall in Hcases. apply Hcases.
    apply in_map_iff. exists (Z.to_nat i). split; [lia|]. apply in_seq. lia.
Defined.

Lemma atr_of_constant_price_witness :
  atr (repeat 100 15) (repeat 100 15) (repeat 100 15) 14 = Ok (Some 0).
Proof.
  apply (atr_of_constant_price 100 15 14).
  - vm_compute. exact I.
  - lia.
  - lia.
  - reflexivity.
Defined.



End Runs.

(** * Further properties of the program *)

(** ** The ledger through passes and cycles *)

Section LedgerInvariants.

Context {F : Type} `{Number F}.
Variable stat : Statistics F.
Variable human_time_ms : Z → string.

Local Abbreviation row_of_signal := (row_of_signal human_time_ms).
Local Abbreviation cycle := (scan_cycle stat human_time_ms).
Local Abbreviation scanned := (cycle_scan stat human_time_ms).
Local Abbreviation cycles := (run_cycles stat human_time_ms).

Ltac update_row_cases :=
  unfold update_row;
  repeat (match goal with
          | |- context [if ?b then _ else _] => destruct b eqn:?
          | |- context [match ?o with Some _ => _ | None => _ end] =>
              destruct o as [[[? ?] ?]|] eqn:?
          end; simpl).

Lemma same_position_refl (row : position F) : same_position row row.
Proof. repeat split. Qed.

Lemma same_position_trans (r1 r2 r3 : position F) :
  same_position r1 r2 → same_position r2 r3 → same_position r1 r3.
Proof.
  unfold same_position. intros (?&?&?&?&?&?&?&?&?) (?&?&?&?&?&?&?&?&?).
  repeat split; congruence.
Qed.

Lemma update_row_same_position new_ids ohlc now (row : position F) :
  same_position row (fst (update_row new_ids ohlc now row)).
Proof. update_row_cases; repeat split. Qed.

Lemma Forall2_map_r_same {A : Type} (R : A → A → Prop) (f : A → A) (l : list A) :
  (∀ a, R a (f a)) → Forall2 R l (map f l).
Proof. intros Hf. induction l; simpl; constructor; auto. Qed.

Lemma pass_same_position ohlc now (st : bot_state F) :
  Forall2 same_position (positions_file st) (positions_file (update_positions ohlc now st)).
Proof.
  rewrite update_positions_file. apply Forall2_map_r_same.
  intros row. apply update_row_same_position.
Qed.

Lemma Forall2_same_position_trans (l1 l2 l3 : list (position F)) :
  Forall2 same_position l1 l2 → Forall2 same_position l2 l3 → Forall2 same_position l1 l3.
Proof.
  intros H12. revert l3. induction H12 as [|a b l1 l2 Hab H12 IH]; intros l3 H23.
  - inversion H23. constructor.
  - inversion H23 as [|b' c l2' l3' Hbc H23']; subst. constructor.
    + apply (same_position_trans a b c); assumption.
    + apply IH. exact H23'.
Qed.

Lemma Forall2_same_position_refl (l : list (position F)) : Forall2 same_position l l.
Proof. induction l; constructor; [apply same_position_refl | assumption]. Qed.

Lemma Forall2_same_position_app (l1 l2 k1 k2 : list (position F)) :
  Forall2 same_position l1 l2 → Forall2 same_position k1 k2 →
  Forall2 same_position (l1 ++ k1) (l2 ++ k2).
Proof. intros H1 H2. induction H1; simpl; [exact H2 | constructor; assumption]. Qed.

(** X1.  A pass of [update_positions] keeps the number of rows and, in
    every row, the id, the symbol, the direction, the entry, the stop,
    the two targets, the signal time and the ratio: it writes nothing
    but the status and the hit times. *)
Theorem pass_keeps_the_cells (ohlc : gmap string (F * F * F)) (now : string)
    (st : bot_state F) :
  length (positions_file (update_positions ohlc now st)) = length (positions_file st)
  ∧ Forall2 same_position (positions_file st) (positions_file (update_positions ohlc now st))
  ∧ last_alert_candle (update_positions ohlc now st) = last_alert_candle st
  ∧ stats (update_positions ohlc now st) = stats st
  ∧ notifications (update_positions ohlc now st) = notifications st.
Proof.
  split; [|split; [apply pass_same_position | repeat split]].
  rewrite update_positions_file. apply length_map.
Qed.

(** X2.  A row whose symbol has no bar in [latest_ohlc], or whose
    direction is neither LONG nor SHORT, is left as it is by a pass. *)
Theorem rows_without_a_bar_are_left (ohlc : gmap string (F * F * F)) (now : string)
    (st : bot_state F) (i : nat) (row : position F) :
  positions_file st !! i = Some row →
  ohlc !! symbol row = None ∨ (direction row ≠ "LONG" ∧ direction row ≠ "SHORT") →
  positions_file (update_positions ohlc now st) !! i = Some row.
Proof.
  intros Hi Hbar. rewrite update_positions_lookup, Hi. simpl. f_equal.
  unfold update_row.
  destruct (bool_decide _); [reflexivity|].
  destruct (negb _); [reflexivity|].
  destruct Hbar as [Hnone | [Hl Hs]].
  - rewrite Hnone. reflexivity.
  - apply String.eqb_neq in Hl, Hs. rewrite Hl, Hs.
    destruct (ohlc !! symbol row) as [[[c h] l]|]; reflexivity.
Qed.

(** What the loop body makes of a row. *)
Lemma update_row_result new_ids ohlc now (row : position F) :
  let row' := fst (update_row new_ids ohlc now row) in
  row' = row
  ∨ is_open (status row) = true
    ∧ ((sl_hit_time row = "" ∧ row' = set_stopped now row)
       ∨ (tp2_hit_time row = "" ∧ row' = set_closed_tp2 now row)
       ∨ (tp1_hit_time row = "" ∧ row' = set_tp1_hit now row)).
Proof.
  update_row_cases; try (left; reflexivity); right;
    repeat match goal with
           | Hb : negb _ = false |- _ => apply negb_false_iff in Hb
           | Hb : (_ && _)%bool = true |- _ => apply andb_true_iff in Hb; destruct Hb
           | Hs : String.eqb _ "" = true |- _ => apply String.eqb_eq in Hs
           end; (split; [assumption|]); auto.
Qed.

Lemma open_rank (st : string) : is_open st = true → (status_rank st ≤ 1)%nat.
Proof.
  unfold is_open, status_rank. intros Ho.
  destruct (String.eqb st "PENDING"); [lia|].
  destruct (String.eqb st "TP1_HIT"); [lia | discriminate Ho].
Qed.

Lemma update_row_rank new_ids ohlc now (row : position F) :
  (status_rank (status row) ≤ status_rank (status (fst (update_row new_ids ohlc now row))))%nat.
Proof.
  destruct (update_row_result new_ids ohlc now row)
    as [-> | [Ho [[_ ->] | [[_ ->] | [_ ->]]]]]; [lia | | |];
    apply open_rank in Ho; cbn [status set_stopped set_closed_tp2 set_tp1_hit];
    change (status_rank "STOPPED") with 2%nat; change (status_rank "CLOSED_TP2") with 2%nat;
    change (status_rank "TP1_HIT") with 1%nat; lia.
Qed.

(** X3.  The status of a position only moves forward, from PENDING to
    TP1_HIT to a closed status: no pass and no run of cycles takes a
    position back. *)
Theorem status_moves_forward (run : list (list (string * result (klines F)) * string))
    (ohlc : gmap string (F * F * F)) (now : string) (st : bot_state F)
    (i : nat) (row : position F) :
  positions_file st !! i = Some row →
  (∃ row', positions_file (update_positions ohlc now st) !! i = Some row'
           ∧ (status_rank (status row) ≤ status_rank (status row'))%nat)
  ∧ (∃ row', positions_file (cycles run st) !! i = Some row'
             ∧ (status_rank (status row) ≤ status_rank (status row'))%nat).
Proof.
  intros Hi. split.
  - rewrite update_positions_lookup, Hi. simpl. eexists. split; [reflexivity|].
    apply update_row_rank.
  - unfold run_cycles. revert st row Hi.
    induction run as [|[feed now'] run IH]; intros st row Hi.
    + exists row. split; [exact Hi | lia].
    + cbn [fold_left fst snd].
      pose proof (scan_cycle_old_row stat human_time_ms feed now' st i row Hi) as Hnext.
      destruct (IH _ _ Hnext) as (row' & Hrow' & Hle).
      exists row'. split; [exact Hrow'|].
      etransitivity; [|exact Hle]. apply update_row_rank.
Qed.

Lemma update_row_well_timed new_ids ohlc now (row : position F) :
  now ≠ "" → well_timed row → well_timed (fst (update_row new_ids ohlc now row)).
Proof.
  intros Hnow Hw.
  destruct (update_row_result new_ids ohlc now row)
    as [-> | [Ho [[Hs ->] | [[Ht ->] | [Ht ->]]]]]; [exact Hw | | |];
    unfold well_timed in *; cbn [status tp1_hit_time tp2_hit_time sl_hit_time
                                   set_stopped set_closed_tp2 set_tp1_hit].
  - right. right. left. split; [reflexivity|]. split; [exact Hnow|].
    destruct Hw as [(_&_&?&_) | [(_&_&?&_) | [(Hst&_) | (Hst&_)]]]; try assumption;
      rewrite Hst in Ho; discriminate Ho.
  - right. right. right. split; [reflexivity|].
    destruct Hw as [(_&?&_&?) | [(_&?&_&?) | [(Hst&_) | (Hst&_)]]];
      try (rewrite Hst in Ho; discriminate Ho).
    + repeat split; try assumption.
      destruct (String.eqb (tp1_hit_time row) "") eqn:He; [exact Hnow|].
      apply String.eqb_neq in He. exact He.
    + repeat split; try assumption.
      destruct (String.eqb (tp1_hit_time row) "") eqn:He; [exact Hnow|].
      apply String.eqb_neq in He. exact He.
  - right. left. split; [reflexivity|]. split; [exact Hnow|].
    destruct Hw as [(_&_&?&?) | [(_&?&_) | [(Hst&_) | (Hst&_)]]];
      try (rewrite Hst in Ho; discriminate Ho); [split; assumption | contradiction].
Qed.

Lemma new_row_well_timed sym dir (e s t1 t2 : F) time r :
  well_timed (new_row sym dir e s t1 t2 time r).
Proof. left. repeat split. Qed.

Lemma scan_cycle_well_timed feed now (st : bot_state F) :
  now ≠ "" → Forall well_timed (positions_file st) →
  Forall well_timed (positions_file (cycle feed now st)).
Proof.
  intros Hnow Hall. rewrite scan_cycle_eq, update_positions_file.
  destruct (cycle_scan_file stat human_time_ms feed st) as (sigs & Hp & _).
  rewrite Hp. apply List.Forall_forall. intros row' Hin.
  apply in_map_iff in Hin as (row & <- & Hin).
  apply update_row_well_timed; [exact Hnow|].
  apply in_app_iff in Hin as [Hin | Hin].
  - rewrite List.Forall_forall in Hall. apply Hall. exact Hin.
  - apply in_map_iff in Hin as (s & <- & _). apply new_row_well_timed.
Qed.

(** X4.  The times a row records agree with its status, through every
    run of cycles whose passes run at a time that is not the empty
    string: a PENDING row records no time, a TP1_HIT row its first
    target only, a STOPPED row its stop and no second target, and a
    CLOSED_TP2 row both targets and no stop. *)
Theorem times_follow_the_status (run : list (list (string * result (klines F)) * string))
    (st : bot_state F) :
  Forall (fun c => snd c ≠ "") run →
  Forall well_timed (positions_file st) →
  Forall well_timed (positions_file (cycles run st)).
Proof.
  unfold run_cycles. revert st. induction run as [|[feed now] run IH]; intros st Hrun Hall.
  - exact Hall.
  - cbn [fold_left fst snd]. inversion Hrun as [|c run' Hnow Hrun']; subst.
    apply IH; [exact Hrun'|]. apply scan_cycle_well_timed; [exact Hnow | exact Hall].
Qed.

Lemma update_row_again ohlc now (row : position F) :
  fst (update_row ∅ ohlc now (fst (update_row ∅ ohlc now row)))
  = fst (update_row ∅ ohlc now row).
Proof.
  assert (Hclosed : ∀ row', is_open (status row') = false →
                            fst (update_row ∅ ohlc now row') = row').
  { intros row' Hc. unfold update_row. rewrite Hc.
    destruct (bool_decide _); reflexivity. }
  assert (Hfresh : ∀ (row' : position F) (D : Decision (pos_id row' ∈ (∅ : gset string))),
                     @bool_decide _ D = false).
  { intros row' D. apply bool_decide_eq_false_2. set_solver. }
  destruct (snd (update_row ∅ ohlc now row)) eqn:Hmod;
    [|rewrite !(update_row_unmodified ∅ ohlc now row Hmod); reflexivity].
  revert Hmod. unfold update_row at 1 3 4. rewrite Hfresh.
  destruct (is_open (status row)) eqn:Ho; cbn [negb fst snd]; [|discriminate].
  destruct (ohlc !! symbol row) as [[[c h] l]|] eqn:Hbar; [|discriminate].
  destruct (String.eqb (direction row) "LONG") eqn:Hlong;
    [|destruct (String.eqb (direction row) "SHORT") eqn:Hshort; [|discriminate]].
  - destruct ((l <= sl row)%num && String.eqb (sl_hit_time row) "") eqn:H1;
      [intros _; cbn [fst]; apply Hclosed; reflexivity|].
    destruct ((h >= tp2 row)%num && String.eqb (tp2_hit_time row) "") eqn:H2;
      [intros _; cbn [fst]; apply Hclosed; reflexivity|].
    destruct ((h >= tp1 row)%num && String.eqb (tp1_hit_time row) "") eqn:H3;
      [intros _; cbn [fst] | discriminate].
    unfold update_row. rewrite Hfresh.
    cbn [status symbol direction sl tp1 tp2 tp1_hit_time tp2_hit_time sl_hit_time
         set_tp1_hit].
    change (is_open "TP1_HIT") with true. cbn [negb].
    rewrite Hbar, Hlong, H1, H2.
    apply andb_true_iff in H3 as [H3 _]. rewrite H3. cbn [andb].
    destruct (String.eqb now "") eqn:Hnow; [|reflexivity].
    apply String.eqb_eq in Hnow. subst now. reflexivity.
  - destruct ((h >= sl row)%num && String.eqb (sl_hit_time row) "") eqn:H1;
      [intros _; cbn [fst]; apply Hclosed; reflexivity|].
    destruct ((l <= tp2 row)%num && String.eqb (tp2_hit_time row) "") eqn:H2;
      [intros _; cbn [fst]; apply Hclosed; reflexivity|].
    destruct ((l <= tp1 row)%num && String.eqb (tp1_hit_time row) "") eqn:H3;
      [intros _; cbn [fst] | discriminate].
    unfold update_row. rewrite Hfresh.
    cbn [status symbol direction sl tp1 tp2 tp1_hit_time tp2_hit_time sl_hit_time
         set_tp1_hit].
    change (is_open "TP1_HIT") with true. cbn [negb].
    rewrite Hbar, Hlong, Hshort, H1, H2.
    apply andb_true_iff in H3 as [H3 _]. rewrite H3. cbn [andb].
    destruct (String.eqb now "") eqn:Hnow; [|reflexivity].
    apply String.eqb_eq in Hnow. subst now. reflexivity.
Qed.

Lemma bot_state_eq (s1 s2 : bot_state F) :
  positions_file s1 = positions_file s2 → last_alert_candle s1 = last_alert_candle s2 →
  stats s1 = stats s2 → new_positions_this_cycle s1 = new_positions_this_cycle s2 →
  notifications s1 = notifications s2 → s1 = s2.
Proof. destruct s1, s2. simpl. intros -> -> -> -> ->. reflexivity. Qed.

(** X5.  A second pass on the same bars changes nothing: once the set
    of this cycle's positions is empty, [update_positions] is
    idempotent. *)
Theorem second_pass_changes_nothing (ohlc : gmap string (F * F * F)) (now : string)
    (st : bot_state F) :
  new_positions_this_cycle st = ∅ →
  update_positions ohlc now (update_positions ohlc now st) = update_positions ohlc now st.
Proof.
  intros Hnew. apply bot_state_eq; try reflexivity.
  rewrite (update_positions_file ohlc now (update_positions ohlc now st)).
  rewrite (update_positions_file ohlc now st).
  change (new_positions_this_cycle (update_positions ohlc now st)) with (∅ : gset string).
  rewrite Hnew, map_map. apply map_ext. intros row. apply update_row_again.
Qed.

Lemma count_side_app dir (l1 l2 : list (signal F)) :
  count_side dir (l1 ++ l2) = count_side dir l1 + count_side dir l2.
Proof. unfold count_side, len. rewrite List.filter_app, length_app. lia. Qed.

Lemma fire_counted (s : signal F) (st : bot_state F) :
  is_side (sig_direction s) → counted st → counted (fire human_time_ms s st).
Proof.
  intros Hside [Hl Hs]. unfold counted. cbn [fire emit_signal add_position stats notifications].
  rewrite !count_side_app. unfold count_side at 2 4. cbn [List.filter].
  destruct Hside as [Hd | Hd]; rewrite Hd; cbn [String.eqb Ascii.eqb Bool.eqb andb];
    cbn [count_long count_short n_long n_short List.length len]; unfold len; simpl; lia.
Qed.

Lemma fires_counted ops (st st' : bot_state F) sigs :
  fires human_time_ms ops st sigs st' → counted st → counted st'.
Proof.
  induction 1 as [st|st s sigs st' Hf Hfs IH]; intros Hc; [exact Hc|].
  apply IH. apply fire_counted; [apply Hf | exact Hc].
Qed.

Lemma fires_cycles ops (st st' : bot_state F) sigs :
  fires human_time_ms ops st sigs st' → n_cycles (stats st') = n_cycles (stats st).
Proof.
  induction 1 as [st|st s sigs st' Hf Hfs IH]; [reflexivity|].
  rewrite IH. cbn [fire stats]. destruct (String.eqb _ _); reflexivity.
Qed.

Lemma scan_cycle_counted feed now (st : bot_state F) :
  counted st →
  counted (cycle feed now st)
  ∧ n_cycles (stats (cycle feed now st)) = n_cycles (stats st) + 1.
Proof.
  intros Hc. rewrite scan_cycle_eq.
  destruct (cycle_scan_fires stat human_time_ms feed st) as [sigs Hf].
  split.
  - apply (fires_counted _ _ _ _ Hf). exact Hc.
  - cbn [update_positions stats]. rewrite (fires_cycles _ _ _ _ Hf). reflexivity.
Qed.

(** X6.  The counters of the statistics panel agree with what the
    process did: after any run from the start, the number of cycles is
    the length of the run, and the LONG and SHORT counters are the
    numbers of LONG and SHORT signals emitted. *)
Theorem counters_count_the_signals
    (run : list (list (string * result (klines F)) * string)) (file : list (position F)) :
  let st := cycles run (initial_state file) in
  n_cycles (stats st) = len run
  ∧ n_long (stats st) = count_side "LONG" (notifications st)
  ∧ n_short (stats st) = count_side "SHORT" (notifications st).
Proof.
  cbv zeta.
  assert (Hgen : ∀ st0 : bot_state F, counted st0 →
            counted (cycles run st0)
            ∧ n_cycles (stats (cycles run st0)) = n_cycles (stats st0) + len run).
  { unfold run_cycles. induction run as [|[feed now] run IH]; intros st0 Hc.
    - split; [exact Hc | unfold len; simpl; lia].
    - cbn [fold_left fst snd].
      destruct (scan_cycle_counted feed now st0 Hc) as [Hc' Hn].
      destruct (IH _ Hc') as [Hc'' Hn'].
      split; [exact Hc''|]. rewrite Hn', Hn. unfold len. simpl length. lia. }
  destruct (Hgen (initial_state file)) as [[Hl Hs] Hn]; [split; reflexivity|].
  split; [rewrite Hn; reflexivity | split; assumption].
Qed.

Lemma scan_cycle_rows feed now (st : bot_state F) :
  ∃ sigs,
    notifications (cycle feed now st) = notifications st ++ sigs
    ∧ Forall2 same_position (positions_file st ++ map row_of_signal sigs)
                            (positions_file (cycle feed now st))
    ∧ Forall (fun s => is_side (sig_direction s)
                ∧ has_open (positions_file st) (sig_symbol s) (sig_direction s) = false) sigs.
Proof.
  destruct (cycle_scan_file stat human_time_ms feed st) as (sigs & Hp & Hn & _ & Hall).
  exists sigs. rewrite scan_cycle_eq. split; [exact Hn|]. split; [|exact Hall].
  rewrite <- Hp. apply pass_same_position.
Qed.

(** X7.  The ledger never loses or reorders a row: after any run of
    cycles it is the rows it had, followed by one row per signal in
    the order of emission, each with the id, symbol, direction, levels,
    signal time and ratio that [add_position] wrote. *)
Theorem ledger_lists_the_signals
    (run : list (list (string * result (klines F)) * string)) (st : bot_state F) :
  ∃ sigs,
    notifications (cycles run st) = notifications st ++ sigs
    ∧ Forall2 same_position (positions_file st ++ map row_of_signal sigs)
                            (positions_file (cycles run st))
    ∧ length (positions_file (cycles run st))
      = (length (positions_file st) + length sigs)%nat.
Proof.
  assert (Hgen : ∃ sigs,
    notifications (cycles run st) = notifications st ++ sigs
    ∧ Forall2 same_position (positions_file st ++ map row_of_signal sigs)
                            (positions_file (cycles run st))).
  { unfold run_cycles. revert st. induction run as [|[feed now] run IH]; intros st.
    - exists []. rewrite !app_nil_r. split; [reflexivity|]. apply Forall2_same_position_refl.
    - cbn [fold_left fst snd].
      destruct (scan_cycle_rows feed now st) as (sigs1 & Hn1 & Hr1 & _).
      destruct (IH (cycle feed now st)) as (sigs2 & Hn2 & Hr2).
      exists (sigs1 ++ sigs2). split.
      + rewrite Hn2, Hn1, app_assoc. reflexivity.
      + rewrite map_app, app_assoc.
        eapply Forall2_same_position_trans; [|exact Hr2].
        apply Forall2_same_position_app; [exact Hr1 | apply Forall2_same_position_refl]. }
  destruct Hgen as (sigs & Hn & Hr). exists sigs. split; [exact Hn|]. split; [exact Hr|].
  apply Forall2_length in Hr. rewrite <- Hr, length_app, length_map. reflexivity.
Qed.

Lemma has_open_row_in (ops : list (position F)) (row : position F) :
  In row ops → is_open (status row) = true →
  has_open ops (symbol row) (direction row) = true.
Proof.
  intros Hin Ho. unfold has_open. apply existsb_exists. exists row.
  split; [exact Hin|]. rewrite !String.eqb_refl, Ho. reflexivity.
Qed.

(** X8.  While the ledger holds an open position (PENDING or TP1_HIT)
    for a symbol and a side at the start of a cycle, the cycle emits
    no signal for that symbol and side. *)
Theorem no_signal_while_open (feed : list (string * result (klines F))) (now : string)
    (st : bot_state F) (row : position F) :
  In row (positions_file st) → is_open (status row) = true →
  ∃ sigs,
    notifications (cycle feed now st) = notifications st ++ sigs
    ∧ Forall (fun s => ¬ (sig_symbol s = symbol row ∧ sig_direction s = direction row)) sigs.
Proof.
  intros Hin Ho.
  destruct (scan_cycle_rows feed now st) as (sigs & Hn & _ & Hall).
  exists sigs. split; [exact Hn|].
  eapply Forall_impl; [exact Hall|]. intros s [_ Hnone] [Hsym Hdir].
  rewrite Hsym, Hdir, (has_open_row_in _ _ Hin Ho) in Hnone. discriminate Hnone.
Qed.

(** X10.  A symbol whose series has fewer than twenty closes gets no
    signal, whatever its prices: the scan leaves the state as it is
    and still records the last bar of the symbol, so that its open
    positions are evaluated. *)
Theorem short_series_give_no_signal (ops : list (position F)) (sym : string)
    (k : klines F) (st : bot_state F) (ohlc : gmap string (F * F * F))
    (price high low : F) (t : Z) :
  k_closes k ≠ [] → len (k_closes k) < 20 →
  last_bar k = Ok (price, high, low, t) →
  scan_symbol stat human_time_ms ops sym (Ok k) (st, ohlc)
  = (st, <[sym := (price, high, low)]> ohlc).
Proof.
  intros Hne Hshort Hbar. unfold scan_symbol.
  destruct (k_closes k) as [|c cs] eqn:Hc; [contradiction|]. rewrite Hbar.
  unfold indicators, bollinger. rewrite Hc.
  destruct (Z.ltb_spec (len (c :: cs)) 20) as [_|Hge]; [|lia].
  cbn [mbind result_bind].
  destruct (rsi (c :: cs) 14) as [r|]; cbn [mbind result_bind]; [|reflexivity].
  destruct (atr (k_highs k) (k_lows k) (c :: cs) 14) as [a|]; reflexivity.
Qed.

End LedgerInvariants.

(** ** The evaluator on one bar *)

Section OneBar.

Local Open Scope float_scope.

Lemma not_low_and_high (r : float) : (r <? 30) = true → (70 <? r) = true → False.
Proof.
  rewrite !FloatAxioms.ltb_spec.
  change (Prim2SF 30) with (S754_finite false 8444249301319680 (-48)).
  change (Prim2SF 70) with (S754_finite false 4925812092436480 (-46)).
  unfold SFltb, SFcompare.
  destruct (Prim2SF r) as [s|s| |s m e]; try destruct s; try discriminate.
  destruct (Z.compare_spec e (-48)) as [He|He|He]; try discriminate;
    destruct (Z.compare_spec (-46) e) as [He'|He'|He']; try discriminate; lia.
Qed.

(** X9.  No bar gives a symbol both a LONG and a SHORT signal: the RSI
    of a LONG signal is below 30 and that of a SHORT signal above 70.
    So the scan of a symbol emits at most one signal. *)
Theorem long_and_short_exclude
    (sym sym' : string) (price price' lower upper r a a' : float) (ho ho' : bool)
    (last last' : option Z) (ct ct' : Z) :
  (∀ s s', long_decision sym price lower r a ho last ct = Ok (Some s) →
           short_decision sym' price' upper r a' ho' last' ct' = Ok (Some s') → False)
  ∧ ∀ (stat : Statistics float) (human_time_ms : Z → string) ops fetched st ohlc,
      ∃ sigs,
        notifications (fst (scan_symbol stat human_time_ms ops sym fetched (st, ohlc)))
        = notifications st ++ sigs
        ∧ (length sigs ≤ 1)%nat.
Proof.
  assert (Hex : ∀ s s', long_decision sym price lower r a ho last ct = Ok (Some s) →
           short_decision sym' price' upper r a' ho' last' ct' = Ok (Some s') → False).
  { intros s s' Hl Hs.
    apply long_decision_iff in Hl as (_ & Hlow & _).
    apply short_decision_iff in Hs as (_ & Hhigh & _).
    rewrite thirty_binary64 in Hlow.
    apply (not_low_and_high r Hlow).
    assert (H70 : @whole float _ 70 = 70) by (vm_compute; reflexivity).
    rewrite H70 in Hhigh. exact Hhigh. }
  split; [exact Hex|].
  intros stat human_time_ms ops fetched st ohlc.
  assert (Hnone : ∃ sigs, notifications st = notifications st ++ sigs ∧ (length sigs ≤ 1)%nat).
  { exists []. rewrite app_nil_r. split; [reflexivity | simpl; lia]. }
  unfold scan_symbol.
  destruct fetched as [k|]; [|exact Hnone].
  destruct (k_closes k) as [|c0 cs0]; [exact Hnone|].
  destruct (last_bar k) as [[[[p hi] lw] t]|]; [|exact Hnone].
  destruct (indicators stat k) as [[[[[lo|] [up|]] [r0|]] [a0|]]|]; try exact Hnone.
  unfold long_block, short_block.
  destruct (long_decision sym p lo r0 a0 _ _ t) as [[s|]|] eqn:Hl; cbn [mbind result_bind fst];
    try exact Hnone.
  - destruct (short_decision sym p up r0 a0 _ _ t) as [[s'|]|] eqn:Hs;
      cbn [mbind result_bind fst fire_if].
    + exfalso.
      apply long_decision_iff in Hl as (_ & Hlow & _).
      apply short_decision_iff in Hs as (_ & Hhigh & _).
      rewrite thirty_binary64 in Hlow.
      apply (not_low_and_high r0 Hlow).
      assert (H70 : @whole float _ 70 = 70) by (vm_compute; reflexivity).
      rewrite H70 in Hhigh. exact Hhigh.
    + exists [s]. split; [reflexivity | simpl; lia].
    + exists [s]. split; [reflexivity | simpl; lia].
  - destruct (short_decision sym p up r0 a0 _ _ t) as [[s'|]|] eqn:Hs;
      cbn [mbind result_bind fst fire_if]; try exact Hnone.
    exists [s']. split; [reflexivity | simpl; lia].
Qed.

End OneBar.

(** ** The indicators and the levels in exact arithmetic *)

Section ExactRanges.

Local Open Scope Q_scope.

Lemma rsi_loop_exact_nonneg (closes : list Q) (period : Z) (xs : list Z)
    (acc acc' : list Q * list Q) :
  for_each (rsi_step closes period) xs acc = Ok acc' →
  List.Forall (fun x => 0 <= x) (fst acc) → List.Forall (fun x => 0 <= x) (snd acc) →
  List.Forall (fun x => 0 <= x) (fst acc') ∧ List.Forall (fun x => 0 <= x) (snd acc').
Proof.
  revert acc. induction xs as [|i xs IH]; intros acc Hloop Hg Hl.
  - simpl in Hloop. assert (acc = acc') by congruence. subst acc'. split; assumption.
  - cbn [for_each] in Hloop.
    destruct (rsi_step closes period acc i) as [acc1|] eqn:Hstep; [|discriminate Hloop].
    cbn [mbind result_bind] in Hloop. unfold rsi_step in Hstep.
    destruct (py_index closes (- (period + 1) + i)) as [a|]; [|discriminate Hstep].
    destruct (py_index closes (- (period + 2) + i)) as [b|]; [|discriminate Hstep].
    cbn [mbind result_bind] in Hstep. injection Hstep as <-.
    apply (IH _ Hloop); cbn [fst snd]; apply List.Forall_app; (split; [assumption|]);
      (constructor; [|constructor]); apply py_max_exact_ge.
Qed.

Lemma quotient_exact_nonneg (x y : Q) : 0 <= x → 0 <= y → 0 <= x / y.
Proof.
  intros Hx Hy. destruct (Qlt_le_dec 0 y) as [Hpos | Hneg].
  - apply Qle_shift_div_l; [exact Hpos|]. rewrite Qmult_0_l. exact Hx.
  - assert (Hz : y == 0) by (apply Qle_antisym; assumption).
    rewrite Hz. unfold Qdiv, Qinv. simpl. rewrite Qmult_0_r. apply Qle_refl.
Qed.

Lemma average_exact_nonneg (l : list Q) (period : Z) :
  List.Forall (fun x => 0 <= x) l → (period <= 0 → l = [])%Z →
  0 <= @py_sum Q _ l / inject_Z period.
Proof.
  intros Hall Hempty. destruct (Z.le_gt_cases period 0) as [Hle | Hgt].
  - rewrite (Hempty Hle). unfold py_sum. simpl. unfold Qdiv. rewrite Qmult_0_l. apply Qle_refl.
  - apply quotient_exact_nonneg.
    + unfold py_sum. apply sum_exact_nonneg; [apply Qle_refl | exact Hall].
    + change 0 with (inject_Z 0). rewrite <- Zle_Qle. lia.
Qed.

Lemma rsi_formula_range (g l : Q) :
  0 <= g → 0 < l → 0 <= 100 - 100 / (1 + g / l) ∧ 100 - 100 / (1 + g / l) <= 100.
Proof.
  intros Hg Hl.
  assert (Hrs : 0 <= g / l) by (apply quotient_exact_nonneg; lra).
  set (rs := g / l) in *.
  assert (Hd : 0 < 1 + rs) by lra.
  assert (Hq : 0 <= 100 / (1 + rs)) by (apply quotient_exact_nonneg; lra).
  assert (Hq' : 100 / (1 + rs) <= 100).
  { apply Qle_shift_div_r; [exact Hd|]. nra. }
  split; lra.
Qed.

Lemma py_div_inv {F : Type} `{Number F} (x y q : F) :
  py_div x y = Ok q → (y == whole 0)%num = false ∧ q = num_quot x y.
Proof.
  unfold py_div. destruct (y == whole 0)%num; [discriminate|].
  intros Hq. injection Hq as <-. split; reflexivity.
Qed.


Lemma long_levels_exact (price a t s h : Q) :
  t == 9 # 5 → s == 6 # 5 → h == 1 # 2 → 0 < a →
  price - s * a < price
  ∧ price < price + (price + t * a - price) * h
  ∧ price + (price + t * a - price) * h < price + t * a.
Proof. intros Ht Hs Hh Ha. rewrite Ht, Hs, Hh. repeat split; lra. Qed.

Lemma short_levels_exact (price a t s h : Q) :
  t == 9 # 5 → s == 6 # 5 → h == 1 # 2 → 0 < a →
  price - t * a < price - (price - (price - t * a)) * h
  ∧ price - (price - (price - t * a)) * h < price
  ∧ price < price + s * a.
Proof. intros Ht Hs Hh Ha. rewrite Ht, Hs, Hh. repeat split; lra. Qed.

Lemma half_exact : @lit Q _ 5 10 == 1 # 2.
Proof. reflexivity. Qed.


End ExactRanges.

(** ** The series of a symbol *)

Section Series.

Lemma window_whole {A : Type} (l : list A) (n : Z) :
  len l <= n → py_slice_from l (- n) = l.
Proof.
  intros Hn. unfold py_slice_from, len in *.
  destruct (Z.ltb_spec (- n) 0) as [Hneg|Hpos].
  - replace (Z.to_nat _) with 0%nat by lia. reflexivity.
  - replace (Z.to_nat _) with 0%nat by lia. reflexivity.
Qed.

Lemma window_length {A : Type} (l : list A) (n : Z) :
  1 <= n → len (py_slice_from l (- n)) = Z.min n (len l).
Proof.
  intros Hn. unfold py_slice_from, len.
  destruct (Z.ltb_spec (- n) 0) as [_|]; [|lia].
  rewrite length_drop. lia.
Qed.

Lemma window_index {A : Type} (l : list A) (n i : Z) :
  1 <= n → - Z.min n (len l) <= i < 0 →
  py_index (py_slice_from l (- n)) i = py_index l i.
Proof.
  intros Hn Hi. unfold py_index. rewrite (window_length l n Hn).
  unfold py_slice_from, len in *.
  destruct (Z.ltb_spec (- n) 0) as [_|]; [|lia].
  destruct (Z.ltb_spec i 0) as [_|]; [|lia].
  destruct (Z.leb_spec 0 (i + Z.min n (Z.of_nat (length l)))) as [_|]; [|lia].
  destruct (Z.ltb_spec (i + Z.min n (Z.of_nat (length l)))
                       (Z.min n (Z.of_nat (length l)))) as [_|]; [|lia].
  destruct (Z.leb_spec 0 (i + Z.of_nat (length l))) as [_|]; [|lia].
  destruct (Z.ltb_spec (i + Z.of_nat (length l)) (Z.of_nat (length l))) as [_|]; [|lia].
  cbn [andb]. rewrite List.nth_error_skipn.
  match goal with
  | |- context [nth_error l (?a + ?b)%nat] =>
      replace (a + b)%nat with (Z.to_nat (i + Z.of_nat (length l))) by lia
  end.
  reflexivity.
Qed.

Lemma window_slice {A : Type} (l : list A) (n p : Z) :
  1 <= p <= n → py_slice_from (py_slice_from l (- n)) (- p) = py_slice_from l (- p).
Proof.
  intros Hp. unfold py_slice_from at 1 3. rewrite (window_length l n) by lia.
  unfold py_slice_from, len.
  destruct (Z.ltb_spec (- n) 0) as [_|]; [|lia].
  destruct (Z.ltb_spec (- p) 0) as [_|]; [|lia].
  rewrite drop_drop. f_equal. lia.
Qed.

Lemma for_each_ext {A S : Type} (f g : S → A → result S) (xs : list A) (s : S) :
  (∀ x s', In x xs → f s' x = g s' x) → for_each f xs s = for_each g xs s.
Proof.
  revert s. induction xs as [|x xs IH]; intros s Hfg; [reflexivity|].
  cbn [for_each]. rewrite (Hfg x s) by (left; reflexivity).
  destruct (g s x) as [s1|]; [|reflexivity]. cbn [mbind result_bind].
  apply IH. intros y s' Hin. apply Hfg. right. exact Hin.
Qed.

Context {F : Type} `{Number F}.
Variable stat : Statistics F.
Variable human_time_ms : Z → string.

(** An indicator on the last [n] elements of a series is the indicator
    on the series, when [n] covers what the indicator reads. *)
Lemma rsi_window (closes : list F) (n period : Z) :
  1 <= n → period + 1 <= n →
  rsi (py_slice_from closes (- n)) period = rsi closes period.
Proof.
  intros Hn Hp. unfold rsi. rewrite (window_length closes n Hn).
  destruct (Z.ltb_spec (len closes) (period + 1)) as [Hs|Hl].
  - destruct (Z.ltb_spec (Z.min n (len closes)) (period + 1)); [reflexivity | lia].
  - destruct (Z.ltb_spec (Z.min n (len closes)) (period + 1)); [lia|].
    rewrite (for_each_ext (rsi_step (py_slice_from closes (- n)) period)
                          (rsi_step closes period)); [reflexivity|].
    intros i acc Hi. apply in_py_range in Hi. unfold rsi_step.
    rewrite !(window_index closes n) by lia. reflexivity.
Qed.

Lemma sma_window (values : list F) (n period : Z) :
  1 <= period <= n →
  sma stat (py_slice_from values (- n)) period = sma stat values period.
Proof.
  intros Hp. unfold sma. rewrite (window_length values n) by lia.
  rewrite (window_slice values n period Hp).
  destruct (Z.ltb_spec (len values) period); destruct (Z.ltb_spec (Z.min n (len values)) period);
    try reflexivity; lia.
Qed.

Lemma bollinger_window (closes : list F) (n period : Z) (mult : F) :
  1 <= period <= n →
  bollinger stat (py_slice_from closes (- n)) period mult = bollinger stat closes period mult.
Proof.
  intros Hp. unfold bollinger. rewrite (sma_window closes n period Hp).
  rewrite (window_length closes n) by lia. rewrite (window_slice closes n period Hp).
  destruct (Z.ltb_spec (len closes) period); destruct (Z.ltb_spec (Z.min n (len closes)) period);
    try reflexivity; lia.
Qed.

Lemma atr_window (highs lows closes : list F) (n period : Z) :
  1 <= n → 0 <= period → period + 1 <= n →
  len lows = len highs → len closes = len highs →
  atr (py_slice_from highs (- n)) (py_slice_from lows (- n)) (py_slice_from closes (- n)) period
  = atr highs lows closes period.
Proof.
  intros Hn Hp0 Hp Hlows Hcloses. unfold atr. rewrite (window_length highs n Hn).
  destruct (Z.ltb_spec (len highs) (period + 1)) as [Hs|Hl].
  - destruct (Z.ltb_spec (Z.min n (len highs)) (period + 1)); [reflexivity | lia].
  - destruct (Z.ltb_spec (Z.min n (len highs)) (period + 1)); [lia|].
    rewrite (for_each_ext
               (atr_step (py_slice_from highs (- n)) (py_slice_from lows (- n))
                         (py_slice_from closes (- n)))
               (atr_step highs lows closes)); [reflexivity|].
    intros i acc Hi. apply in_py_range in Hi. unfold atr_step.
    rewrite (window_index highs n), (window_index lows n), (window_index closes n) by lia.
    reflexivity.
Qed.

Lemma scan_symbol_ext ops sym (k k' : klines F) cs :
  (k_closes k = [] ↔ k_closes k' = []) → last_bar k = last_bar k' →
  indicators stat k = indicators stat k' →
  scan_symbol stat human_time_ms ops sym (Ok k) cs
  = scan_symbol stat human_time_ms ops sym (Ok k') cs.
Proof.
  intros Hempty Hbar Hind. unfold scan_symbol. rewrite Hbar, Hind.
  destruct (k_closes k) as [|c cs0], (k_closes k') as [|c' cs0']; try reflexivity.
  - destruct Hempty as [Hnil _]. discriminate (Hnil eq_refl).
  - destruct Hempty as [_ Hnil]. discriminate (Hnil eq_refl).
Qed.

(** X14.  [get_klines] keeps the last [LOOKBACK] = 200 bars of the
    series the exchange sent.  On series of one length the cut leaves
    four series of one length, at most 200, and changes nothing of
    what the scan does with the symbol: the last bar, the indicators
    and the outcome of the loop body are those of the whole series. *)
Theorem lookback_keeps_the_scan (times : list Z) (closes highs lows : list F)
    (ops : list (position F)) (sym : string)
    (cs : bot_state F * gmap string (F * F * F)) :
  len highs = len closes → len lows = len closes → len times = len closes →
  let k := klines_of times closes highs lows in
  let sent := klines_sent times closes highs lows in
  len (k_closes k) = Z.min LOOKBACK (len closes)
  ∧ len (k_highs k) = len (k_closes k) ∧ len (k_lows k) = len (k_closes k)
  ∧ len (k_times k) = len (k_closes k)
  ∧ last_bar k = last_bar sent
  ∧ indicators stat k = indicators stat sent
  ∧ scan_symbol stat human_time_ms ops sym (Ok k) cs
    = scan_symbol stat human_time_ms ops sym (Ok sent) cs.
Proof.
  intros Hh Hl Ht k sent.
  assert (Htimes : len (map (fun t => t * 1000) times) = len closes).
  { unfold len in *. rewrite length_map. exact Ht. }
  destruct (Z.le_gt_cases (len closes) LOOKBACK) as [Hshort | Hlong].
  - assert (Hk : k = sent).
    { unfold k, sent, klines_of, klines_sent.
      replace (Z.min LOOKBACK (len closes)) with (len closes) by lia.
      rewrite !window_whole by lia. reflexivity. }
    rewrite Hk. unfold sent, klines_sent. cbn [k_closes k_highs k_lows k_times].
    repeat split; try assumption; try reflexivity. lia.
  - unfold LOOKBACK in *.
    assert (Hn : Z.min 200 (len closes) = 200) by lia.
    assert (Hbar : last_bar k = last_bar sent).
    { unfold last_bar, k, sent, klines_of, klines_sent. unfold LOOKBACK.
      cbn [k_closes k_highs k_lows k_times]. rewrite Hn.
      rewrite !window_index by lia. reflexivity. }
    assert (Hind : indicators stat k = indicators stat sent).
    { unfold indicators, k, sent, klines_of, klines_sent. unfold LOOKBACK.
      cbn [k_closes k_highs k_lows k_times]. rewrite Hn.
      rewrite bollinger_window by lia. rewrite rsi_window by lia.
      rewrite atr_window by lia. reflexivity. }
    assert (Hlen : len (k_closes k) = 200 ∧ len (k_highs k) = 200
                   ∧ len (k_lows k) = 200 ∧ len (k_times k) = 200).
    { unfold k, klines_of. unfold LOOKBACK. cbn [k_closes k_highs k_lows k_times].
      rewrite Hn, !window_length by lia. repeat split; lia. }
    destruct Hlen as (Hc & Hhi & Hlo & Hti).
    split; [lia|]. split; [lia|]. split; [lia|]. split; [lia|].
    split; [exact Hbar|]. split; [exact Hind|].
    apply scan_symbol_ext; [|exact Hbar | exact Hind].
    split; intros Hnil.
    + rewrite Hnil in Hc. unfold len in Hc. simpl in Hc. lia.
    + unfold sent, klines_sent in Hnil. cbn [k_closes] in Hnil.
      rewrite Hnil in Hlong. unfold len in Hlong. simpl in Hlong. lia.
Qed.

(** X18.  When the exchange sends no close, [n] is zero and the cut
    [[-0:]] keeps the other series whole; the scan then skips the
    symbol without reading them: no bar is recorded and the state is
    left as it is. *)
Theorem empty_closes_are_skipped (times : list Z) (highs lows : list F)
    (ops : list (position F)) (sym : string)
    (cs : bot_state F * gmap string (F * F * F)) :
  klines_of times [] highs lows
  = {| k_highs := highs; k_lows := lows; k_closes := [];
       k_times := map (fun t => t * 1000) times |}
  ∧ scan_symbol stat human_time_ms ops sym (Ok (klines_of times [] highs lows)) cs = cs.
Proof.
  assert (Hk : klines_of times [] highs lows
               = {| k_highs := highs; k_lows := lows; k_closes := [];
                    k_times := map (fun t => t * 1000) times |}).
  { unfold klines_of. change (Z.min LOOKBACK (len [])) with 0.
    assert (Hwhole : ∀ (A : Type) (l : list A), py_slice_from l (- 0) = l).
    { intros A l. unfold py_slice_from. change (- 0 <? 0) with false. cbn iota.
      replace (Z.to_nat _) with 0%nat by (unfold len; lia). reflexivity. }
    rewrite !Hwhole. reflexivity. }
  split; [exact Hk|]. rewrite Hk. unfold scan_symbol. destruct cs. reflexivity.
Qed.

End Series.

(** ** The lists of the exchange *)

Section Contracts.

(** X13.  [mexc_interval] always answers with one of the seven
    interval names of the exchange: a string that is not a key of its
    table gives [Min15], which is also the name of the program's own
    interval. *)
Theorem mexc_interval_names (interval_str : string) :
  In (mexc_interval interval_str) ["Min1"; "Min5"; "Min15"; "Min30"; "Min60"; "Hour4"; "Day1"]
  ∧ (¬ In interval_str (map fst interval_names) → mexc_interval interval_str = "Min15")
  ∧ mexc_interval INTERVAL = "Min15".
Proof.
  split; [|split; [|reflexivity]].
  - unfold mexc_interval, interval_names, dict_get.
    repeat (match goal with
            | |- context [if ?b then _ else _] => destruct b
            end; [simpl; tauto|]).
    simpl. tauto.
  - intros Hkey. unfold mexc_interval, interval_names, dict_get.
    repeat match goal with
           | |- context [String.eqb ?k interval_str] =>
               destruct (String.eqb_spec k interval_str) as [Heq|_];
               [exfalso; apply Hkey; rewrite <- Heq; simpl; tauto|]
           end.
    reflexivity.
Qed.

Lemma compare_lt_trans (a b c : string) :
  String.compare a b = Lt → String.compare b c = Lt → String.compare a c = Lt.
Proof.
  intros Hab Hbc.
  apply OrderedTypeEx.String_as_OT.cmp_lt.
  apply OrderedTypeEx.String_as_OT.cmp_lt in Hab, Hbc.
  exact (OrderedTypeEx.String_as_OT.lt_trans _ _ _ Hab Hbc).
Qed.

Lemma compare_gt_lt (a b : string) : String.compare a b = Gt → String.compare b a = Lt.
Proof. intros Hab. rewrite String.compare_antisym, Hab. reflexivity. Qed.

Lemma compare_refl (a : string) : String.compare a a = Eq.
Proof. apply OrderedTypeEx.String_as_OT.cmp_eq. reflexivity. Qed.

Lemma insert_sorted_in (x y : string) (l : list string) :
  In y (insert_sorted x l) ↔ y = x ∨ In y l.
Proof.
  induction l as [|a l IH]; simpl.
  - split; intros [Hy | Hy]; auto.
  - destruct (String.compare x a) eqn:Hc; simpl.
    + apply String.compare_eq_iff in Hc. subst a. split; [auto | intros [-> | Hy]; auto].
    + split; intros [Hy | Hy]; auto.
    + rewrite IH. split; intros [Hy | [Hy | Hy]]; auto.
Qed.

Lemma insert_sorted_sorted (x : string) (l : list string) :
  StronglySorted (fun a b => String.compare a b = Lt) l →
  StronglySorted (fun a b => String.compare a b = Lt) (insert_sorted x l).
Proof.
  induction 1 as [|a l Hs IH Ha]; simpl.
  - constructor; constructor.
  - destruct (String.compare x a) eqn:Hc.
    + constructor; assumption.
    + constructor; [constructor; assumption|].
      constructor; [exact Hc|].
      eapply Forall_impl; [exact Ha|]. intros b Hab. exact (compare_lt_trans x a b Hc Hab).
    + constructor; [exact IH|].
      apply List.Forall_forall. intros b Hb. apply insert_sorted_in in Hb as [-> | Hb].
      * apply compare_gt_lt, Hc.
      * rewrite List.Forall_forall in Ha. apply Ha, Hb.
Qed.

Lemma sorted_set_in (y : string) (l : list string) : In y (sorted_set l) ↔ In y l.
Proof.
  induction l as [|x l IH]; simpl; [reflexivity|].
  rewrite insert_sorted_in, IH. split; intros [Hy | Hy]; auto.
Qed.

Lemma sorted_set_sorted (l : list string) :
  StronglySorted (fun a b => String.compare a b = Lt) (sorted_set l).
Proof.
  induction l as [|x l IH]; simpl; [constructor | apply insert_sorted_sorted, IH].
Qed.

Lemma strictly_sorted_NoDup (l : list string) :
  StronglySorted (fun a b => String.compare a b = Lt) l → List.NoDup l.
Proof.
  induction 1 as [|a l Hs IH Ha]; constructor; [|exact IH].
  intros Hin. rewrite List.Forall_forall in Ha. specialize (Ha a Hin).
  rewrite compare_refl in Ha. discriminate Ha.
Qed.

Lemma usdt_symbol_spec (c : contract) (sym : string) :
  usdt_symbol c = Some sym ↔
  c_symbol c = Some sym ∧ sym ≠ ""
  ∧ c_quoteCoin c = Some "USDT" ∧ c_settleCoin c = Some "USDT"
  ∧ (c_state c = Some 0 ∨ c_state c = None).
Proof.
  unfold usdt_symbol.
  destruct (decide (c_quoteCoin c = Some "USDT")) as [Hq|Hq].
  2: { rewrite (bool_decide_eq_false_2 _ Hq). simpl. split; [discriminate | tauto]. }
  rewrite (bool_decide_eq_true_2 _ Hq). cbn [negb].
  destruct (decide (c_settleCoin c = Some "USDT")) as [Hs|Hs].
  2: { rewrite (bool_decide_eq_false_2 _ Hs). simpl. split; [discriminate | tauto]. }
  rewrite (bool_decide_eq_true_2 _ Hs). cbn [negb].
  assert (Hstate : bool_decide (c_state c = Some 0) || bool_decide (c_state c = None) = true
                   ↔ c_state c = Some 0 ∨ c_state c = None).
  { rewrite orb_true_iff, !bool_decide_eq_true. reflexivity. }
  destruct (bool_decide (c_state c = Some 0) || bool_decide (c_state c = None)).
  2: { simpl. split; [discriminate|]. intros (_ & _ & _ & _ & Hst).
       apply Hstate in Hst. discriminate Hst. }
  cbn [negb]. destruct (c_symbol c) as [s|].
  2: { split; [discriminate | intros [Hn _]; discriminate Hn]. }
  destruct (String.eqb_spec s "") as [->|Hne].
  - split; [discriminate|]. intros (Hsym & Hne & _). injection Hsym as <-. contradiction.
  - split.
    + intros Hsym. injection Hsym as <-. repeat split; try assumption. apply Hstate. reflexivity.
    + intros (Hsym & _). exact Hsym.
Qed.

(** X15.  [get_all_usdt_contracts] returns, in strictly increasing
    order and so without repeats, exactly the symbols that are not
    empty of the entries quoted and settled in USDT whose state is 0 or
    absent. *)
Theorem usdt_contracts_are_listed (data : list contract) :
  (∀ sym, In sym (get_all_usdt_contracts data) ↔
          ∃ c, In c data ∧ c_symbol c = Some sym ∧ sym ≠ ""
               ∧ c_quoteCoin c = Some "USDT" ∧ c_settleCoin c = Some "USDT"
               ∧ (c_state c = Some 0 ∨ c_state c = None))
  ∧ StronglySorted (fun a b => String.ltb a b = true) (get_all_usdt_contracts data)
  ∧ List.NoDup (get_all_usdt_contracts data).
Proof.
  unfold get_all_usdt_contracts. split; [|split].
  - intros sym. rewrite sorted_set_in. rewrite <- list_elem_of_In, list_elem_of_omap.
    split.
    + intros (c & Hc & Hsym). exists c. apply list_elem_of_In in Hc.
      apply usdt_symbol_spec in Hsym. tauto.
    + intros (c & Hc & Hspec). exists c. split; [apply list_elem_of_In, Hc|].
      apply usdt_symbol_spec. exact Hspec.
  - eapply StronglySorted_ind with (P := StronglySorted (fun a b => String.ltb a b = true));
      [constructor | | apply sorted_set_sorted].
    intros a l _ IH Ha. constructor; [exact IH|].
    eapply Forall_impl; [exact Ha|]. intros b Hab. unfold String.ltb. rewrite Hab. reflexivity.
  - apply strictly_sorted_NoDup, sorted_set_sorted.
Qed.

End Contracts.

Section TopVolume.

Context {F : Type} `{Number F}.

Lemma insert_by_volume_perm (x : string * F) (l : list (string * F)) :
  Permutation.Permutation (insert_by_volume x l) (x :: l).
Proof.
  induction l as [|y l IH]; simpl; [reflexivity|].
  destruct (snd x < snd y)%num; [|reflexivity].
  rewrite IH. apply Permutation.perm_swap.
Qed.

Lemma sort_by_volume_perm (l : list (string * F)) :
  Permutation.Permutation (sort_by_volume l) l.
Proof.
  induction l as [|x l IH]; simpl; [reflexivity|].
  rewrite insert_by_volume_perm, IH. reflexivity.
Qed.

Lemma py_slice_to_in {A : Type} (l : list A) (stop : Z) (x : A) :
  In x (py_slice_to l stop) → In x l.
Proof.
  unfold py_slice_to. intros Hin.
  rewrite <- (firstn_skipn (Z.to_nat (if stop <? 0 then Z.max (stop + len l) 0
                                       else Z.min stop (len l))) l).
  apply in_or_app. left. exact Hin.
Qed.

Lemma py_slice_to_length {A : Type} (l : list A) (stop : Z) :
  len (py_slice_to l stop) <= len l ∧ (0 <= stop → len (py_slice_to l stop) <= stop).
Proof.
  unfold py_slice_to, len. rewrite length_take.
  destruct (Z.ltb_spec stop 0); split; lia.
Qed.

Lemma volumes_in (allowed : list string) (data : list (ticker F)) (sym : string) (v : F) :
  In (sym, v) (volumes allowed data) →
  In sym allowed ∧ ∃ item, In item data ∧ t_symbol item = Some sym ∧ v = volume_of item.
Proof.
  unfold volumes. rewrite <- list_elem_of_In, list_elem_of_omap.
  intros (item & Hitem & Hsome). apply list_elem_of_In in Hitem.
  destruct (t_symbol item) as [s|] eqn:Hs; [|discriminate Hsome].
  destruct (existsb (String.eqb s) allowed) eqn:Hin; [|discriminate Hsome].
  injection Hsome as <- <-. split.
  - apply existsb_exists in Hin as (s' & Hs' & Heq).
    apply String.eqb_eq in Heq. subst s'. exact Hs'.
  - exists item. repeat split; assumption.
Qed.

Lemma volumes_length (allowed : list string) (data : list (ticker F)) :
  len (volumes allowed data) <= len data.
Proof.
  unfold volumes, len. induction data as [|item data IH]; [simpl; lia|].
  cbn [omap list_omap length].
  destruct (match t_symbol item with Some _ => _ | None => _ end); cbn [length]; lia.
Qed.

Lemma top_volume_in (allowed_symbols : list string) (data : list (ticker F)) (top_n : Z)
    (sym : string) :
  In sym (get_top_volume_contracts allowed_symbols data top_n) →
  In sym allowed_symbols ∧ ∃ item, In item data ∧ t_symbol item = Some sym.
Proof.
  unfold get_top_volume_contracts. intros Hin.
  apply in_map_iff in Hin as ([s v] & Hs & Hin). simpl in Hs. subst s.
  apply py_slice_to_in in Hin.
  apply (Permutation.Permutation_in _ (sort_by_volume_perm _)) in Hin.
  apply volumes_in in Hin as (Hallowed & item & Hitem & Hsym & _).
  split; [exact Hallowed|]. exists item. split; assumption.
Qed.

(** X16.  Every symbol [get_top_volume_contracts] returns is an
    allowed symbol and the symbol of an entry of the ticker list; the
    list has at most [top_n] symbols when [top_n] is not negative, and
    never more than the ticker list has entries. *)
Theorem top_volume_contracts_are_allowed (allowed_symbols : list string)
    (data : list (ticker F)) (top_n : Z) :
  let top := get_top_volume_contracts allowed_symbols data top_n in
  (∀ sym, In sym top →
     In sym allowed_symbols ∧ ∃ item, In item data ∧ t_symbol item = Some sym)
  ∧ (0 <= top_n → len top <= top_n)
  ∧ len top <= len data.
Proof.
  cbv zeta. split; [|split].
  - intros sym. apply top_volume_in.
  - intros Hn. unfold get_top_volume_contracts, len. rewrite length_map.
    apply (py_slice_to_length (sort_by_volume (volumes allowed_symbols data)) top_n). exact Hn.
  - unfold get_top_volume_contracts, len. rewrite length_map.
    pose proof (py_slice_to_length (sort_by_volume (volumes allowed_symbols data)) top_n)
      as [Hle _].
    pose proof (Permutation.Permutation_length
                  (sort_by_volume_perm (volumes allowed_symbols data))) as Hperm.
    pose proof (volumes_length allowed_symbols data) as Hv.
    unfold len in *. lia.
Qed.

(** X17.  The symbols [main] scans are contracts of the list it
    fetched first: the top of the ticker list or, when the ticker
    request fails or leaves nothing, all the contracts.  It scans no
    symbol only when there is no contract. *)
Theorem scanned_symbols_are_contracts (all_symbols : list string)
    (tickers : result (list (ticker F))) :
  (∀ sym, In sym (scanned_symbols all_symbols tickers) → In sym all_symbols)
  ∧ (scanned_symbols all_symbols tickers = [] ↔ all_symbols = [])
  ∧ (∀ e, tickers = Raise e → scanned_symbols all_symbols tickers = all_symbols).
Proof.
  unfold scanned_symbols. split; [|split].
  - intros sym. destruct tickers as [data|e].
    + destruct (get_top_volume_contracts all_symbols data TOP_N_VOLUME) as [|s top] eqn:Htop;
        [tauto|].
      intros Hin. rewrite <- Htop in Hin.
      apply top_volume_in in Hin. apply Hin.
    + destruct all_symbols; tauto.
  - destruct tickers as [data|e].
    + destruct (get_top_volume_contracts all_symbols data TOP_N_VOLUME) as [|s top] eqn:Htop.
      * reflexivity.
      * split; [discriminate|]. intros Hall. subst all_symbols.
        assert (Hin : In s (get_top_volume_contracts [] data TOP_N_VOLUME))
          by (rewrite Htop; left; reflexivity).
        apply top_volume_in in Hin as [[] _].
    + destruct all_symbols; [reflexivity | split; discriminate].
  - intros e ->. destruct all_symbols; reflexivity.
Qed.

End TopVolume.

(** ** The alert memory *)

Section AlertMemoryLog.

Context {F : Type} `{Number F}.
Variable stat : Statistics F.
Variable human_time_ms : Z → string.

(** X19.  After any run from the start, the alert memory holds, for
    every symbol and side, the bar of the last signal emitted for that
    symbol and side, and nothing when none was emitted. *)
Theorem alert_memory_holds_the_last_bar
    (run : list (list (string * result (klines F)) * string)) (file : list (position F))
    (sym dir : string) :
  is_side dir →
  last_alert_candle (run_cycles stat human_time_ms run (initial_state file))
    !! (sym +:+ "_" +:+ dir)
  = last_time (notifications (run_cycles stat human_time_ms run (initial_state file))) sym dir.
Proof.
  intros Hside.
  destruct (run_cycles_keep_memory stat human_time_ms run (initial_state file)) as [Hmem _].
  - intros sym' dir' _. simpl. rewrite lookup_empty. reflexivity.
  - simpl. apply alerted_nil.
  - apply Hmem. exact Hside.
Qed.

End AlertMemoryLog.

(** ** The further properties at the sample inputs *)

Section FurtherRuns.

Local Open Scope float_scope.

Lemma rows_without_a_bar_are_left_witness :
  positions_file (update_positions (∅ : gmap string (float * float * float))
                    "2023-11-14 22:30:20" (initial_state [Sample.open_long])) !! 0%nat
  = Some Sample.open_long.
Proof.
  apply (rows_without_a_bar_are_left ∅ "2023-11-14 22:30:20"
           (initial_state [Sample.open_long]) 0 Sample.open_long).
  - reflexivity.
  - left. reflexivity.
Defined.

Lemma status_moves_forward_witness :
  ∃ row',
    positions_file (run_cycles B64.cpython Clock.utc Sample.five_cycles
                      (initial_state [Sample.open_long])) !! 0%nat = Some row'
    ∧ (status_rank (status Sample.open_long) ≤ status_rank (status row'))%nat.
Proof.
  apply (status_moves_forward B64.cpython Clock.utc Sample.five_cycles ∅ ""
           (initial_state [Sample.open_long]) 0 Sample.open_long).
  reflexivity.
Defined.

Lemma times_follow_the_status_witness :
  Forall well_timed
    (positions_file (run_cycles B64.cpython Clock.utc Sample.five_cycles (initial_state []))).
Proof.
  apply (times_follow_the_status B64.cpython Clock.utc Sample.five_cycles (initial_state [])).
  - repeat constructor; discriminate.
  - constructor.
Defined.

Lemma second_pass_changes_nothing_witness :
  update_positions {[ "XYZ_USDT" := (96, 104, 96) ]} "2023-11-14 22:30:20"
    (update_positions {[ "XYZ_USDT" := (96, 104, 96) ]} "2023-11-14 22:30:20"
       (initial_state [Sample.open_long]))
  = update_positions {[ "XYZ_USDT" := (96, 104, 96) ]} "2023-11-14 22:30:20"
      (initial_state [Sample.open_long]).
Proof.
  apply (second_pass_changes_nothing {[ "XYZ_USDT" := (96, 104, 96) ]} "2023-11-14 22:30:20"
           (initial_state [Sample.open_long])).
  reflexivity.
Defined.

Lemma no_signal_while_open_witness :
  ∃ sigs,
    notifications (scan_cycle B64.cpython Clock.utc [("XYZ_USDT", Ok Sample.fall)]
                     "2023-11-14 22:15:10" (initial_state [Sample.open_long]))
    = notifications (initial_state [Sample.open_long]) ++ sigs
    ∧ Forall (fun s => ¬ (sig_symbol s = symbol Sample.open_long
                          ∧ sig_direction s = direction Sample.open_long)) sigs.
Proof.
  apply (no_signal_while_open B64.cpython Clock.utc [("XYZ_USDT", Ok Sample.fall)]
           "2023-11-14 22:15:10" (initial_state [Sample.open_long]) Sample.open_long).
  - left. reflexivity.
  - reflexivity.
Defined.

Lemma short_series_give_no_signal_witness :
  scan_symbol B64.cpython Clock.utc [] "XYZ_USDT" (Ok (Sample.crash Sample.t1))
    (initial_state [], ∅)
  = (initial_state [], <[ "XYZ_USDT" := (70, 70, 60) ]> ∅).
Proof.
  apply (short_series_give_no_signal B64.cpython Clock.utc [] "XYZ_USDT"
           (Sample.crash Sample.t1) (initial_state []) ∅ 70 70 60 Sample.t1).
  - discriminate.
  - reflexivity.
  - reflexivity.
Defined.

Lemma lookback_keeps_the_scan_witness :
  len (k_closes (klines_of (map (fun k => (1700000000 + 900 * Z.of_nat k)%Z) (seq 0 21))
                           (k_closes Sample.fall) (k_highs Sample.fall) (k_lows Sample.fall)))
  = Z.min LOOKBACK (len (k_closes Sample.fall)).
Proof.
  destruct (lookback_keeps_the_scan B64.cpython Clock.utc
              (map (fun k => (1700000000 + 900 * Z.of_nat k)%Z) (seq 0 21))
              (k_closes Sample.fall) (k_highs Sample.fall) (k_lows Sample.fall)
              [] "XYZ_USDT" (initial_state [], ∅)) as [Hlen _];
    [reflexivity | reflexivity | reflexivity | exact Hlen].
Defined.

Lemma alert_memory_holds_the_last_bar_witness :
  last_alert_candle (run_cycles B64.cpython Clock.utc Sample.five_cycles (initial_state []))
    !! "XYZ_USDT_LONG"
  = last_time (notifications (run_cycles B64.cpython Clock.utc Sample.five_cycles
                                (initial_state []))) "XYZ_USDT" "LONG".
Proof.
  apply (alert_memory_holds_the_last_bar B64.cpython Clock.utc Sample.five_cycles []
           "XYZ_USDT" "LONG").
  left. reflexivity.
Defined.

End FurtherRuns.

Section FurtherRunsExact.



End FurtherRunsExact.

(** ** One open position per symbol and side *)

Section OneOpenPosition.

Context {F : Type} `{Number F}.
Variable stat : Statistics F.
Variable human_time_ms : Z → string.

Local Abbreviation fires := (fires human_time_ms).
Local Abbreviation signal_row := (row_of_signal human_time_ms).

(** The signals of the scan of a symbol are for that symbol, one per
    side at most. *)
Lemma scan_symbol_sides ops sym fetched (st : bot_state F) ohlc :
  ∃ sigs, fires ops st sigs (fst (scan_symbol stat human_time_ms ops sym fetched (st, ohlc)))
          ∧ Forall (fun s => sig_symbol s = sym) sigs
          ∧ List.NoDup (map sig_direction sigs).
Proof.
  assert (Hnone : ∃ sigs, fires ops st sigs st ∧ Forall (fun s => sig_symbol s = sym) sigs
                          ∧ List.NoDup (map sig_direction sigs)).
  { exists []. split; [apply fires_nil|]. split; constructor. }
  unfold scan_symbol.
  destruct fetched as [k|]; [|exact Hnone].
  destruct (k_closes k) as [|c0 cs0]; [exact Hnone|].
  destruct (last_bar k) as [[[[price high_last] low_last] close_time]|]; [|exact Hnone].
  destruct (indicators stat k) as [[[[[lower|] [upper|]] [r|]] [a|]]|]; try exact Hnone.
  unfold long_block, short_block.
  destruct (long_decision sym price lower r a _ _ close_time) as [d1|] eqn:Hd1;
    simpl; [|exact Hnone].
  assert (Hf1 : ∃ l1, fires ops st l1 (fire_if human_time_ms d1 st)
                      ∧ Forall (fun s => sig_symbol s = sym ∧ sig_direction s = "LONG") l1
                      ∧ (length l1 ≤ 1)%nat).
  { destruct d1 as [s|].
    - apply long_decision_fires in Hd1 as (Hs & Hdir & Hct & Hho & Hl).
      exists [s]. split; [|split; [repeat constructor; assumption | simpl; lia]].
      apply fires_one. unfold fireable. rewrite Hs, Hdir, Hct.
      repeat split; try assumption. left; reflexivity.
    - exists []. split; [apply fires_nil|]. split; [constructor | simpl; lia]. }
  destruct Hf1 as (l1 & Hf1 & Hall1 & Hlen1).
  assert (Hl1 : Forall (fun s => sig_symbol s = sym) l1 ∧ List.NoDup (map sig_direction l1)).
  { split; [eapply Forall_impl; [exact Hall1 | intros s [Hs _]; exact Hs]|].
    destruct l1 as [|s1 [|s2 l1]]; simpl in *; try lia; repeat constructor. intros []. }
  destruct (short_decision sym price upper r a _ _ close_time) as [d2|] eqn:Hd2; simpl.
  - destruct d2 as [s|]; [|exists l1; split; [exact Hf1 | exact Hl1]].
    apply short_decision_fires in Hd2 as (Hs & Hdir & Hct & Hho & Hl).
    exists (l1 ++ [s]). split; [|split].
    + eapply fires_app; [exact Hf1|]. apply fires_one.
      unfold fireable. rewrite Hs, Hdir, Hct. repeat split; try assumption.
      right; reflexivity.
    + apply List.Forall_app. split; [apply Hl1 | repeat constructor; exact Hs].
    + rewrite map_app. simpl. rewrite Hdir.
      destruct l1 as [|s1 [|s2 l1]]; simpl in *; try lia.
      * repeat constructor. intros [].
      * inversion Hall1 as [|? ? [_ Hd] _]; subst. rewrite Hd.
        repeat constructor; simpl; [intros [Heq|[]]; discriminate Heq | intros []].
  - exists l1. split; [exact Hf1 | exact Hl1].
Qed.

(** The signals of a scan over distinct symbols are for distinct
    symbols and sides. *)
Lemma scan_symbols_sides ops feed (st : bot_state F) ohlc :
  List.NoDup (map fst feed) →
  ∃ sigs, fires ops st sigs (fst (scan_symbols stat human_time_ms ops feed (st, ohlc)))
          ∧ Forall (fun s => In (sig_symbol s) (map fst feed)) sigs
          ∧ List.NoDup (map (fun s => (sig_symbol s, sig_direction s)) sigs).
Proof.
  unfold scan_symbols. revert st ohlc.
  induction feed as [|[sym fetched] feed IH]; intros st ohlc Hnd; cbn [fold_left fst snd].
  - exists []. split; [apply fires_nil|]. split; constructor.
  - cbn [map fst] in Hnd. inversion Hnd as [|? ? Hnotin Hnd']; subst.
    destruct (scan_symbol_sides ops sym fetched st ohlc) as (l1 & H1 & Hsym1 & Hdir1).
    destruct (scan_symbol stat human_time_ms ops sym fetched (st, ohlc)) as [st1 ohlc1] eqn:Hs.
    simpl in H1. destruct (IH st1 ohlc1 Hnd') as (l2 & H2 & Hsym2 & Hkey2).
    exists (l1 ++ l2). split; [eapply fires_app; eassumption|]. split.
    + apply List.Forall_app. split.
      * eapply Forall_impl; [exact Hsym1|]. intros s Hs'. left. symmetry. exact Hs'.
      * eapply Forall_impl; [exact Hsym2|]. intros s Hs'. right. exact Hs'.
    + rewrite map_app. apply List.NoDup_app; [| exact Hkey2 |].
      * clear - Hsym1 Hdir1. induction l1 as [|s l1 IHl]; [constructor|].
        cbn [map] in *. inversion Hdir1 as [|? ? Hn Hd]; subst.
        inversion Hsym1 as [|? ? Hs Hs']; subst.
        constructor; [|apply IHl; assumption].
        intros Hin. apply Hn. apply in_map_iff in Hin as (s' & Heq & Hin).
        apply in_map_iff. exists s'. split; [|exact Hin]. congruence.
      * intros key Hin1 Hin2.
        apply in_map_iff in Hin1 as (s1 & <- & Hin1).
        apply in_map_iff in Hin2 as (s2 & Heq & Hin2).
        rewrite List.Forall_forall in Hsym1, Hsym2.
        apply Hnotin. rewrite <- (Hsym1 s1 Hin1).
        replace (sig_symbol s1) with (sig_symbol s2) by congruence.
        apply Hsym2, Hin2.
Qed.

Lemma filter_length_le {A : Type} (f g : A → bool) (l : list A) :
  (∀ a, f a = true → g a = true) →
  (length (List.filter f l) ≤ length (List.filter g l))%nat.
Proof.
  intros Hfg. induction l as [|a l IH]; simpl; [lia|].
  destruct (f a) eqn:Hf.
  - rewrite (Hfg a Hf). simpl. lia.
  - destruct (g a); simpl; lia.
Qed.

Lemma filter_none {A : Type} (f : A → bool) (l : list A) :
  existsb f l = false → List.filter f l = [].
Proof.
  induction l as [|a l IH]; simpl; [reflexivity|].
  intros He. apply orb_false_iff in He as [Ha Hl]. rewrite Ha. apply IH, Hl.
Qed.

Lemma filter_key_once {A K : Type} (key : A → K) (f : A → bool) (l : list A) :
  (∀ a b, f a = true → f b = true → key a = key b) →
  List.NoDup (map key l) → (length (List.filter f l) ≤ 1)%nat.
Proof.
  intros Hkey Hnd. induction l as [|a l IH]; simpl; [lia|].
  cbn [map] in Hnd. inversion Hnd as [|? ? Hnotin Hnd']; subst.
  destruct (f a) eqn:Hf; [|apply IH, Hnd'].
  assert (Hnone : List.filter f l = []).
  { destruct (List.filter f l) as [|b rest] eqn:Hfl; [reflexivity|].
    assert (Hb : In b (List.filter f l)) by (rewrite Hfl; left; reflexivity).
    apply filter_In in Hb as [Hbl Hfb].
    exfalso. apply Hnotin. rewrite (Hkey a b Hf Hfb). apply in_map, Hbl. }
  rewrite Hnone. simpl. lia.
Qed.

Lemma count_open_app sym dir (l1 l2 : list (position F)) :
  count_open sym dir (l1 ++ l2) = (count_open sym dir l1 + count_open sym dir l2)%nat.
Proof. unfold count_open. rewrite List.filter_app, length_app. reflexivity. Qed.

Lemma count_open_signals sym dir (sigs : list (signal F)) :
  count_open sym dir (map signal_row sigs)
  = length (List.filter (matches sym dir) sigs).
Proof.
  unfold count_open. induction sigs as [|s sigs IH]; [reflexivity|].
  cbn [map List.filter].
  replace (open_for sym dir (signal_row s)) with (matches sym dir s).
  - destruct (matches sym dir s); simpl; rewrite IH; reflexivity.
  - unfold open_for, matches. unfold row_of_signal, new_row. cbn [symbol direction status].
    rewrite andb_true_r. reflexivity.
Qed.

Lemma has_open_count (ops : list (position F)) sym dir :
  has_open ops sym dir = false → count_open sym dir ops = 0%nat.
Proof.
  intros He. unfold count_open. rewrite (filter_none (open_for sym dir)); [reflexivity|].
  exact He.
Qed.

Lemma update_row_open_for sym dir new_ids ohlc now (row : position F) :
  open_for sym dir (fst (update_row new_ids ohlc now row)) = true →
  open_for sym dir row = true.
Proof.
  pose proof (update_row_result new_ids ohlc now row) as Hres. cbv zeta in Hres.
  destruct Hres as [-> | [Ho [[_ ->] | [[_ ->] | [_ ->]]]]]; [tauto | | |];
    unfold open_for; cbn [symbol direction status set_stopped set_closed_tp2 set_tp1_hit];
    rewrite Ho, !andb_true_iff; tauto.
Qed.

Lemma filter_map_length_le {A : Type} (f : A → bool) (g : A → A) (l : list A) :
  (∀ a, f (g a) = true → f a = true) →
  (length (List.filter f (map g l)) ≤ length (List.filter f l))%nat.
Proof.
  intros Hfg. induction l as [|a l IH]; simpl; [lia|].
  destruct (f (g a)) eqn:Hf.
  - rewrite (Hfg a Hf). simpl. lia.
  - destruct (f a); simpl; lia.
Qed.

Lemma scan_cycle_one_open feed now (st : bot_state F) :
  List.NoDup (map fst feed) → one_open_each (positions_file st) →
  one_open_each (positions_file (scan_cycle stat human_time_ms feed now st)).
Proof.
  intros Hnd Hone sym dir. rewrite scan_cycle_eq, update_positions_file.
  unfold cycle_scan.
  destruct (scan_symbols_sides (positions_file (begin_cycle st)) feed (begin_cycle st) ∅ Hnd)
    as (sigs & Hf & _ & Hkeys).
  apply (fires_state human_time_ms) in Hf as (Hp & _ & _ & Hall).
  unfold count_open.
  etransitivity; [apply filter_map_length_le; intros row; apply update_row_open_for|].
  fold (count_open sym dir
          (positions_file (fst (scan_symbols stat human_time_ms (positions_file (begin_cycle st))
                                   feed (begin_cycle st, ∅))))).
  rewrite Hp, count_open_app, count_open_signals.
  change (positions_file (begin_cycle st)) with (positions_file st) in *.
  assert (Hnew : (length (List.filter (matches sym dir) sigs) ≤ 1)%nat).
  { apply (filter_key_once (fun s => (sig_symbol s, sig_direction s))); [|exact Hkeys].
    intros a b Ha Hb. apply matches_true in Ha as [-> ->]. apply matches_true in Hb as [-> ->].
    reflexivity. }
  destruct (List.filter (matches sym dir) sigs) as [|s rest] eqn:Hfl.
  - simpl. specialize (Hone sym dir). lia.
  - assert (Hs : In s (List.filter (matches sym dir) sigs)) by (rewrite Hfl; left; reflexivity).
    apply filter_In in Hs as [Hin Hm]. apply matches_true in Hm as [Hsym Hdir].
    rewrite List.Forall_forall in Hall. destruct (Hall s Hin) as [_ Hnone].
    rewrite Hsym, Hdir in Hnone. rewrite (has_open_count _ _ _ Hnone).
    simpl in *. lia.
Qed.

(** X20.  When every cycle scans each symbol once, no symbol ever has
    two open positions (PENDING or TP1_HIT) on one side: a ledger
    with at most one open position per symbol and side keeps that
    through every run of cycles. *)
Theorem one_open_position_each (run : list (list (string * result (klines F)) * string))
    (st : bot_state F) :
  Forall (fun c => List.NoDup (map fst (fst c))) run →
  one_open_each (positions_file st) →
  one_open_each (positions_file (run_cycles stat human_time_ms run st)).
Proof.
  unfold run_cycles. revert st. induction run as [|[feed now] run IH]; intros st Hrun Hone.
  - exact Hone.
  - cbn [fold_left fst snd]. inversion Hrun as [|c run' Hnd Hrun']; subst.
    apply IH; [exact Hrun'|]. apply scan_cycle_one_open; [exact Hnd | exact Hone].
Qed.

End OneOpenPosition.

Section OneOpenPositionRun.

Lemma one_open_position_each_witness :
  one_open_each
    (positions_file (run_cycles B64.cpython Clock.utc Sample.five_cycles (initial_state []))).
Proof.
  apply (one_open_position_each B64.cpython Clock.utc Sample.five_cycles (initial_state [])).
  - repeat constructor; intros [].
  - intros sym dir. unfold count_open. simpl. lia.
Defined.

End OneOpenPositionRun.
